(** * Shelterluv vaccine check: due windows, vaccine families, reconciliation

    A shallow embedding of the decision logic of [scripts/checkVaccines.js]
    and of its two sibling script variants, with the properties of the
    specification stated over it.

    Conventions of the embedding.
    - A JavaScript number is [NaN], an infinity or a finite value carried as an
      exact rational.  Rounding to binary64 and the sign of zero are not
      modelled; overflow of a literal or of a product to an infinity is.
    - A JavaScript string is a [string] of bytes; [toLowerCase] acts on the
      ASCII letters, white space is the ASCII white space.
    - A JSON value read from a feed is one of the primitives
      [undefined] (an absent field), [null], a boolean, a number, a string.
    - An exception is an explicit outcome ([Throw]) of the functions that
      can raise one.
    - An object used as a map is read through its prototype:
      [Object.prototype], or the object an assignment under "__proto__" put
      in its place.
    - [new Date()] reads a clock: the [n]-th reading of a run is [clock n],
      and the number of readings made so far is threaded through the code. *)

From Stdlib Require Import ZArith QArith Qround Qabs String Ascii List Bool Lia
  Permutation Sorted DecimalString.
From Stdlib Require DecimalPos DecimalFacts DecimalZ Lqa.
Import ListNotations.

Set Implicit Arguments.

(** ** JavaScript numbers *)

Module Num.

Inductive number : Type :=
| NaN
| Infinity (negative : bool)
| Fin (q : Q).

Definition Qltb (x y : Q) : bool := negb (Qle_bool y x).

(** Least magnitude that binary64 rounds to an infinity: 2^1024 - 2^970. *)
Definition overflow_bound : Q := inject_Z (2 ^ 1024 - 2 ^ 970).

Definition ofQ (q : Q) : number :=
  if Qle_bool overflow_bound (Qabs q) then Infinity (Qltb q 0) else Fin q.

Definition ofZ (z : Z) : number := Fin (inject_Z z).

(** [Number.isFinite] *)
Definition isFinite (n : number) : bool :=
  match n with Fin _ => true | _ => false end.

(** [a < b] *)
Definition lt (a b : number) : bool :=
  match a, b with
  | NaN, _ | _, NaN => false
  | Infinity true, Infinity true => false
  | Infinity true, _ => true
  | Infinity false, _ => false
  | Fin _, Infinity neg => negb neg
  | Fin x, Fin y => Qltb x y
  end.

(** [a <= b] *)
Definition le (a b : number) : bool :=
  match a, b with
  | NaN, _ | _, NaN => false
  | Infinity true, _ => true
  | Infinity false, Infinity false => true
  | Infinity false, _ => false
  | Fin _, Infinity neg => negb neg
  | Fin x, Fin y => Qle_bool x y
  end.

(** [a > b] *)
Definition gt (a b : number) : bool := lt b a.

Definition isZero (q : Q) : bool := Qeq_bool q 0.

(** [a * b] *)
Definition mul (a b : number) : number :=
  match a, b with
  | NaN, _ | _, NaN => NaN
  | Infinity n, Infinity m => Infinity (xorb n m)
  | Infinity n, Fin y | Fin y, Infinity n =>
      if isZero y then NaN else Infinity (xorb n (Qltb y 0))
  | Fin x, Fin y => ofQ (x * y)
  end.

(** [a - b]; the operands met here are time values, far from overflow. *)
Definition sub (a b : number) : number :=
  match a, b with
  | NaN, _ | _, NaN => NaN
  | Infinity n, Infinity m => if Bool.eqb n m then NaN else Infinity n
  | Infinity n, Fin _ => Infinity n
  | Fin _, Infinity m => Infinity (negb m)
  | Fin x, Fin y => Fin (x - y)
  end.

(** [a / b]; a zero divisor is taken as +0. *)
Definition div (a b : number) : number :=
  match a, b with
  | NaN, _ | _, NaN => NaN
  | Infinity _, Infinity _ => NaN
  | Infinity n, Fin y => Infinity (xorb n (Qltb y 0))
  | Fin _, Infinity _ => Fin 0
  | Fin x, Fin y =>
      if isZero y then (if isZero x then NaN else Infinity (Qltb x 0))
      else Fin (x / y)
  end.

(** [Math.abs], [Math.floor], [Math.ceil] *)
Definition abs (a : number) : number :=
  match a with
  | NaN => NaN
  | Infinity _ => Infinity false
  | Fin x => Fin (Qabs x)
  end.

Definition floor (a : number) : number :=
  match a with Fin x => ofZ (Qfloor x) | _ => a end.

Definition ceil (a : number) : number :=
  match a with Fin x => ofZ (Qceiling x) | _ => a end.

(** [a === b] on numbers *)
Definition strictEq (a b : number) : bool :=
  match a, b with
  | Fin x, Fin y => Qeq_bool x y
  | Infinity n, Infinity m => Bool.eqb n m
  | _, _ => false
  end.

(** SameValueZero, the equality of [Set.prototype.has]: [NaN] equals itself. *)
Definition sameValueZero (a b : number) : bool :=
  match a, b with
  | NaN, NaN => true
  | _, _ => strictEq a b
  end.

(** Truncation toward zero (ToIntegerOrInfinity on a finite value). *)
Definition truncate (q : Q) : Z :=
  if Qle_bool 0 q then Qfloor q else Qceiling q.

(** [String(n)] for the values [Math.floor] and [Math.ceil] return; a finite
    value is printed by its integer part, which is the whole value there. *)
Definition toString (n : number) : string :=
  match n with
  | NaN => "NaN"
  | Infinity false => "Infinity"
  | Infinity true => "-Infinity"
  | Fin q => NilZero.string_of_int (Z.to_int (truncate q))
  end.

End Num.

Import Num.

(** ** JavaScript strings *)

Module Str.

Local Open Scope Z_scope.

(** [String.prototype.toLowerCase] on the ASCII letters. *)
Definition lowerChar (c : ascii) : ascii :=
  let n := Z.of_nat (nat_of_ascii c) in
  if (65 <=? n) && (n <=? 90) then ascii_of_nat (nat_of_ascii c + 32) else c.

Fixpoint toLowerCase (s : string) : string :=
  match s with
  | EmptyString => EmptyString
  | String c r => String (lowerChar c) (toLowerCase r)
  end.

(** [s.includes(sub)] *)
Fixpoint includes (s sub : string) : bool :=
  String.prefix sub s ||
  match s with
  | EmptyString => false
  | String _ r => includes r sub
  end.

Definition isWhiteSpace (c : ascii) : bool :=
  let n := Z.of_nat (nat_of_ascii c) in
  ((9 <=? n) && (n <=? 13)) || (n =? 32).

Fixpoint trimStart (s : string) : string :=
  match s with
  | EmptyString => EmptyString
  | String c r => if isWhiteSpace c then trimStart r else s
  end.

Fixpoint reverse (s acc : string) : string :=
  match s with
  | EmptyString => acc
  | String c r => reverse r (String c acc)
  end.

Definition trim (s : string) : string :=
  reverse (trimStart (reverse (trimStart s) EmptyString)) EmptyString.

(** Value of a digit in bases up to sixteen. *)
Definition digitOf (c : ascii) : option Z :=
  let n := Z.of_nat (nat_of_ascii c) in
  if (48 <=? n) && (n <=? 57) then Some (n - 48)
  else if (97 <=? n) && (n <=? 102) then Some (n - 87)
  else if (65 <=? n) && (n <=? 70) then Some (n - 55)
  else None.

(** Reads the longest run of digits of [base] at the head of [s]: the value
    accumulated on [acc], the number of digits read, the remaining input. *)
Fixpoint readDigits (base : Z) (s : string) (acc : Z) (count : nat)
  : Z * nat * string :=
  match s with
  | EmptyString => (acc, count, s)
  | String c r =>
      match digitOf c with
      | Some d =>
          if d <? base then readDigits base r (acc * base + d) (S count)
          else (acc, count, s)
      | None => (acc, count, s)
      end
  end.

(** An optional ExponentPart that must reach the end of the input. *)
Definition readExponent (s : string) : option Z :=
  match s with
  | EmptyString => Some 0
  | String c r =>
      if (Ascii.eqb c "e" || Ascii.eqb c "E")%char then
        let '(neg, r') :=
          match r with
          | String "+"%char r' => (false, r')
          | String "-"%char r' => (true, r')
          | _ => (false, r)
          end in
        let '(x, n, rest) := readDigits 10 r' 0 0%nat in
        match n, rest with
        | S _, EmptyString => Some (if neg then - x else x)
        | _, _ => None
        end
      else None
  end.

(** StrUnsignedDecimalLiteral other than [Infinity], as mantissa and power
    of ten. *)
Definition readUnsignedDecimal (s : string) : option (Z * Z) :=
  let '(ip, ni, r1) := readDigits 10 s 0 0%nat in
  match r1 with
  | String "."%char r2 =>
      let '(m, nf, r3) := readDigits 10 r2 ip 0%nat in
      match ni, nf with
      | O, O => None
      | _, _ => option_map (fun e => (m, e - Z.of_nat nf)) (readExponent r3)
      end
  | _ =>
      match ni with
      | O => None
      | S _ => option_map (fun e => (ip, e)) (readExponent r1)
      end
  end.

Definition scale10 (m e : Z) : Q :=
  if 0 <=? e then inject_Z (m * 10 ^ e) else Qmake m (Z.to_pos (10 ^ (- e))).

Definition readDecimal (negative : bool) (s : string) : number :=
  if String.eqb s "Infinity" then Infinity negative
  else
    match readUnsignedDecimal s with
    | Some (m, e) => ofQ (scale10 (if negative then - m else m) e)
    | None => NaN
    end.

(** NonDecimalIntegerLiteral after its two-character prefix. *)
Definition readNonDecimal (base : Z) (s : string) : number :=
  match readDigits base s 0 0%nat with
  | (x, S _, EmptyString) => ofQ (inject_Z x)
  | _ => NaN
  end.

(** StringToNumber.  The value is that of the decimal as written: rounding
    to binary64 is not modelled, so that the result is the one of the code
    for the texts whose value binary64 holds exactly, the whole numbers up to
    2^53 in magnitude among them. *)
Definition stringToNumber (s : string) : number :=
  match trim s with
  | EmptyString => Fin 0
  | String "+"%char r => readDecimal false r
  | String "-"%char r => readDecimal true r
  | String "0"%char (String c r) as t =>
      if (Ascii.eqb c "x" || Ascii.eqb c "X")%char then readNonDecimal 16 r
      else if (Ascii.eqb c "o" || Ascii.eqb c "O")%char then readNonDecimal 8 r
      else if (Ascii.eqb c "b" || Ascii.eqb c "B")%char then readNonDecimal 2 r
      else readDecimal false t
  | t => readDecimal false t
  end.

End Str.

(** ** JSON values as the feeds deliver them *)

Inductive value : Type :=
| VUndefined
| VNull
| VBool (b : bool)
| VNum (n : number)
| VStr (s : string).

(** ToBoolean: [!v] is [negb (toBoolean v)]. *)
Definition toBoolean (v : value) : bool :=
  match v with
  | VUndefined | VNull => false
  | VBool b => b
  | VNum NaN => false
  | VNum (Infinity _) => true
  | VNum (Fin q) => negb (Num.isZero q)
  | VStr s => negb (String.eqb s "")
  end.

(** [Number(v)] *)
Definition toNumber (v : value) : number :=
  match v with
  | VUndefined => NaN
  | VNull => Fin 0
  | VBool b => if b then Fin 1 else Fin 0
  | VNum n => n
  | VStr s => Str.stringToNumber s
  end.

(** SameValueZero on values: how a [Set] compares its members. *)
Definition sameValueZero (a b : value) : bool :=
  match a, b with
  | VUndefined, VUndefined => true
  | VNull, VNull => true
  | VBool x, VBool y => Bool.eqb x y
  | VNum x, VNum y => Num.sameValueZero x y
  | VStr x, VStr y => String.eqb x y
  | _, _ => false
  end.

(** [ids.has(x)] for a set holding the members of [ids]. *)
Definition setHas (ids : list value) (x : value) : bool :=
  existsb (sameValueZero x) ids.

(** Outcome of code that can raise: a value, or the error thrown. *)
Inductive Error : Type :=
| TypeError
| RangeError.

Inductive result (A : Type) : Type :=
| Ok (a : A)
| Throw (e : Error).
Arguments Ok {A} a.
Arguments Throw {A} e.

Definition bindR {A B} (m : result A) (k : A -> result B) : result B :=
  match m with
  | Ok a => k a
  | Throw e => Throw e
  end.

(** ** Dates *)

(** A [Date] object: its time value is a whole number of milliseconds since
    the epoch, or [NaN] (an invalid date). *)
Inductive Date : Type :=
| InvalidDate
| ValidDate (ms : Z).

(** TimeClip bound: 8.64e15 ms on either side of the epoch. *)
Definition maxTime : Q := inject_Z 8640000000000000.

(** [new Date(n)] for a number [n] *)
Definition newDate (n : number) : Date :=
  match n with
  | Fin q =>
      if Num.Qltb maxTime (Qabs q) then InvalidDate
      else ValidDate (Num.truncate q)
  | _ => InvalidDate
  end.

(** [d.getTime()] *)
Definition getTime (d : Date) : number :=
  match d with
  | InvalidDate => NaN
  | ValidDate ms => Num.ofZ ms
  end.

(** Convert Shelterluv unix-string to JS Date *)
Definition unixStringToDate (str : value) : option Date :=
  if negb (toBoolean str) then None
  else
    let seconds := toNumber str in
    if negb (Num.isFinite seconds) then None
    else Some (newDate (Num.mul seconds (Num.ofZ 1000))).

(** ** Due windows *)

Inductive Status : Type :=
| overdue
| needsAttention
| upcoming
| current
| unknown.

Definition Status_eqb (a b : Status) : bool :=
  match a, b with
  | overdue, overdue | needsAttention, needsAttention
  | upcoming, upcoming | current, current | unknown, unknown => true
  | _, _ => false
  end.

Definition DAYS_BEFORE_DUE : number := Num.ofZ 30.
Definition TWO_WEEKS_BEFORE_DUE : number := Num.ofZ 14.

(** What [classifyByDueWindow] returns: [{ status, diffDays, date }]. *)
Module Due.
Record t : Type := mk {
  status : Status;
  diffDays : option number;
  date : option Date
}.
End Due.

(** The chain of comparisons of [classifyByDueWindow] on [diffDays]. *)
Definition windowOf (diffDays : number) : Status :=
  if Num.lt diffDays (Num.ofZ 0) then overdue
  else if Num.le diffDays TWO_WEEKS_BEFORE_DUE then needsAttention
  else if Num.le diffDays DAYS_BEFORE_DUE
          && Num.gt diffDays TWO_WEEKS_BEFORE_DUE then upcoming
  else current.

(** [1000 * 60 * 60 * 24] *)
Definition msPerDay : number := Num.ofZ (1000 * 60 * 60 * 24).

(** The part of [classifyByDueWindow] below [const now = new Date()]. *)
Definition classifyAt (now date : Date) : Due.t :=
  let diffMs := Num.sub (getTime date) (getTime now) in
  let diffDays := Num.div diffMs msPerDay in
  Due.mk (windowOf diffDays) (Some diffDays) (Some date).

(** ** Code that reads the clock *)

(** A computation that reads the clock: from the number of readings made
    before it, its value and the number of readings made after it. *)
Definition Clocked (A : Type) : Type := nat -> A * nat.

Definition ret {A} (a : A) : Clocked A := fun t => (a, t).

Definition bind {A B} (m : Clocked A) (k : A -> Clocked B) : Clocked B :=
  fun t => let (a, t') := m t in k a t'.

Notation "x <- m ;; k" := (bind m (fun x => k))
  (at level 61, m at next level, right associativity).

Section Clock.

(** The readings of the wall clock, in milliseconds since the epoch. *)
Variable clock : nat -> Z.

(** [new Date()] *)
Definition newDateNow : Clocked Date :=
  fun t => (ValidDate (clock t), S t).

Definition classifyByDueWindow (scheduledForStr : value) : Clocked Due.t :=
  match unixStringToDate scheduledForStr with
  | None => ret (Due.mk unknown None None)
  | Some date =>
      now <- newDateNow ;;
      ret (classifyAt now date)
  end.

End Clock.

(** ** Records *)

(** A vaccine record as a feed delivers it; an absent field is [VUndefined]. *)
Module Raw.
Record t : Type := mk {
  id : value;
  animal_id : value;
  product : value;
  manufacturer : value;
  lot : value;
  scheduled_for : value;
  completed_at : value
}.
End Raw.

(** The record [bucketScheduledVaccines] and [main] build from a raw one. *)
Record Vaccine : Type := mkVaccine {
  vaccineId : value;
  animalId : value;
  product : value;
  manufacturer : value;
  lot : value;
  scheduledFor : option Date;
  diffDays : option number;
  status : Status
}.

Definition normalize (v : Raw.t) (c : Due.t) : Vaccine :=
  {| vaccineId := Raw.id v;
     animalId := Raw.animal_id v;
     product := Raw.product v;
     manufacturer := Raw.manufacturer v;
     lot := Raw.lot v;
     scheduledFor := Due.date c;
     diffDays := Due.diffDays c;
     status := Due.status c |}.

(** [arr.push(x)] *)
Definition push {A} (arr : list A) (x : A) : list A := arr ++ [x].

(** [arr || []] for an array that may be absent *)
Definition orEmpty {A} (arr : option (list A)) : list A :=
  match arr with Some l => l | None => [] end.

(** [for (const x of xs) ...] over a loop state, in code that reads the clock *)
Fixpoint forOf {A S} (body : S -> A -> Clocked S) (xs : list A) (s : S)
  : Clocked S :=
  match xs with
  | [] => ret s
  | x :: rest => s' <- body s x ;; forOf body rest s'
  end.

Module Buckets.
Record t : Type := mk {
  overdue : list Vaccine;
  upcoming : list Vaccine;
  needsAttention : list Vaccine;
  current : list Vaccine;
  unknown : list Vaccine
}.
Definition empty : t := mk [] [] [] [] [].

(** The five arrays in the order overdue, needsAttention, upcoming, current,
    unknown. *)
Definition all (b : t) : list Vaccine :=
  overdue b ++ needsAttention b ++ upcoming b ++ current b ++ unknown b.
End Buckets.

(** A dog of [dogsById]; [unknown] may be absent on a dog object. *)
Module Dog.
Record t : Type := mk {
  animalId : value;
  name : value;
  photoUrl : value;
  overdue : list Vaccine;
  needsAttention : list Vaccine;
  upcoming : list Vaccine;
  current : list Vaccine;
  unknown : option (list Vaccine)
}.

(** [[...dog.overdue, ...dog.needsAttention, ...dog.upcoming, ...dog.current,
    ...(dog.unknown || [])]] *)
Definition all (d : t) : list Vaccine :=
  overdue d ++ needsAttention d ++ upcoming d ++ current d
  ++ orEmpty (unknown d).
End Dog.

Section Bucketing.

Variable clock : nat -> Z.

(** Body of the loop of [bucketScheduledVaccines] (scripts/checkVaccines.js). *)
Definition bucketStep (b : Buckets.t) (v : Raw.t) : Clocked Buckets.t :=
  c <- classifyByDueWindow clock (Raw.scheduled_for v) ;;
  let base := normalize v c in
  ret match Due.status c with
      | overdue =>
          Buckets.mk (push (Buckets.overdue b) base) (Buckets.upcoming b)
            (Buckets.needsAttention b) (Buckets.current b) (Buckets.unknown b)
      | needsAttention =>
          Buckets.mk (Buckets.overdue b) (Buckets.upcoming b)
            (push (Buckets.needsAttention b) base) (Buckets.current b)
            (Buckets.unknown b)
      | upcoming =>
          Buckets.mk (Buckets.overdue b) (push (Buckets.upcoming b) base)
            (Buckets.needsAttention b) (Buckets.current b) (Buckets.unknown b)
      | current =>
          Buckets.mk (Buckets.overdue b) (Buckets.upcoming b)
            (Buckets.needsAttention b) (push (Buckets.current b) base)
            (Buckets.unknown b)
      | unknown =>
          Buckets.mk (Buckets.overdue b) (Buckets.upcoming b)
            (Buckets.needsAttention b) (Buckets.current b)
            (push (Buckets.unknown b) base)
      end.

Definition bucketScheduledVaccines (vaccines : list Raw.t)
  : Clocked Buckets.t :=
  forOf bucketStep vaccines Buckets.empty.

(** *** Enrichment of a dog from its own feed ([main], the loop over
    [perAnimalVaccines]) *)

(** [new Set([...].map((v) => v.vaccineId))] *)
Definition knownIdsOf (dog : Dog.t) : list value :=
  map vaccineId (Dog.all dog).

Definition pushToDog (dog : Dog.t) (normalized : Vaccine) : Dog.t :=
  match status normalized with
  | overdue =>
      Dog.mk (Dog.animalId dog) (Dog.name dog) (Dog.photoUrl dog)
        (push (Dog.overdue dog) normalized) (Dog.needsAttention dog)
        (Dog.upcoming dog) (Dog.current dog) (Dog.unknown dog)
  | needsAttention =>
      Dog.mk (Dog.animalId dog) (Dog.name dog) (Dog.photoUrl dog)
        (Dog.overdue dog) (push (Dog.needsAttention dog) normalized)
        (Dog.upcoming dog) (Dog.current dog) (Dog.unknown dog)
  | upcoming =>
      Dog.mk (Dog.animalId dog) (Dog.name dog) (Dog.photoUrl dog)
        (Dog.overdue dog) (Dog.needsAttention dog)
        (push (Dog.upcoming dog) normalized) (Dog.current dog)
        (Dog.unknown dog)
  | current =>
      Dog.mk (Dog.animalId dog) (Dog.name dog) (Dog.photoUrl dog)
        (Dog.overdue dog) (Dog.needsAttention dog) (Dog.upcoming dog)
        (push (Dog.current dog) normalized) (Dog.unknown dog)
  | unknown =>
      Dog.mk (Dog.animalId dog) (Dog.name dog) (Dog.photoUrl dog)
        (Dog.overdue dog) (Dog.needsAttention dog) (Dog.upcoming dog)
        (Dog.current dog) (Some (push (orEmpty (Dog.unknown dog)) normalized))
  end.

(** Body of [for (const v of perAnimalVaccines)]; the loop state is the dog
    and the members of [knownIds]. *)
Definition enrichStep (st : Dog.t * list value) (v : Raw.t)
  : Clocked (Dog.t * list value) :=
  let (dog, knownIds) := st in
  if setHas knownIds (Raw.id v) then ret st
  else
    c <- classifyByDueWindow clock (Raw.scheduled_for v) ;;
    let normalized := normalize v c in
    ret (pushToDog dog normalized, push knownIds (Raw.id v)).

(** One turn of [for (const dog of Object.values(dogsById))], given the
    feed fetched for the dog. *)
Definition enrichDog (dog : Dog.t) (perAnimalVaccines : list Raw.t)
  : Clocked Dog.t :=
  st <- forOf enrichStep perAnimalVaccines (dog, knownIdsOf dog) ;;
  ret (fst st).

End Bucketing.

(** [bucketScheduledVaccines] of the variant of the script that posts one
    message for all dogs ([buildSlackPayloadForDogs]): four arrays, no
    [status] field on the records, and no branch for a status outside the
    four. *)
Module Legacy.

Record Vaccine : Type := mkVaccine {
  vaccineId : value;
  animalId : value;
  product : value;
  manufacturer : value;
  lot : value;
  scheduledFor : option Date;
  diffDays : option number
}.

Module Buckets.
Record t : Type := mk {
  overdue : list Vaccine;
  upcoming : list Vaccine;
  needsAttention : list Vaccine;
  current : list Vaccine
}.
Definition empty : t := mk [] [] [] [].
Definition all (b : t) : list Vaccine :=
  overdue b ++ needsAttention b ++ upcoming b ++ current b.
End Buckets.

Definition normalize (v : Raw.t) (c : Due.t) : Vaccine :=
  {| vaccineId := Raw.id v;
     animalId := Raw.animal_id v;
     product := Raw.product v;
     manufacturer := Raw.manufacturer v;
     lot := Raw.lot v;
     scheduledFor := Due.date c;
     diffDays := Due.diffDays c |}.

Section Bucketing.

Variable clock : nat -> Z.

Definition bucketStep (b : Buckets.t) (v : Raw.t) : Clocked Buckets.t :=
  c <- classifyByDueWindow clock (Raw.scheduled_for v) ;;
  let base := normalize v c in
  ret match Due.status c with
      | overdue =>
          Buckets.mk (push (Buckets.overdue b) base) (Buckets.upcoming b)
            (Buckets.needsAttention b) (Buckets.current b)
      | needsAttention =>
          Buckets.mk (Buckets.overdue b) (Buckets.upcoming b)
            (push (Buckets.needsAttention b) base) (Buckets.current b)
      | upcoming =>
          Buckets.mk (Buckets.overdue b) (push (Buckets.upcoming b) base)
            (Buckets.needsAttention b) (Buckets.current b)
      | current =>
          Buckets.mk (Buckets.overdue b) (Buckets.upcoming b)
            (Buckets.needsAttention b) (push (Buckets.current b) base)
      | unknown => b
      end.

Definition bucketScheduledVaccines (vaccines : list Raw.t)
  : Clocked Buckets.t :=
  forOf bucketStep vaccines Buckets.empty.

End Bucketing.

End Legacy.

(** ** Vaccine families *)

Inductive Family : Type :=
| rabies
| dhpp_dapp
| bordetella
| other.

Definition Family_eqb (a b : Family) : bool :=
  match a, b with
  | rabies, rabies | dhpp_dapp, dhpp_dapp
  | bordetella, bordetella | other, other => true
  | _, _ => false
  end.

Definition isRabies (p : string) : bool :=
  Str.includes p "rabies" || Str.includes p "rabvac".

Definition isDhppDapp (p : string) : bool :=
  Str.includes p "dhpp" ||
  Str.includes p "dapp" ||
  Str.includes p "da2pp" ||
  Str.includes p "da2ppv" ||
  Str.includes p "dappv" ||
  Str.includes p "vanguard dapp" ||
  Str.includes p "nobivac canine 1-dappv".

Definition isBordetella (p : string) : bool :=
  Str.includes p "bordetella" || Str.includes p "trucan b".

(** [(product || '').toLowerCase()] raises a [TypeError] on a truthy value
    that is not a string: it has no [toLowerCase]. *)
Definition classifyVaccineType (product : value) : result Family :=
  match (if toBoolean product then product else VStr "") with
  | VStr s =>
      let p := Str.toLowerCase s in
      if isRabies p then Ok rabies
      else if isDhppDapp p then Ok dhpp_dapp
      else if isBordetella p then Ok bordetella
      else Ok other
  | _ => Throw TypeError
  end.

(** ** The per-family lines of [buildSlackPayloadForDog] *)

(** [arr.filter(pred)] for a predicate that can raise *)
Fixpoint filterR {A} (pred : A -> result bool) (arr : list A)
  : result (list A) :=
  match arr with
  | [] => Ok []
  | x :: rest =>
      bindR (pred x) (fun keep =>
      bindR (filterR pred rest) (fun kept =>
      Ok (if keep then x :: kept else kept)))
  end.

(** [arr.reduce(f)] with no initial value; [None] on an empty array *)
Definition reduce {A} (f : A -> A -> A) (arr : list A) : option A :=
  match arr with
  | [] => None
  | x :: rest => Some (fold_left f rest x)
  end.

(** [x.scheduledFor ? x.scheduledFor.getTime() : Infinity] *)
Definition timeOrInfinity (x : Vaccine) : number :=
  match scheduledFor x with
  | Some d => getTime d
  | None => Infinity false
  end.

(** The callback of the reduction that picks the soonest record. *)
Definition sooner (a b : Vaccine) : Vaccine :=
  let at_ := timeOrInfinity a in
  let bt := timeOrInfinity b in
  if Num.lt bt at_ then b else a.

(** [allVaccines.filter((v) => classifyVaccineType(v.product) === key)] *)
Definition vaccinesForType (allVaccines : list Vaccine) (key : Family)
  : result (list Vaccine) :=
  filterR (fun v => bindR (classifyVaccineType (product v))
                      (fun f => Ok (Family_eqb f key))) allVaccines.

(** Calendar date of a day number counted from 1970-01-01 (proleptic
    Gregorian calendar), as [Date.prototype.toISOString] computes it. *)
Definition civilFromDays (days : Z) : Z * Z * Z :=
  (let z := days + 719468 in
  let era := z / 146097 in
  let doe := z - era * 146097 in
  let yoe := (doe - doe / 1460 + doe / 36524 - doe / 146096) / 365 in
  let doy := doe - (365 * yoe + yoe / 4 - yoe / 100) in
  let mp := (5 * doy + 2) / 153 in
  let d := doy - (153 * mp + 2) / 5 + 1 in
  let m := if mp <? 10 then mp + 3 else mp - 9 in
  let y := yoe + era * 400 + (if m <=? 2 then 1 else 0) in
  (y, m, d))%Z.

(** Decimal digits of a natural number, padded with zeros to [width]. *)
Fixpoint zeros (n : nat) : string :=
  match n with O => EmptyString | S k => String "0" (zeros k) end.

Definition padStart (width : nat) (n : Z) : string :=
  let digits := NilZero.string_of_int (Z.to_int n) in
  (zeros (width - String.length digits) ++ digits)%string.

(** [new Date(ms).toISOString().slice(0, 10)] for a valid time value: years
    outside 0..9999 are written with a sign and six digits. *)
Definition isoDate (ms : Z) : string :=
  let '(y, m, d) := civilFromDays (ms / 86400000) in
  let year :=
    if ((0 <=? y) && (y <=? 9999))%Z then padStart 4 y
    else ((if (y <? 0)%Z then "-" else "+") ++ padStart 6 (Z.abs y))%string in
  substring 0 10 (year ++ "-" ++ padStart 2 m ++ "-" ++ padStart 2 d)%string.

(** [soonest.scheduledFor ? soonest.scheduledFor.toISOString().slice(0, 10)
    : 'unknown date']; [toISOString] raises a [RangeError] on an invalid
    date. *)
Definition dateStrOf (soonest : Vaccine) : result string :=
  match scheduledFor soonest with
  | None => Ok "unknown date"%string
  | Some InvalidDate => Throw RangeError
  | Some (ValidDate ms) => Ok (isoDate ms)
  end.

(** [soonest.diffDays != null ? Math.floor(Math.abs(soonest.diffDays)) : null] *)
Definition daysAgoOf (soonest : Vaccine) : option number :=
  option_map (fun d => Num.floor (Num.abs d)) (diffDays soonest).

(** [soonest.diffDays != null ? Math.ceil(soonest.diffDays) : null] *)
Definition daysOf (soonest : Vaccine) : option number :=
  option_map Num.ceil (diffDays soonest).

(** [day${n === 1 ? '' : 's'}] *)
Definition dayWord (n : number) : string :=
  ("day" ++ (if Num.strictEq n (Num.ofZ 1) then "" else "s"))%string.

Definition overdueExtra (daysAgo : option number) : string :=
  match daysAgo with
  | Some n => (" (" ++ Num.toString n ++ " " ++ dayWord n ++ " overdue)")%string
  | None => EmptyString
  end.

Definition aheadExtra (days : option number) : string :=
  match days with
  | Some n => (" (in " ++ Num.toString n ++ " " ++ dayWord n ++ ")")%string
  | None => EmptyString
  end.

Inductive StatusKey : Type :=
| none
| key (s : Status).

Definition STATUS_EMOJI (k : StatusKey) : string :=
  match k with
  | key overdue => ":red_circle:"
  | key needsAttention => ":warning:"
  | key upcoming => ":large_orange_circle:"
  | key current => ":white_check_mark:"
  | none => ":white_small_square:"
  | key unknown => ":grey_question:"
  end.

(** The status key and text chosen for the record picked as soonest. *)
Definition statusOf (soonest : Vaccine) (dateStr : string)
  : StatusKey * string :=
  match status soonest with
  | overdue =>
      (key overdue,
       "*Overdue*" ++ overdueExtra (daysAgoOf soonest) ++ " – " ++ dateStr)
  | needsAttention =>
      (key needsAttention,
       "*Due soon*" ++ aheadExtra (daysOf soonest) ++ " – *" ++ dateStr ++ "*")
  | upcoming =>
      (key upcoming,
       "*Upcoming*" ++ aheadExtra (daysOf soonest) ++ " – *" ++ dateStr ++ "*")
  | current =>
      (key current,
       "Due" ++ aheadExtra (daysOf soonest) ++ " – " ++ dateStr)
  | unknown =>
      (key unknown, "*Date unknown* –")
  end%string.

(** The callback of [coreTypes.forEach] up to the choice of [statusKey] and
    [statusText]: the record picked as next due, if any, with the two. *)
Definition coreTypeStatus (allVaccines : list Vaccine) (type : Family)
  (label : string) : result (option Vaccine * StatusKey * string) :=
  bindR (vaccinesForType allVaccines type) (fun forType =>
  match reduce sooner forType with
  | None =>
      Ok (None, none,
          "_no " ++ Str.toLowerCase label ++ " vaccination record")%string
  | Some soonest =>
      bindR (dateStrOf soonest) (fun dateStr =>
      let (statusKey, statusText) := statusOf soonest dateStr in
      Ok (Some soonest, statusKey, statusText))
  end).

Definition coreTypes : list (Family * string) :=
  [(rabies, "Rabies"); (dhpp_dapp, "DHPP/DAPP"); (bordetella, "Bordetella")]%string.

Definition newline : string := String (ascii_of_nat 10) EmptyString.

(** The text of the section block pushed for one core type. *)
Definition vaccineBlockText (label : string) (st : StatusKey * string)
  : string :=
  (STATUS_EMOJI (fst st) ++ " *" ++ label ++ "*" ++ newline
   ++ snd st ++ newline ++ newline)%string.

Fixpoint mapR {A B} (f : A -> result B) (l : list A) : result (list B) :=
  match l with
  | [] => Ok []
  | x :: rest =>
      bindR (f x) (fun y => bindR (mapR f rest) (fun ys => Ok (y :: ys)))
  end.

(** ** Definitions used to state the properties *)

(** A clock that reads the same instant at every call. *)
Definition steadyClock (n : nat) : Z := 1700000000000.

(** The records of a feed as [bucketScheduledVaccines] normalizes them, in
    feed order, each classified at its own clock reading. *)
Fixpoint normalizeAll (clock : nat -> Z) (vaccines : list Raw.t)
  : Clocked (list Vaccine) :=
  match vaccines with
  | [] => ret []
  | v :: rest =>
      c <- classifyByDueWindow clock (Raw.scheduled_for v) ;;
      bases <- normalizeAll clock rest ;;
      ret (normalize v c :: bases)
  end.

(** The array of [buckets] named by a status. *)
Definition bucketOf (s : Status) (b : Buckets.t) : list Vaccine :=
  match s with
  | overdue => Buckets.overdue b
  | needsAttention => Buckets.needsAttention b
  | upcoming => Buckets.upcoming b
  | current => Buckets.current b
  | unknown => Buckets.unknown b
  end.

Definition hasStatus (s : Status) (r : Vaccine) : bool :=
  Status_eqb (status r) s.

(** A record of the org-wide feed with no scheduled-for. *)
Definition undatedRaw : Raw.t :=
  Raw.mk (VNum (Num.ofZ 7)) (VStr "dog-1") (VStr "Rabvac 3 Rabies")
    VUndefined VUndefined VUndefined VUndefined.

(** What [classifyByDueWindow] returns when the clock reads [now]. *)
Definition classifyWith (now : Z) (scheduledForStr : value) : Due.t :=
  match unixStringToDate scheduledForStr with
  | None => Due.mk unknown None None
  | Some date => classifyAt (ValidDate now) date
  end.

Definition normalizeWith (now : Z) (v : Raw.t) : Vaccine :=
  normalize v (classifyWith now (Raw.scheduled_for v)).

(** A clock that advances by a millisecond from one reading to the next. *)
Definition tickingClock (n : nat) : Z := 1700000000000 + Z.of_nat n.

(** Two records of one feed: one due at the first reading of
    [tickingClock], one due some three years later. *)
Definition dueNowRaw : Raw.t :=
  Raw.mk (VNum (Num.ofZ 1)) (VStr "dog-1") (VStr "Rabvac 3 Rabies")
    VUndefined VUndefined (VStr "1700000000") VUndefined.

Definition dueLaterRaw : Raw.t :=
  Raw.mk (VNum (Num.ofZ 2)) (VStr "dog-1") (VStr "Vanguard DAPPv")
    VUndefined VUndefined (VStr "1800000000") VUndefined.

(** The array of a dog named by a status. *)
Definition dogBucket (s : Status) (d : Dog.t) : list Vaccine :=
  match s with
  | overdue => Dog.overdue d
  | needsAttention => Dog.needsAttention d
  | upcoming => Dog.upcoming d
  | current => Dog.current d
  | unknown => orEmpty (Dog.unknown d)
  end.

(** The records that carry the identifier [x]. *)
Definition withId (x : value) (r : Vaccine) : bool :=
  sameValueZero x (vaccineId r).

(** What holds of the state of the enrichment loop started on [dog0]: the
    set [knownIds] has the identifiers of the records the dog holds, it has
    kept those of [dog0], and each array of the dog is the array of [dog0]
    followed by records whose identifier [dog0] did not have. *)
Record Reached (dog0 : Dog.t) (st : Dog.t * list value) : Prop := {
  known_ids :
    forall x, setHas (snd st) x = setHas (knownIdsOf (fst st)) x;
  known_kept :
    forall x, setHas (knownIdsOf dog0) x = true -> setHas (snd st) x = true;
  feed_a_kept :
    forall s, exists extra,
      dogBucket s (fst st) = dogBucket s dog0 ++ extra /\
      forall r, In r extra -> setHas (knownIdsOf dog0) (vaccineId r) = false
}.

(** A dog holding one rabies record, given some three years ahead by the
    org-wide feed, and the same record as the dog's own feed could deliver
    it with other field values. *)
Definition feedARecord : Vaccine :=
  {| vaccineId := VNum (Num.ofZ 9);
     animalId := VStr "dog-1";
     product := VStr "Rabvac 3 Rabies";
     manufacturer := VStr "Elanco";
     lot := VStr "A1";
     scheduledFor := Some (ValidDate 1800000000000);
     diffDays := Some (Fin (100000000000 # 86400000));
     status := current |}.

Definition oneRecordDog : Dog.t :=
  Dog.mk (VStr "dog-1") (VStr "Rico") VNull [] [] [] [feedARecord] None.

Definition feedBDuplicate : Raw.t :=
  Raw.mk (VNum (Num.ofZ 9)) (VStr "dog-1") (VStr "Bordetella")
    (VStr "Zoetis") (VStr "B7") (VStr "1600000000") VUndefined.

(** *** The full-history variant of the script *)

(** The variant that also reads each dog's whole vaccine history
    ([fetchAllVaccinesForAnimal]) has the same [classifyByDueWindow],
    [bucketScheduledVaccines] and reduction to the soonest record, and words
    the next dose as follows; [localDate] stands for the [M/D/YYYY]
    rendering of a valid instant in the time zone of the host. *)
Module History.
Section DuePart.

Variable localDate : Z -> string.

(** [formatDate] *)
Definition formatDate (date : option Date) : string :=
  match date with
  | None | Some InvalidDate => "unknown date"
  | Some (ValidDate ms) => localDate ms
  end.

Definition overdueExtra (daysAgo : option number) : string :=
  match daysAgo with
  | Some n => (Num.toString n ++ " " ++ dayWord n ++ " overdue")%string
  | None => "Overdue"%string
  end.

Definition aheadExtra (days : option number) (otherwise : string) : string :=
  match days with
  | Some n => ("in " ++ Num.toString n ++ " " ++ dayWord n)%string
  | None => otherwise
  end.

(** [statusKey] and [duePart] for the record picked as soonest. *)
Definition duePartOf (soonest : Vaccine) : StatusKey * string :=
  let dateStr := formatDate (scheduledFor soonest) in
  match status soonest with
  | overdue =>
      (key overdue,
       "Next dose: *" ++ overdueExtra (daysAgoOf soonest) ++ "* – " ++ dateStr)
  | needsAttention =>
      (key needsAttention,
       "Next dose: *" ++ aheadExtra (daysOf soonest) "due soon" ++ "* – "
       ++ dateStr)
  | upcoming =>
      (key upcoming,
       "Next dose: *" ++ aheadExtra (daysOf soonest) "upcoming" ++ "* – "
       ++ dateStr)
  | current =>
      (key current,
       "Next dose: " ++ aheadExtra (daysOf soonest) "scheduled" ++ " – "
       ++ dateStr)
  | unknown => (key unknown, "Next dose date unknown")
  end%string.

End DuePart.
End History.

(** ** More definitions used to state the properties *)

(** A record whose instant the reduction can compare: it has no date, or a
    valid one. *)
Definition resolved (r : Vaccine) : Prop :=
  scheduledFor r <> Some InvalidDate.

(** The instant of a record; [None], for no date, stands for +infinity. *)
Definition instantOf (r : Vaccine) : option Z :=
  match scheduledFor r with
  | Some (ValidDate ms) => Some ms
  | _ => None
  end.

(** [a] is strictly before [b]. *)
Definition earlier (a b : option Z) : Prop :=
  match a, b with
  | Some x, Some y => (x < y)%Z
  | Some _, None => True
  | None, _ => False
  end.

(** The dog that holds the buckets of a feed. *)
Definition dogOf (b : Buckets.t) : Dog.t :=
  Dog.mk (VStr "dog-1") (VStr "Rico") VNull
    (Buckets.overdue b) (Buckets.needsAttention b) (Buckets.upcoming b)
    (Buckets.current b) (Some (Buckets.unknown b)).

(** Two rabies records of one feed: the first carries an epoch in
    microseconds, beyond the range of a [Date]; the second is due forty days
    after the reading of [steadyClock]. *)
Definition microsecondsRaw : Raw.t :=
  Raw.mk (VNum (Num.ofZ 1)) (VStr "dog-1") (VStr "Rabvac 3 Rabies")
    VUndefined VUndefined (VStr "1700000000000000") VUndefined.

Definition fortyDaysRaw : Raw.t :=
  Raw.mk (VNum (Num.ofZ 2)) (VStr "dog-1") (VStr "Rabies booster")
    VUndefined VUndefined (VStr "1703456000") VUndefined.

(** ** Definitions used to state further properties *)

(** How pressing a status is: overdue is the most pressing. *)
Definition urgency (s : Status) : nat :=
  match s with
  | overdue => 4
  | needsAttention => 3
  | upcoming => 2
  | current => 1
  | unknown => 0
  end.

(** No character of the string is white space. *)
Fixpoint noWhiteSpace (s : string) : bool :=
  match s with
  | EmptyString => true
  | String c r => negb (Str.isWhiteSpace c) && noWhiteSpace r
  end.

(** The scheduled-for of a raw record decodes to a date. *)
Definition decodes (v : Raw.t) : bool :=
  match unixStringToDate (Raw.scheduled_for v) with
  | Some _ => true
  | None => false
  end.

(** A product the family classifier can take: a falsy value, read as [''],
    or a string. *)
Definition classifiable (product : value) : bool :=
  negb (toBoolean product) ||
  match product with VStr _ => true | _ => false end.

(** The family of a product the classifier can take. *)
Definition familyOf (product : value) : Family :=
  match classifyVaccineType product with
  | Ok f => f
  | Throw _ => other
  end.

(** The records of a family. *)
Definition ofFamily (type : Family) (r : Vaccine) : bool :=
  Family_eqb (familyOf (product r)) type.

(** A record whose product is the number 5. *)
Definition numericProductRecord : Vaccine :=
  {| vaccineId := VNum (Num.ofZ 3);
     animalId := VStr "dog-1";
     product := VNum (Num.ofZ 5);
     manufacturer := VUndefined;
     lot := VUndefined;
     scheduledFor := None;
     diffDays := None;
     status := unknown |}.

(** [r] is the record the enrichment makes of a record of [feed]. *)
Definition madeFrom (feed : list Raw.t) (r : Vaccine) : Prop :=
  exists v c, In v feed /\ r = normalize v c.

(** [dog] is [dog0] with records made from [feed] appended to its arrays,
    each to the array of its status. *)
Record Extended (feed : list Raw.t) (dog0 dog : Dog.t) : Prop := {
  same_animalId : Dog.animalId dog = Dog.animalId dog0;
  same_name : Dog.name dog = Dog.name dog0;
  same_photoUrl : Dog.photoUrl dog = Dog.photoUrl dog0;
  only_appended :
    forall s, exists extra,
      dogBucket s dog = dogBucket s dog0 ++ extra /\
      forall r, In r extra -> status r = s /\ madeFrom feed r
}.

(** Every record of the dog is in the array of its status. *)
Definition wellBucketed (dog : Dog.t) : Prop :=
  forall s r, In r (dogBucket s dog) -> status r = s.

(** ** Animals and dogs by identifier *)

(** An object created by [{}] and used as a map: [o k] is the value last
    assigned under the key [k].  An assignment under a key other than
    "__proto__" makes an own property.  An assignment of an object under
    "__proto__" makes none: it runs the setter inherited from
    [Object.prototype], which puts the object in the place of the prototype;
    [o "__proto__"] is then that object, whose own prototype is
    [Object.prototype].  What a read [o[k]] finds, among the own properties
    and along the prototypes, is [readAnimal] for [animalsById] and in
    [ensureDog] for [dogs].  The order in which the keys are enumerated is
    not modelled. *)
Module Obj.
Definition t (A : Type) : Type := string -> option A.
Definition empty {A} : t A := fun _ => None.
(** [o[k] = a] *)
Definition set {A} (o : t A) (k : string) (a : A) : t A :=
  fun k' => if String.eqb k' k then Some a else o k'.
(** The names of the properties of [Object.prototype]. *)
Definition prototypeKeys : list string :=
  ["constructor"; "__defineGetter__"; "__defineSetter__"; "hasOwnProperty";
   "__lookupGetter__"; "__lookupSetter__"; "isPrototypeOf";
   "propertyIsEnumerable"; "toString"; "valueOf"; "__proto__";
   "toLocaleString"]%string.
Definition onPrototype (k : string) : bool :=
  existsb (String.eqb k) prototypeKeys.
End Obj.

(** The fields of an animal that [fetchAnimalsForBuckets] reads; [Photos]
    is [Some] of the elements when it is an array. *)
Module Animal.
Record t : Type := mk {
  Type_ : value;
  Status : value;
  Name : value;
  CoverPhoto : value;
  Photos : option (list value)
}.
End Animal.

(** An entry of [animalsById]: [{ name, photoUrl }]. *)
Module Entry.
Record t : Type := mk {
  name : value;
  photoUrl : value
}.
End Entry.

(** [v === s] for a string literal [s] *)
Definition isString (v : value) (s : string) : bool :=
  match v with
  | VStr x => String.eqb x s
  | _ => false
  end.

(** [ids.add(x)] for a set holding the members of [ids], in insertion
    order. *)
Definition setAdd (ids : list value) (x : value) : list value :=
  if setHas ids x then ids else push ids x.

(** [for (const v of bucket) if (v.animalId) ids.add(v.animalId)] *)
Definition addAnimalIds (ids : list value) (bucket : list Vaccine)
  : list value :=
  fold_left (fun ids v =>
               if toBoolean (animalId v) then setAdd ids (animalId v) else ids)
    bucket ids.

(** [dog[status].push(vaccine)] on a dog made by [ensureDog], whose five
    arrays all exist. *)
Definition pushByStatus (dog : Dog.t) (s : Status) (vaccine : Vaccine)
  : Dog.t :=
  match s with
  | overdue =>
      Dog.mk (Dog.animalId dog) (Dog.name dog) (Dog.photoUrl dog)
        (push (Dog.overdue dog) vaccine) (Dog.needsAttention dog)
        (Dog.upcoming dog) (Dog.current dog) (Dog.unknown dog)
  | needsAttention =>
      Dog.mk (Dog.animalId dog) (Dog.name dog) (Dog.photoUrl dog)
        (Dog.overdue dog) (push (Dog.needsAttention dog) vaccine)
        (Dog.upcoming dog) (Dog.current dog) (Dog.unknown dog)
  | upcoming =>
      Dog.mk (Dog.animalId dog) (Dog.name dog) (Dog.photoUrl dog)
        (Dog.overdue dog) (Dog.needsAttention dog)
        (push (Dog.upcoming dog) vaccine) (Dog.current dog)
        (Dog.unknown dog)
  | current =>
      Dog.mk (Dog.animalId dog) (Dog.name dog) (Dog.photoUrl dog)
        (Dog.overdue dog) (Dog.needsAttention dog) (Dog.upcoming dog)
        (push (Dog.current dog) vaccine) (Dog.unknown dog)
  | unknown =>
      Dog.mk (Dog.animalId dog) (Dog.name dog) (Dog.photoUrl dog)
        (Dog.overdue dog) (Dog.needsAttention dog) (Dog.upcoming dog)
        (Dog.current dog) (Some (push (orEmpty (Dog.unknown dog)) vaccine))
  end.

(** [for (const x of xs) ...] over a loop state, in code that can raise *)
Fixpoint forEachR {A S} (body : S -> A -> result S) (xs : list A) (s : S)
  : result S :=
  match xs with
  | [] => Ok s
  | x :: rest => bindR (body s x) (forEachR body rest)
  end.

(** What [animalsById[id]] evaluates to. *)
Inductive Found : Type :=
| FEntry (e : Entry.t)     (* an entry: an own property, or, under
                              "__proto__", the entry put in the place of
                              the prototype *)
| FValue (v : value)       (* a field of the entry put in the place of the
                              prototype *)
| FBuiltin (name : value)  (* a property of [Object.prototype]: a function,
                              or [Object.prototype] itself, with its
                              [name] *)
| FUndefined.

(** [x.name] of a property [k] of [Object.prototype]: the functions are named
    by their key, but for [constructor], which is [Object]; "__proto__" reads
    [Object.prototype], which has no [name]. *)
Definition builtinName (k : string) : value :=
  if String.eqb k "__proto__" then VUndefined
  else if String.eqb k "constructor" then VStr "Object"
  else VStr k.

(** A read that finds no own property and none on an entry continues on
    [Object.prototype]. *)
Definition inherited (k : string) : Found :=
  if Obj.onPrototype k then FBuiltin (builtinName k) else FUndefined.

(** [animalsById[k]] *)
Definition readAnimal (animalsById : Obj.t Entry.t) (k : string) : Found :=
  match animalsById k with
  | Some e => FEntry e
  | None =>
      match animalsById "__proto__"%string with
      | Some e =>
          if String.eqb k "name" then FValue (Entry.name e)
          else if String.eqb k "photoUrl" then FValue (Entry.photoUrl e)
          else inherited k
      | None => inherited k
      end
  end.

(** [!!x] *)
Definition isTruthy (x : Found) : bool :=
  match x with
  | FEntry _ | FBuiltin _ => true
  | FValue v => toBoolean v
  | FUndefined => false
  end.

(** [x.name]: a primitive other than [undefined] and [null] has no such
    property; [undefined] and [null] have no properties at all. *)
Definition nameOf (x : Found) : result value :=
  match x with
  | FEntry e => Ok (Entry.name e)
  | FValue VUndefined | FValue VNull | FUndefined => Throw TypeError
  | FValue _ => Ok VUndefined
  | FBuiltin name => Ok name
  end.

(** [x.photoUrl] *)
Definition photoUrlOf (x : Found) : result value :=
  match x with
  | FEntry e => Ok (Entry.photoUrl e)
  | FValue VUndefined | FValue VNull | FUndefined => Throw TypeError
  | FValue _ | FBuiltin _ => Ok VUndefined
  end.

Section ById.

(** The text of a number, as a property key and in a template. *)
Variable numberToString : number -> string.

(** The property key of a primitive, which is also its text in a
    template. *)
Definition toPropertyKey (v : value) : string :=
  match v with
  | VUndefined => "undefined"
  | VNull => "null"
  | VBool true => "true"
  | VBool false => "false"
  | VNum n => numberToString n
  | VStr s => s
  end.

(** The answer of the animal service to the request made after [n] others
    for the identifier written in the URL: the animal, or [None] when the
    request fails. *)
Variable fetchAnimalById : nat -> string -> option Animal.t.

(** The body of the [try] of [fetchAnimalsForBuckets] after the fetch:
    [Ok None] stands for [continue]. *)
Definition entryOf (id : value) (animal : Animal.t)
  : result (option Entry.t) :=
  if negb (isString (Animal.Type_ animal) "Dog") then Ok None
  else
    match (if toBoolean (Animal.Status animal) then Animal.Status animal
           else VStr "") with
    | VStr s =>
        let status := Str.toLowerCase s in
        let isAdoptable :=
          Str.includes status "available" || Str.includes status "adoptable" in
        if negb isAdoptable then Ok None
        else
          let name :=
            if toBoolean (Animal.Name animal) then Animal.Name animal
            else VStr ("Animal " ++ toPropertyKey id) in
          let coverPhoto :=
            if toBoolean (Animal.CoverPhoto animal)
            then Animal.CoverPhoto animal
            else
              let first :=
                match Animal.Photos animal with
                | Some photos => nth 0 photos VUndefined
                | None => VBool false
                end in
              if toBoolean first then first else VNull in
          Ok (Some (Entry.mk name coverPhoto))
    | _ => Throw TypeError
    end.

(** One turn of [for (const id of ids)]: the state is [animalsById] and
    the number of requests made. *)
Definition fetchStep (st : Obj.t Entry.t * nat) (id : value)
  : Obj.t Entry.t * nat :=
  let (animalsById, calls) := st in
  match fetchAnimalById calls (toPropertyKey id) with
  | None => (animalsById, S calls)
  | Some animal =>
      match entryOf id animal with
      | Ok (Some entry) =>
          (Obj.set animalsById (toPropertyKey id) entry, S calls)
      | Ok None | Throw _ => (animalsById, S calls)
      end
  end.

Definition fetchAnimalsForBuckets (buckets : Buckets.t) (calls : nat)
  : Obj.t Entry.t * nat :=
  let ids :=
    addAnimalIds
      (addAnimalIds
         (addAnimalIds (addAnimalIds [] (Buckets.overdue buckets))
            (Buckets.needsAttention buckets))
         (Buckets.upcoming buckets))
      (Buckets.current buckets) in
  fold_left fetchStep ids (Obj.empty, calls).

(** [ensureDog]: what [dogs[id]] is after it, a dog, or [None] for a value
    that is none (a property that [dogs] inherits from [Object.prototype],
    which is truthy, so that no dog is made). *)
Definition ensureDog (animalsById : Obj.t Entry.t) (dogs : Obj.t Dog.t)
  (id : value) : result (option Dog.t) :=
  let k := toPropertyKey id in
  match dogs k with
  | Some dog => Ok (Some dog)
  | None =>
      if Obj.onPrototype k then Ok None
      else
        bindR (nameOf (readAnimal animalsById k)) (fun name =>
        bindR (photoUrlOf (readAnimal animalsById k)) (fun photoUrl =>
        Ok (Some (Dog.mk id name photoUrl [] [] [] [] (Some [])))))
  end.

(** [addToDogBucket]: a value that is no dog has none of the five arrays,
    and [push] of [undefined] raises a [TypeError]. *)
Definition addToDogBucket (animalsById : Obj.t Entry.t) (s : Status)
  (dogs : Obj.t Dog.t) (vaccine : Vaccine) : result (Obj.t Dog.t) :=
  let id := animalId vaccine in
  if negb (toBoolean id) then Ok dogs
  else if negb (isTruthy (readAnimal animalsById (toPropertyKey id)))
  then Ok dogs
  else
    bindR (ensureDog animalsById dogs id) (fun found =>
    match found with
    | Some dog =>
        Ok (Obj.set dogs (toPropertyKey id) (pushByStatus dog s vaccine))
    | None => Throw TypeError
    end).

Definition groupVaccinesByDog (buckets : Buckets.t)
  (animalsById : Obj.t Entry.t) : result (Obj.t Dog.t) :=
  let dogs := Obj.empty in
  bindR (forEachR (addToDogBucket animalsById overdue)
           (Buckets.overdue buckets) dogs) (fun dogs =>
  bindR (forEachR (addToDogBucket animalsById needsAttention)
           (Buckets.needsAttention buckets) dogs) (fun dogs =>
  bindR (forEachR (addToDogBucket animalsById upcoming)
           (Buckets.upcoming buckets) dogs) (fun dogs =>
  bindR (forEachR (addToDogBucket animalsById current)
           (Buckets.current buckets) dogs) (fun dogs =>
  forEachR (addToDogBucket animalsById unknown)
    (Buckets.unknown buckets) dogs)))).

(** The records of the animal written [k]: those with a truthy [animalId]
    whose property key is [k]. *)
Definition belongs (k : string) (r : Vaccine) : bool :=
  toBoolean (animalId r) && String.eqb (toPropertyKey (animalId r)) k.

End ById.

(** ** The message of [buildSlackPayloadForDog] *)

(** A block of the message: a header (plain text, with emoji), a divider,
    or a section with its mrkdwn text and, when it has one, its image
    accessory as [image_url] and [alt_text]. *)
Inductive Block : Type :=
| Header (text : string)
| Divider
| SectionBlock (text : string) (accessory : option (value * value)).

Module Payload.
Record t : Type := mk {
  text : string;
  blocks : list Block
}.
End Payload.

(** The text of an array length in a template. *)
Definition countText (n : nat) : string := Num.toString (Num.ofZ (Z.of_nat n)).

(** [summaryLine] *)
Definition summaryLine (dog : Dog.t) : string :=
  let overdueCount := length (Dog.overdue dog) in
  let needsAttentionCount := length (Dog.needsAttention dog) in
  let upcomingCount := length (Dog.upcoming dog) in
  let currentCount := length (Dog.current dog) in
  if negb (Nat.eqb overdueCount 0) || negb (Nat.eqb needsAttentionCount 0)
     || negb (Nat.eqb upcomingCount 0) || negb (Nat.eqb currentCount 0)
  then
    (" – " ++ countText overdueCount ++ " overdue, "
     ++ countText (needsAttentionCount + upcomingCount)
     ++ " within the month, " ++ countText currentCount ++ " current")%string
  else " – no upcoming scheduled vaccines"%string.

(** The blocks [coreTypes.forEach] pushes: for each core type its section
    and a divider. *)
Definition vaccineBlocks (allVaccines : list Vaccine) : result (list Block) :=
  bindR (mapR (fun '(type, label) =>
                 bindR (coreTypeStatus allVaccines type label)
                   (fun '(_, k, text) =>
                      Ok [SectionBlock (vaccineBlockText label (k, text)) None;
                          Divider]))
           coreTypes)
    (fun pushed => Ok (concat pushed)).

Section Message.

(** The text of a number in a template. *)
Variable numberToString : number -> string.

Definition buildSlackPayloadForDog (dog : Dog.t) : result Payload.t :=
  let name := toPropertyKey numberToString (Dog.name dog) in
  let summaryBlock :=
    SectionBlock ("*" ++ name ++ "*" ++ summaryLine dog)
      (if toBoolean (Dog.photoUrl dog)
       then Some (Dog.photoUrl dog, Dog.name dog)
       else None) in
  bindR (vaccineBlocks (Dog.all dog)) (fun perType =>
  Ok (Payload.mk ("Shelterluv vaccine schedule check – " ++ name)
        ([Header (name ++ "'s Vaccine Status"); Divider; summaryBlock; Divider]
         ++ perType))).

End Message.

(** The records a loop of [groupVaccinesByDog] adds, each with the status
    the loop passes to [addToDogBucket]. *)
Definition tagged (s : Status) (l : list Vaccine) : list (Status * Vaccine) :=
  map (pair s) l.

Definition groupItems (b : Buckets.t) : list (Status * Vaccine) :=
  tagged overdue (Buckets.overdue b)
  ++ tagged needsAttention (Buckets.needsAttention b)
  ++ tagged upcoming (Buckets.upcoming b)
  ++ tagged current (Buckets.current b)
  ++ tagged unknown (Buckets.unknown b).

(** A record whose [animalId] is truthy and names a property of
    [Object.prototype]. *)
Definition namesBuiltin (numberToString : number -> string) (r : Vaccine)
  : bool :=
  toBoolean (animalId r)
  && Obj.onPrototype (toPropertyKey numberToString (animalId r)).

(** What [dogs[k]] holds once the records [items] were added: nothing when
    no record is the animal's or [animalsById[k]] is falsy, else a dog with
    the identifier of the animal's first record, the [name] and [photoUrl]
    of [animalsById[k]], and the animal's records, each in the array it was
    added to. *)
Definition groupedAt (numberToString : number -> string)
  (animalsById : Obj.t Entry.t) (k : string) (items : list (Status * Vaccine))
  (o : option Dog.t) : Prop :=
  match filter (fun it => belongs numberToString k (snd it)) items with
  | [] => o = None
  | ((_, first) :: _) as mine =>
      if isTruthy (readAnimal animalsById k) then
        exists dog,
          o = Some dog /\
          Dog.animalId dog = animalId first /\
          nameOf (readAnimal animalsById k) = Ok (Dog.name dog) /\
          photoUrlOf (readAnimal animalsById k) = Ok (Dog.photoUrl dog) /\
          forall s,
            dogBucket s dog
            = map snd (filter (fun it => Status_eqb (fst it) s) mine)
      else o = None
  end.

(** The state of [dogs] once the records [items] were added. *)
Definition groupedAll (numberToString : number -> string)
  (animalsById : Obj.t Entry.t) (items : list (Status * Vaccine))
  (dogs : Obj.t Dog.t) : Prop :=
  forall k,
    if Obj.onPrototype k then dogs k = None
    else groupedAt numberToString animalsById k items (dogs k).

(** Two records of one feed, due at the first reading of [tickingClock]: one
    of an animal called "toString", one of an animal called "name". *)
Definition toStringRaw : Raw.t :=
  Raw.mk (VNum (Num.ofZ 2)) (VStr "toString") (VStr "Vanguard DAPPv")
    VUndefined VUndefined (VStr "1700000000") VUndefined.

Definition nameRaw : Raw.t :=
  Raw.mk (VNum (Num.ofZ 3)) (VStr "name") (VStr "Vanguard DAPPv")
    VUndefined VUndefined (VStr "1700000000") VUndefined.

(** The four arrays [fetchAnimalsForBuckets] reads identifiers from. *)
Definition datedBuckets (b : Buckets.t) : list Vaccine :=
  Buckets.overdue b ++ Buckets.needsAttention b ++ Buckets.upcoming b
  ++ Buckets.current b.

(** The status text of an animal passes the test of
    [fetchAnimalsForBuckets]. *)
Definition isAdoptableStatus (s : string) : bool :=
  Str.includes (Str.toLowerCase s) "available"
  || Str.includes (Str.toLowerCase s) "adoptable".

(** An animal service that knows one adoptable dog, "dog-1". *)
Definition oneDogService (n : nat) (id : string) : option Animal.t :=
  if String.eqb id "dog-1"
  then Some (Animal.mk (VStr "Dog") (VStr "Available in Foster") (VStr "Rico")
               VNull (Some [VStr "https://photos.example/rico.jpg"]))
  else None.

(** ** Paging through the scheduled vaccines *)

(** The JSON body of an answer of the vaccine service, as far as
    [fetchAllScheduledVaccines] looks at it: an object, with [vaccines]
    ([Some] of the elements when it is an array) and [has_more]; an array;
    or any other value that is not [null]. *)
Inductive Body : Type :=
| BObject (vaccines : option (list Raw.t)) (has_more : value)
| BArray (items : list Raw.t)
| BOther.

(** The outcome of a loop run for a bounded number of turns. *)
Inductive Fetch (A : Type) : Type :=
| Done (a : A)
| Raised
| Pending.
Arguments Done {A} a.
Arguments Raised {A}.
Arguments Pending {A}.

Definition limit : nat := 200.

(** [Array.isArray(json.vaccines) ? json.vaccines : json], when that is an
    array *)
Definition batchOf (json : Body) : option (list Raw.t) :=
  match json with
  | BObject (Some vaccines) _ => Some vaccines
  | BObject None _ => None
  | BArray items => Some items
  | BOther => None
  end.

(** [json.has_more === false] *)
Definition saysNoMore (json : Body) : bool :=
  match json with
  | BObject _ (VBool false) => true
  | _ => false
  end.

Section Paging.

(** The answer to the request for the page at an offset: the body, or
    [None] when the request raises (the fetch is rejected, the status is
    not ok, or the body cannot be read). *)
Variable respond : nat -> option Body.

(** The [while (true)] of [fetchAllScheduledVaccines], for at most [turns]
    turns. *)
Fixpoint fetchFrom (turns : nat) (offset : nat) (all : list Raw.t)
  : Fetch (list Raw.t) :=
  match turns with
  | O => Pending
  | S turns' =>
      match respond offset with
      | None => Raised
      | Some json =>
          match batchOf json with
          | None | Some [] => Done all
          | Some batch =>
              let all' := all ++ batch in
              if saysNoMore json || (length batch <? limit)%nat then Done all'
              else fetchFrom turns' (offset + limit) all'
          end
      end
  end.

Definition fetchAllScheduledVaccines (turns : nat) : Fetch (list Raw.t) :=
  fetchFrom turns 0 [].

End Paging.

(** A service that pages the records [db] as asked, and says [has_more:
    false] only on the last of them. *)
Definition pagesOf (db : list Raw.t) (respond : nat -> option Body) : Prop :=
  forall offset,
    exists has_more,
      respond offset
      = Some (BObject (Some (firstn limit (skipn offset db))) has_more) /\
      (has_more = VBool false -> (length db <= offset + limit)%nat).

(** A service holding three records. *)
Definition threeRecordService (offset : nat) : option Body :=
  Some (BObject
          (Some (firstn limit
                   (skipn offset [dueNowRaw; dueLaterRaw; undatedRaw])))
          (VBool (Nat.ltb (offset + limit) 3))).

(** ** The rollup of the full-history variant *)

Module FullHistory.

(** [arr.sort((a, b) => b.getTime() - a.getTime())] on valid dates, given
    by their time values: the sort is stable, and on a comparator that
    orders the elements this is what an insertion sort returns. *)
Fixpoint insertDesc (x : Z) (sorted : list Z) : list Z :=
  match sorted with
  | [] => [x]
  | y :: rest =>
      if (y <? x)%Z then x :: sorted else y :: insertDesc x rest
  end.

Definition sortDesc (times : list Z) : list Z :=
  fold_left (fun sorted x => insertDesc x sorted) times [].

(** [v.completed_at ? unixStringToDate(v.completed_at) : null], kept when it
    is a valid date *)
Definition completedTime (v : Raw.t) : option Z :=
  match (if toBoolean (Raw.completed_at v)
         then unixStringToDate (Raw.completed_at v) else None) with
  | Some (ValidDate ms) => Some ms
  | _ => None
  end.

(** The time values of [completedDates] before the sort. *)
Fixpoint completedTimes (history : list Raw.t) : list Z :=
  match history with
  | [] => []
  | v :: rest =>
      match completedTime v with
      | Some ms => ms :: completedTimes rest
      | None => completedTimes rest
      end
  end.

(** [completedDates[0]], when there is one *)
Definition lastGiven (historyForType : list Raw.t) : option Z :=
  hd_error (sortDesc (completedTimes historyForType)).

(** [(allVaccines || []).filter((v) => classifyVaccineType(v.product) ===
    key)] *)
Definition historyForType (allVaccines : list Raw.t) (type : Family)
  : result (list Raw.t) :=
  filterR (fun v => bindR (classifyVaccineType (Raw.product v))
                      (fun f => Ok (Family_eqb f type))) allVaccines.

Section Rollup.

Variable localDate : Z -> string.

Definition lastGivenPart (historyForType : list Raw.t) : string :=
  match lastGiven historyForType with
  | Some ms =>
      ("Last given " ++ History.formatDate localDate (Some (ValidDate ms))
       ++ ". ")%string
  | None => EmptyString
  end.

(** The callback of [coreTypes.forEach] up to [statusKey] and
    [statusText]. *)
Definition coreTypeStatus (scheduledVaccines : list Vaccine)
  (allVaccines : list Raw.t) (type : Family) (label : string)
  : result (StatusKey * string) :=
  bindR (historyForType allVaccines type) (fun history =>
  bindR (vaccinesForType scheduledVaccines type) (fun scheduled =>
  match reduce sooner scheduled with
  | Some soonest =>
      let (statusKey, duePart) := History.duePartOf localDate soonest in
      Ok (statusKey, (lastGivenPart history ++ duePart)%string)
  | None =>
      match history with
      | _ :: _ =>
          Ok (key current,
              (lastGivenPart history ++ "No upcoming dose scheduled.")%string)
      | [] =>
          Ok (none,
              ("_No " ++ Str.toLowerCase label ++ " vaccine on file_")%string)
      end
  end)).

Variable clock : nat -> Z.

(** What [main] builds for one animal from its whole history: the dog of
    the records that have a truthy scheduled-for. *)
Definition dogOfHistory (animalId name photoUrl : value)
  (allVaccines : list Raw.t) : Clocked Dog.t :=
  let scheduledVaccines :=
    filter (fun v => toBoolean (Raw.scheduled_for v)) allVaccines in
  buckets <- bucketScheduledVaccines clock scheduledVaccines ;;
  ret (Dog.mk animalId name photoUrl (Buckets.overdue buckets)
         (Buckets.needsAttention buckets) (Buckets.upcoming buckets)
         (Buckets.current buckets) (Some (Buckets.unknown buckets))).

End Rollup.

End FullHistory.

(** A history with two completed rabies doses and one scheduled. *)
Definition rabiesHistory : list Raw.t :=
  [Raw.mk (VNum (Num.ofZ 11)) (VStr "dog-1") (VStr "Rabvac 3 Rabies")
     VUndefined VUndefined VUndefined (VStr "1600000000");
   Raw.mk (VNum (Num.ofZ 12)) (VStr "dog-1") (VStr "Rabies booster")
     VUndefined VUndefined VUndefined (VStr "1650000000");
   dueNowRaw].

(** The records of a family in a whole history. *)
Definition rawOfFamily (type : Family) (v : Raw.t) : bool :=
  Family_eqb (familyOf (Raw.product v)) type.

(** The records with a truthy scheduled-for. *)
Definition hasScheduledFor (v : Raw.t) : bool :=
  toBoolean (Raw.scheduled_for v).

(** ** The identifier of an animal for the vaccine service *)

(** [/^\d+$/.test(s)] *)
Definition isDigit (c : ascii) : bool :=
  let n := Z.of_nat (nat_of_ascii c) in ((48 <=? n) && (n <=? 57))%Z.

Fixpoint digitsOnly (s : string) : bool :=
  match s with
  | EmptyString => true
  | String c r => isDigit c && digitsOnly r
  end.

Definition isNumeric (s : string) : bool :=
  negb (String.eqb s "") && digitsOnly s.

(** [/^\d{8,}$/.test(s)] *)
Definition isLongNumeric (s : string) : bool :=
  isNumeric s && (8 <=? String.length s)%nat.

(** [animal[field]] for an object given by its own properties, in the order
    [Object.values] lists them; the values are primitives. *)
Fixpoint getField (animal : list (string * value)) (field : string) : value :=
  match animal with
  | [] => VUndefined
  | (k, v) :: rest => if String.eqb k field then v else getField rest field
  end.

Section VaccineId.

Variable numberToString : number -> string.

(** [String(v).trim()] *)
Definition trimmedText (v : value) : string :=
  Str.trim (toPropertyKey numberToString v).

Definition explicitCandidates (animal : list (string * value)) : list string :=
  map trimmedText
    (filter (fun v => match v with
                      | VUndefined | VNull => false
                      | _ => true
                      end)
       (map (getField animal)
          ["animal_id"; "internal_id"; "InternalID"; "InternalId";
           "AnimalInternalId"; "ID"; "id"]%string)).

Definition allPrimitiveValues (animal : list (string * value)) : list string :=
  map trimmedText
    (filter (fun v => match v with
                      | VStr _ | VNum _ => true
                      | _ => false
                      end)
       (map snd animal)).

Definition candidatesOf (animal : list (string * value)) : list string :=
  explicitCandidates animal ++ allPrimitiveValues animal.

Definition getVaccineInternalIdFromAnimal (animal : list (string * value))
  : option string :=
  let candidates := candidatesOf animal in
  match find isLongNumeric candidates with
  | Some longNumeric => Some longNumeric
  | None =>
      match find isNumeric candidates with
      | Some anyNumeric => Some anyNumeric
      | None => None
      end
  end.

End VaccineId.

(** An animal whose only numeric field is its age. *)
Definition agedAnimal : list (string * value) :=
  [("Name", VStr "Rex"); ("Type", VStr "Dog"); ("Age", VNum (Num.ofZ 24))]%string.

(** The dog without its records of no core family. *)
Definition coreOnly (r : Vaccine) : bool := negb (ofFamily other r).

Definition withoutOther (dog : Dog.t) : Dog.t :=
  Dog.mk (Dog.animalId dog) (Dog.name dog) (Dog.photoUrl dog)
    (filter coreOnly (Dog.overdue dog))
    (filter coreOnly (Dog.needsAttention dog))
    (filter coreOnly (Dog.upcoming dog))
    (filter coreOnly (Dog.current dog))
    (option_map (filter coreOnly) (Dog.unknown dog)).

(** A dog with a rabies record and a record of another family. *)
Definition mixedDog : Dog.t :=
  Dog.mk (VStr "dog-1") (VStr "Rico") VNull []
    [{| vaccineId := VNum (Num.ofZ 21);
        animalId := VStr "dog-1";
        product := VStr "Heartworm preventive";
        manufacturer := VUndefined;
        lot := VUndefined;
        scheduledFor := Some (ValidDate 1700500000000);
        diffDays := Some (Fin (500000000 # 86400000));
        status := needsAttention |}]
    [] [feedARecord] None.

(** The record of the one-message variant made from the same feed record: the
    record of [scripts/checkVaccines.js] without its [status] field. *)
Definition withoutStatus (r : Vaccine) : Legacy.Vaccine :=
  {| Legacy.vaccineId := vaccineId r;
     Legacy.animalId := animalId r;
     Legacy.product := product r;
     Legacy.manufacturer := manufacturer r;
     Legacy.lot := lot r;
     Legacy.scheduledFor := scheduledFor r;
     Legacy.diffDays := diffDays r |}.

(** The four arrays of the one-message variant agree with the dated arrays
    of [scripts/checkVaccines.js]. *)
Definition sameDated (lb : Legacy.Buckets.t) (b : Buckets.t) : Prop :=
  Legacy.Buckets.overdue lb = map withoutStatus (Buckets.overdue b) /\
  Legacy.Buckets.needsAttention lb
  = map withoutStatus (Buckets.needsAttention b) /\
  Legacy.Buckets.upcoming lb = map withoutStatus (Buckets.upcoming b) /\
  Legacy.Buckets.current lb = map withoutStatus (Buckets.current b).

(* ------------------------------------------------------------------ *)
(** * Properties *)

(** ** Comparisons of numbers *)

Lemma Qltb_lt (x y : Q) : Num.Qltb x y = true <-> x < y.
Proof.
  unfold Num.Qltb. rewrite negb_true_iff. split; intro H.
  - apply Qnot_le_lt. intro L. apply Qle_bool_iff in L. congruence.
  - destruct (Qle_bool y x) eqn:E; [|reflexivity].
    apply Qle_bool_iff in E. exfalso. exact (Qlt_not_le _ _ H E).
Qed.

Lemma Qle_bool_false (x y : Q) : Qle_bool x y = false <-> y < x.
Proof.
  rewrite <- Qltb_lt. unfold Num.Qltb. now rewrite negb_true_iff.
Qed.

Lemma lt_Fin (x y : Q) : Num.lt (Fin x) (Fin y) = true <-> x < y.
Proof. apply Qltb_lt. Qed.

Lemma le_Fin (x y : Q) : Num.le (Fin x) (Fin y) = true <-> x <= y.
Proof. apply Qle_bool_iff. Qed.

(** A number below, or at most, a finite one is not [NaN]. *)
Lemma lt_true_cases (d : number) (z : Z) :
  Num.lt (Num.ofZ z) d = true ->
  d = Infinity false \/ exists q, d = Fin q /\ inject_Z z < q.
Proof.
  destruct d as [|[|]|q]; simpl; try discriminate; intro H.
  - now left.
  - right. exists q. split; [reflexivity|]. now apply Qltb_lt.
Qed.

Lemma le_true_cases (d : number) (z : Z) :
  Num.le (Num.ofZ z) d = true ->
  d = Infinity false \/ exists q, d = Fin q /\ inject_Z z <= q.
Proof.
  destruct d as [|[|]|q]; simpl; try discriminate; intro H.
  - now left.
  - right. exists q. split; [reflexivity|]. now apply Qle_bool_iff.
Qed.

(** ** The window of a day offset *)

Lemma windowOf_overdue (d : number) :
  Num.lt d (Num.ofZ 0) = true -> windowOf d = overdue.
Proof. unfold windowOf. now intros ->. Qed.

Lemma windowOf_needsAttention (d : number) :
  Num.le (Num.ofZ 0) d = true -> Num.le d (Num.ofZ 14) = true ->
  windowOf d = needsAttention.
Proof.
  intros H0 H14. unfold windowOf, TWO_WEEKS_BEFORE_DUE. rewrite H14.
  destruct (le_true_cases _ _ H0) as [->|(q & -> & Hq)]; [discriminate|].
  replace (Num.lt (Fin q) (Num.ofZ 0)) with false; [reflexivity|].
  symmetry. simpl. unfold Num.Qltb. apply negb_false_iff.
  now apply Qle_bool_iff.
Qed.

Lemma windowOf_upcoming (d : number) :
  Num.lt (Num.ofZ 14) d = true -> Num.le d (Num.ofZ 30) = true ->
  windowOf d = upcoming.
Proof.
  intros H14 H30. unfold windowOf, TWO_WEEKS_BEFORE_DUE, DAYS_BEFORE_DUE, Num.gt.
  rewrite H14, H30.
  destruct (lt_true_cases _ _ H14) as [->|(q & -> & Hq)]; [discriminate|].
  assert (L0 : Num.lt (Fin q) (Num.ofZ 0) = false).
  { simpl. unfold Num.Qltb. apply negb_false_iff. apply Qle_bool_iff.
    apply Qlt_le_weak. eapply Qlt_trans; [|exact Hq]. reflexivity. }
  assert (L14 : Num.le (Fin q) (Num.ofZ 14) = false).
  { simpl. now apply Qle_bool_false. }
  now rewrite L0, L14.
Qed.

Lemma windowOf_current (d : number) :
  Num.lt (Num.ofZ 30) d = true -> windowOf d = current.
Proof.
  intros H30. unfold windowOf, TWO_WEEKS_BEFORE_DUE, DAYS_BEFORE_DUE, Num.gt.
  destruct (lt_true_cases _ _ H30) as [->|(q & -> & Hq)]; [reflexivity|].
  assert (L0 : Num.lt (Fin q) (Num.ofZ 0) = false).
  { simpl. unfold Num.Qltb. apply negb_false_iff. apply Qle_bool_iff.
    apply Qlt_le_weak. eapply Qlt_trans; [|exact Hq]. reflexivity. }
  assert (L14 : Num.le (Fin q) (Num.ofZ 14) = false).
  { simpl. apply Qle_bool_false. eapply Qlt_trans; [|exact Hq]. reflexivity. }
  assert (L30 : Num.le (Fin q) (Num.ofZ 30) = false).
  { simpl. now apply Qle_bool_false. }
  now rewrite L0, L14, L30.
Qed.

(** A day offset that is [NaN] (the date is invalid) falls through every
    comparison. *)
Lemma windowOf_NaN : windowOf NaN = current.
Proof. reflexivity. Qed.

Lemma classifyByDueWindow_parsed clock (str : value) (date : Date) (t : nat) :
  unixStringToDate str = Some date ->
  classifyByDueWindow clock str t
  = (classifyAt (ValidDate (clock t)) date, S t).
Proof. intros H. unfold classifyByDueWindow. now rewrite H. Qed.

Lemma classifyByDueWindow_unparsed clock (str : value) (t : nat) :
  unixStringToDate str = None ->
  classifyByDueWindow clock str t = (Due.mk unknown None None, t).
Proof. intros H. unfold classifyByDueWindow. now rewrite H. Qed.

(** C1. When the timestamp of a record parses, the day offset recorded is
    [d = (scheduled instant - now) / 86400000] for the instant read at the
    call, and the status is a function of [d] alone, by the comparisons in
    this order: [d < 0] overdue; [0 <= d <= 14] needsAttention;
    [14 < d <= 30] upcoming; [d > 30] current.  So [d = 0] and [d = 14] are
    needsAttention and [d = 30] is upcoming. *)
Theorem window_status_by_day_offset clock (str : value) (date : Date) (t : nat) :
  unixStringToDate str = Some date ->
  let r := fst (classifyByDueWindow clock str t) in
  let d := Num.div (Num.sub (getTime date) (Num.ofZ (clock t)))
             (Num.ofZ 86400000) in
  Due.diffDays r = Some d /\
  Due.date r = Some date /\
  Due.status r = windowOf d /\
  (Num.lt d (Num.ofZ 0) = true -> Due.status r = overdue) /\
  (Num.le (Num.ofZ 0) d = true -> Num.le d (Num.ofZ 14) = true ->
   Due.status r = needsAttention) /\
  (Num.lt (Num.ofZ 14) d = true -> Num.le d (Num.ofZ 30) = true ->
   Due.status r = upcoming) /\
  (Num.lt (Num.ofZ 30) d = true -> Due.status r = current) /\
  (Num.strictEq d (Num.ofZ 0) = true -> Due.status r = needsAttention) /\
  (Num.strictEq d (Num.ofZ 14) = true -> Due.status r = needsAttention) /\
  (Num.strictEq d (Num.ofZ 30) = true -> Due.status r = upcoming).
Proof.
  intros H r d. subst r.
  rewrite (classifyByDueWindow_parsed clock str t H). cbn [fst].
  change (classifyAt (ValidDate (clock t)) date)
    with (Due.mk (windowOf d) (Some d) (Some date)).
  cbn [Due.diffDays Due.date Due.status].
  repeat split.
  - apply windowOf_overdue.
  - apply windowOf_needsAttention.
  - apply windowOf_upcoming.
  - apply windowOf_current.
  - destruct d as [|[|]|q]; simpl; try discriminate. intro E.
    apply Qeq_bool_iff in E.
    apply windowOf_needsAttention; apply le_Fin; rewrite E; discriminate.
  - destruct d as [|[|]|q]; simpl; try discriminate. intro E.
    apply Qeq_bool_iff in E.
    apply windowOf_needsAttention; apply le_Fin; rewrite E; discriminate.
  - destruct d as [|[|]|q]; simpl; try discriminate. intro E.
    apply Qeq_bool_iff in E.
    apply windowOf_upcoming; [apply lt_Fin | apply le_Fin]; rewrite E;
      [reflexivity | discriminate].
Qed.

Lemma window_status_by_day_offset_witness :
  unixStringToDate (VStr "1701209600") = Some (ValidDate 1701209600000) /\
  Due.status (fst (classifyByDueWindow steadyClock (VStr "1701209600") 0%nat))
  = needsAttention.
Proof.
  split; [vm_compute; reflexivity|].
  pose proof (@window_status_by_day_offset steadyClock (VStr "1701209600")
                (ValidDate 1701209600000) 0%nat eq_refl) as H.
  destruct H as (_ & _ & _ & _ & _ & _ & _ & _ & H14 & _).
  apply H14. vm_compute. reflexivity.
Defined.

(** ** Timestamps that do not parse *)

Lemma unixStringToDate_falsy (str : value) :
  toBoolean str = false -> unixStringToDate str = None.
Proof. intros H. unfold unixStringToDate. now rewrite H. Qed.

Lemma unixStringToDate_not_finite (str : value) :
  Num.isFinite (toNumber str) = false -> unixStringToDate str = None.
Proof.
  intros H. unfold unixStringToDate. rewrite H.
  now destruct (negb (toBoolean str)).
Qed.

(** C4. A scheduled-for value that is missing ([undefined] or [null]), empty,
    or whose conversion to a number is not finite is classified as
    [{ status: 'unknown', diffDays: null, date: null }]; the classifier
    returns this value (no clock reading is made, nothing is raised). *)
Theorem unparseable_is_unknown clock (str : value) (t : nat) :
  str = VUndefined \/ str = VNull \/ str = VStr "" \/
  Num.isFinite (toNumber str) = false ->
  classifyByDueWindow clock str t = (Due.mk unknown None None, t).
Proof.
  intros H. apply classifyByDueWindow_unparsed.
  destruct H as [->|[->|[->|H]]]; try reflexivity.
  now apply unixStringToDate_not_finite.
Qed.

Lemma unparseable_is_unknown_witness :
  Num.isFinite (toNumber (VStr "next week")) = false /\
  classifyByDueWindow steadyClock (VStr "next week") 3%nat
  = (Due.mk unknown None None, 3%nat).
Proof.
  split; [vm_compute; reflexivity|].
  apply unparseable_is_unknown.
  right; right; right. vm_compute. reflexivity.
Defined.

(** C10. The decoder tells inputs apart by truthiness and finiteness only.
    Every falsy input (the absent field, the empty string and the number 0
    among them) decodes to [null] and classifies as unknown; the string "0"
    is truthy, decodes to the epoch, and classifies as overdue whenever the
    clock reads an instant after the epoch. *)
Theorem decoder_truthiness_not_validity clock (t : nat) :
  (forall str, toBoolean str = false ->
     unixStringToDate str = None /\
     classifyByDueWindow clock str t = (Due.mk unknown None None, t)) /\
  toBoolean VUndefined = false /\
  toBoolean (VStr "") = false /\
  toBoolean (VNum (Num.ofZ 0)) = false /\
  unixStringToDate (VStr "0") = Some (ValidDate 0) /\
  ((0 < clock t)%Z ->
   Due.status (fst (classifyByDueWindow clock (VStr "0") t)) = overdue).
Proof.
  split; [|repeat split].
  - intros str H. split; [now apply unixStringToDate_falsy|].
    apply classifyByDueWindow_unparsed. now apply unixStringToDate_falsy.
  - intros Hnow.
    rewrite (@classifyByDueWindow_parsed clock (VStr "0") (ValidDate 0) t eq_refl).
    cbn [fst classifyAt Due.status]. apply windowOf_overdue.
    cbn [getTime Num.sub Num.ofZ]. unfold msPerDay, Num.div, Num.ofZ.
    change (Num.isZero (inject_Z (1000 * 60 * 60 * 24))) with false.
    cbn iota. apply lt_Fin.
    unfold Qlt, Qdiv, Qminus. cbn. lia.
Qed.

Lemma decoder_truthiness_not_validity_witness :
  (0 < steadyClock 0)%Z /\
  Due.status (fst (classifyByDueWindow steadyClock (VStr "0") 0%nat)) = overdue.
Proof.
  split; [reflexivity|].
  apply (decoder_truthiness_not_validity steadyClock 0%nat). reflexivity.
Defined.

(** ** The family classifier *)

Lemma prefix_spec (a s : string) :
  String.prefix a s = true <-> exists after : string, s = (a ++ after)%string.
Proof.
  revert s. induction a as [|c a IH]; intro s.
  - split; [intros _; now exists s|intros _; now destruct s].
  - destruct s as [|d s]; cbn;
      [split; [discriminate|intros [x H]; discriminate]|].
    destruct (Ascii.ascii_dec c d) as [->|N].
    + rewrite IH. split; intros [x H]; exists x; [now rewrite H|].
      now injection H.
    + split; [discriminate|]. intros [x H]. injection H as H _. congruence.
Qed.

(** [s.includes(word)] is the substring test. *)
Lemma includes_spec (s word : string) :
  Str.includes s word = true
  <-> exists before after : string, s = (before ++ word ++ after)%string.
Proof.
  induction s as [|c s IH]; cbn [Str.includes]; rewrite orb_true_iff, prefix_spec.
  - split.
    + intros [[x H]|H]; [|discriminate]. now exists EmptyString, x.
    + intros (b & a & H). left. destruct b; [now exists a|discriminate].
  - rewrite IH. split.
    + intros [[x H]|(b & a & H)].
      * now exists EmptyString, x.
      * exists (String c b), a. cbn. now rewrite H.
    + intros (b & a & H). destruct b as [|d b].
      * left. now exists a.
      * right. injection H as _ H. now exists b, a.
Qed.

Lemma toLowerCase_length (s : string) :
  String.length (Str.toLowerCase s) = String.length s.
Proof. induction s as [|c s IH]; cbn; [reflexivity|now rewrite IH]. Qed.

(** [toLowerCase] replaces each of A to Z by its small letter and keeps every
    other character. *)
Lemma toLowerCase_get (s : string) :
  forall (i : nat) (c : ascii),
    String.get i s = Some c ->
    String.get i (Str.toLowerCase s)
    = Some (if Nat.leb 65 (nat_of_ascii c) && Nat.leb (nat_of_ascii c) 90
            then ascii_of_nat (nat_of_ascii c + 32) else c).
Proof.
  induction s as [|d s IH]; intros i c H; [discriminate|].
  destruct i as [|i]; cbn in H |- *; [|now apply IH].
  injection H as ->. f_equal. unfold Str.lowerChar.
  assert (E : forall a b : nat, (Z.of_nat a <=? Z.of_nat b)%Z = Nat.leb a b).
  { intros a b. destruct (Nat.leb_spec a b), (Z.leb_spec (Z.of_nat a) (Z.of_nat b));
      try reflexivity; lia. }
  change 65%Z with (Z.of_nat 65). change 90%Z with (Z.of_nat 90).
  now rewrite !E.
Qed.

(** C5. On a nullable string the family classifier returns (it raises
    nothing) exactly one family.  It tests the name, with each of A to Z
    replaced by its small letter, for the key words of the families as
    substrings, in the order rabies ("rabies", "rabvac"), dhpp_dapp ("dhpp",
    "dapp", "da2pp", "da2ppv", "dappv", "vanguard dapp",
    "nobivac canine 1-dappv"), bordetella ("bordetella", "trucan b"), the
    first family with a match winning; it returns other when no key word
    occurs, and for a null or empty name. *)
Theorem family_classifier_total (product : value) :
  product = VUndefined \/ product = VNull \/ (exists s, product = VStr s) ->
  let name := match product with VStr s => s | _ => EmptyString end in
  let p := Str.toLowerCase name in
  let has := fun word : string =>
    exists before after : string, p = (before ++ word ++ after)%string in
  let rabiesWord := has "rabies"%string \/ has "rabvac"%string in
  let dhppWord :=
    has "dhpp"%string \/ has "dapp"%string \/ has "da2pp"%string \/
    has "da2ppv"%string \/ has "dappv"%string \/
    has "vanguard dapp"%string \/ has "nobivac canine 1-dappv"%string in
  let bordetellaWord := has "bordetella"%string \/ has "trucan b"%string in
  (String.length p = String.length name /\
   forall (i : nat) (c : ascii),
     String.get i name = Some c ->
     String.get i p
     = Some (if Nat.leb 65 (nat_of_ascii c) && Nat.leb (nat_of_ascii c) 90
             then ascii_of_nat (nat_of_ascii c + 32) else c)) /\
  exists f : Family,
    classifyVaccineType product = Ok f /\
    (rabiesWord -> f = rabies) /\
    (~ rabiesWord -> dhppWord -> f = dhpp_dapp) /\
    (~ rabiesWord -> ~ dhppWord -> bordetellaWord -> f = bordetella) /\
    (~ rabiesWord -> ~ dhppWord -> ~ bordetellaWord -> f = other) /\
    (product = VUndefined \/ product = VNull \/ product = VStr "" ->
     f = other).
Proof.
  intros H name p has rabiesWord dhppWord bordetellaWord.
  split; [split; [apply toLowerCase_length|apply toLowerCase_get]|].
  assert (E : classifyVaccineType product
              = if isRabies p then Ok rabies
                else if isDhppDapp p then Ok dhpp_dapp
                else if isBordetella p then Ok bordetella
                else Ok other).
  { subst p name. destruct H as [->|[->|[s ->]]]; try reflexivity.
    unfold classifyVaccineType. cbn [toBoolean].
    destruct (String.eqb_spec s ""); [subst; reflexivity|reflexivity]. }
  assert (N : product = VUndefined \/ product = VNull \/ product = VStr "" ->
              p = EmptyString).
  { subst p name. now intros [->|[->| ->]]. }
  assert (R : isRabies p = true <-> rabiesWord).
  { unfold isRabies, rabiesWord, has. now rewrite !orb_true_iff, !includes_spec. }
  assert (D : isDhppDapp p = true <-> dhppWord).
  { unfold isDhppDapp, dhppWord, has.
    rewrite !orb_true_iff, !includes_spec. tauto. }
  assert (B : isBordetella p = true <-> bordetellaWord).
  { unfold isBordetella, bordetellaWord, has.
    now rewrite !orb_true_iff, !includes_spec. }
  rewrite E.
  destruct (isRabies p) eqn:Rp; [|destruct (isDhppDapp p) eqn:Dp;
    [|destruct (isBordetella p) eqn:Bp]];
    eexists; (split; [reflexivity|]);
    repeat split; intros;
    try reflexivity;
    try (exfalso; intuition congruence);
    match goal with
    | K : product = VUndefined \/ _ |- _ =>
        rewrite (N K) in *; discriminate
    end.
Qed.

Lemma family_classifier_total_witness :
  classifyVaccineType (VStr "Rabies/DHPP combo (Bordetella booster)") = Ok rabies.
Proof.
  destruct (@family_classifier_total
              (VStr "Rabies/DHPP combo (Bordetella booster)")
              (or_intror (or_intror (ex_intro _ _ eq_refl))))
    as (_ & f & E & R & _).
  rewrite E. f_equal. apply R. left.
  exists EmptyString, "/dhpp combo (bordetella booster)"%string. reflexivity.
Defined.

Example classifyVaccineType_samples :
  map classifyVaccineType
    [VStr "Rabvac 3 Rabies"; VStr "Vanguard DAPPv"; VStr "Bordetella/TruCan B";
     VStr "Heartworm preventive"; VStr ""; VNull; VUndefined]
  = [Ok rabies; Ok dhpp_dapp; Ok bordetella; Ok other; Ok other; Ok other;
     Ok other].
Proof. vm_compute. reflexivity. Qed.

(** A product that is a truthy non-string has no [toLowerCase]. *)
Example classifyVaccineType_number :
  classifyVaccineType (VNum (Num.ofZ 5)) = Throw TypeError.
Proof. reflexivity. Qed.

(** ** Bucketing *)

Lemma Status_eqb_eq (a b : Status) : Status_eqb a b = true <-> a = b.
Proof. destruct a, b; simpl; split; congruence. Qed.

Lemma Status_eqb_refl (a : Status) : Status_eqb a a = true.
Proof. now destruct a. Qed.

Lemma bucketOf_step clock (b : Buckets.t) (v : Raw.t) (t : nat) (s : Status) :
  let c := fst (classifyByDueWindow clock (Raw.scheduled_for v) t) in
  bucketOf s (fst (bucketStep clock b v t))
  = bucketOf s b ++ filter (hasStatus s) [normalize v c] /\
  snd (bucketStep clock b v t)
  = snd (classifyByDueWindow clock (Raw.scheduled_for v) t).
Proof.
  unfold bucketStep, bind, ret, hasStatus.
  destruct (classifyByDueWindow clock (Raw.scheduled_for v) t) as [c t'].
  cbn [fst snd filter normalize status].
  destruct (Due.status c), s; cbn; auto using app_nil_r.
Qed.

Lemma bind_run {A B} (m : Clocked A) (k : A -> Clocked B) (t : nat) :
  bind m k t = k (fst (m t)) (snd (m t)).
Proof. unfold bind. now destruct (m t). Qed.

Lemma forOf_bucketStep clock (vaccines : list Raw.t) :
  forall (b : Buckets.t) (t : nat) (s : Status),
    bucketOf s (fst (forOf (bucketStep clock) vaccines b t))
    = bucketOf s b
      ++ filter (hasStatus s) (fst (normalizeAll clock vaccines t)) /\
    snd (forOf (bucketStep clock) vaccines b t)
    = snd (normalizeAll clock vaccines t).
Proof.
  induction vaccines as [|v rest IH]; intros b t s.
  - cbn. now rewrite app_nil_r.
  - cbn [forOf normalizeAll]. rewrite !bind_run.
    destruct (bucketOf_step clock b v t s) as [Hb Ht].
    destruct (IH (fst (bucketStep clock b v t))
                 (snd (bucketStep clock b v t)) s) as [IHb IHt].
    rewrite IHb, IHt, Hb, Ht. cbn [ret fst snd]. split; [|reflexivity].
    rewrite <- app_assoc, <- filter_app. reflexivity.
Qed.

Lemma normalizeAll_ids clock (vaccines : list Raw.t) :
  forall t, map vaccineId (fst (normalizeAll clock vaccines t))
            = map Raw.id vaccines.
Proof.
  induction vaccines as [|v rest IH]; intro t; [reflexivity|].
  cbn [normalizeAll]. rewrite !bind_run. cbn [ret fst map normalize vaccineId].
  now rewrite IH.
Qed.

Lemma partition_by_status (l : list Vaccine) :
  Permutation
    (filter (hasStatus overdue) l ++ filter (hasStatus needsAttention) l
     ++ filter (hasStatus upcoming) l ++ filter (hasStatus current) l
     ++ filter (hasStatus unknown) l) l.
Proof.
  induction l as [|r l IH]; [constructor|].
  unfold hasStatus in *. cbn [filter].
  destruct (status r); cbn [Status_eqb app].
  - now constructor.
  - symmetry. apply Permutation_cons_app. now symmetry.
  - symmetry. rewrite app_assoc. apply Permutation_cons_app.
    rewrite <- app_assoc. now symmetry.
  - symmetry. rewrite 2 app_assoc. apply Permutation_cons_app.
    rewrite <- 2 app_assoc. now symmetry.
  - symmetry. rewrite 3 app_assoc. apply Permutation_cons_app.
    rewrite <- 3 app_assoc. now symmetry.
Qed.

(** In [scripts/checkVaccines.js] bucketing partitions the feed: the array
    of each status holds, in feed order, exactly the normalized records of
    that status, so the five arrays together are the whole feed and a record
    without a date is kept, in [unknown]. *)
Lemma bucketScheduledVaccines_partition clock (vaccines : list Raw.t) (t : nat) :
  let b := fst (bucketScheduledVaccines clock vaccines t) in
  let bases := fst (normalizeAll clock vaccines t) in
  (forall s, bucketOf s b = filter (hasStatus s) bases) /\
  Permutation (Buckets.all b) bases /\
  map vaccineId bases = map Raw.id vaccines.
Proof.
  intros b bases.
  assert (A : forall s, bucketOf s b = filter (hasStatus s) bases).
  { intro s. subst b bases. unfold bucketScheduledVaccines.
    destruct (forOf_bucketStep clock vaccines Buckets.empty t s) as [H _].
    rewrite H. now destruct s. }
  split; [exact A|]. split; [|apply normalizeAll_ids].
  unfold Buckets.all.
  change (Buckets.overdue b) with (bucketOf overdue b).
  change (Buckets.needsAttention b) with (bucketOf needsAttention b).
  change (Buckets.upcoming b) with (bucketOf upcoming b).
  change (Buckets.current b) with (bucketOf current b).
  change (Buckets.unknown b) with (bucketOf unknown b).
  rewrite !A. apply partition_by_status.
Qed.

(** C9. [bucketScheduledVaccines] of the one-message variant has four
    arrays and no branch for the status unknown: a record without a
    scheduled-for is in none of them, where [scripts/checkVaccines.js] keeps
    it in [unknown]. *)
Theorem legacy_bucketing_drops_undated :
  Legacy.Buckets.all
    (fst (Legacy.bucketScheduledVaccines steadyClock [undatedRaw] 0%nat)) = [] /\
  map vaccineId
    (Buckets.unknown (fst (bucketScheduledVaccines steadyClock [undatedRaw] 0%nat)))
  = [Raw.id undatedRaw].
Proof. split; reflexivity. Qed.

(** ** One clock reading per classification *)

Lemma Permutation_filter {A} (f : A -> bool) (l l' : list A) :
  Permutation l l' -> Permutation (filter f l) (filter f l').
Proof.
  induction 1 as [|x l l' _ IH|x y l|l l' l'' _ IH1 _ IH2]; cbn.
  - constructor.
  - destruct (f x); [now constructor|assumption].
  - destruct (f x), (f y); try reflexivity. constructor.
  - now transitivity (filter f l').
Qed.

Lemma classifyByDueWindow_steady clock (now : Z) (str : value) (t : nat) :
  (forall n, clock n = now) ->
  fst (classifyByDueWindow clock str t) = classifyWith now str.
Proof.
  intros H. unfold classifyByDueWindow, classifyWith.
  destruct (unixStringToDate str); [|reflexivity].
  cbn. now rewrite H.
Qed.

Lemma normalizeAll_steady clock (now : Z) (vaccines : list Raw.t) :
  (forall n, clock n = now) ->
  forall t, fst (normalizeAll clock vaccines t)
            = map (normalizeWith now) vaccines.
Proof.
  intros H. induction vaccines as [|v rest IH]; intro t; [reflexivity|].
  cbn [normalizeAll]. rewrite !bind_run. cbn [ret fst map].
  rewrite IH. unfold normalizeWith.
  now rewrite (classifyByDueWindow_steady clock (Raw.scheduled_for v) t H).
Qed.

(** C7, as the code has it.  A record is classified against the instant
    read at its own call.  When the clock reads one and the same instant at
    every call, each record gets the status and day offset of that instant,
    and classifying the records of a feed in any order fills every bucket
    with the same records. *)
Theorem pass_deterministic_on_steady_clock clock (now : Z)
  (vaccines vaccines' : list Raw.t) (t t' : nat) :
  (forall n, clock n = now) ->
  Permutation vaccines vaccines' ->
  fst (normalizeAll clock vaccines t) = map (normalizeWith now) vaccines /\
  forall s,
    Permutation (bucketOf s (fst (bucketScheduledVaccines clock vaccines t)))
                (bucketOf s (fst (bucketScheduledVaccines clock vaccines' t'))).
Proof.
  intros H P. split; [now apply normalizeAll_steady|]. intro s.
  destruct (bucketScheduledVaccines_partition clock vaccines t) as (A & _).
  destruct (bucketScheduledVaccines_partition clock vaccines' t') as (A' & _).
  rewrite A, A', !(normalizeAll_steady clock _ H).
  apply Permutation_filter. now apply Permutation_map.
Qed.

Lemma pass_deterministic_on_steady_clock_witness :
  (forall n, steadyClock n = 1700000000000%Z) /\
  Permutation [dueNowRaw; dueLaterRaw] [dueLaterRaw; dueNowRaw] /\
  Permutation
    (bucketOf needsAttention
       (fst (bucketScheduledVaccines steadyClock [dueNowRaw; dueLaterRaw] 0%nat)))
    (bucketOf needsAttention
       (fst (bucketScheduledVaccines steadyClock [dueLaterRaw; dueNowRaw] 5%nat))).
Proof.
  split; [reflexivity|]. split; [apply perm_swap|].
  apply (@pass_deterministic_on_steady_clock steadyClock 1700000000000%Z
           [dueNowRaw; dueLaterRaw] [dueLaterRaw; dueNowRaw] 0%nat 5%nat).
  - reflexivity.
  - apply perm_swap.
Defined.

(** C7, as stated, fails: the instant is read anew at each call.  On a clock
    that advances between two calls of one pass, the record due at the first
    reading is needsAttention when classified first and overdue when
    classified second, with another day offset. *)
Lemma pass_depends_on_order :
  ~ (forall (clock : nat -> Z) (vaccines vaccines' : list Raw.t) (t : nat),
       Permutation vaccines vaccines' ->
       forall s,
         Permutation
           (bucketOf s (fst (bucketScheduledVaccines clock vaccines t)))
           (bucketOf s (fst (bucketScheduledVaccines clock vaccines' t)))).
Proof.
  intro H.
  specialize (H tickingClock [dueNowRaw; dueLaterRaw] [dueLaterRaw; dueNowRaw]
                0%nat (perm_swap _ _ _) overdue).
  apply Permutation_length in H. vm_compute in H. discriminate.
Qed.

Example pass_on_ticking_clock :
  map (fun r => (vaccineId r, status r))
    (fst (normalizeAll tickingClock [dueNowRaw; dueLaterRaw] 0%nat))
  = [(VNum (Num.ofZ 1), needsAttention); (VNum (Num.ofZ 2), current)] /\
  map (fun r => (vaccineId r, status r))
    (fst (normalizeAll tickingClock [dueLaterRaw; dueNowRaw] 0%nat))
  = [(VNum (Num.ofZ 2), current); (VNum (Num.ofZ 1), overdue)].
Proof. split; vm_compute; reflexivity. Qed.

(** ** Reconciliation of the two feeds *)

Lemma num_sameValueZero_refl (n : number) : Num.sameValueZero n n = true.
Proof.
  destruct n as [|b|q]; cbn; [reflexivity|now destruct b|].
  apply Qeq_bool_iff. reflexivity.
Qed.

Lemma num_sameValueZero_sym (a b : number) :
  Num.sameValueZero a b = Num.sameValueZero b a.
Proof.
  destruct a as [|x|x], b as [|y|y]; cbn; try reflexivity.
  - now destruct x, y.
  - destruct (Qeq_bool x y) eqn:E, (Qeq_bool y x) eqn:E'; try reflexivity.
    + apply Qeq_bool_iff in E. symmetry in E. apply Qeq_bool_iff in E.
      congruence.
    + apply Qeq_bool_iff in E'. symmetry in E'. apply Qeq_bool_iff in E'.
      congruence.
Qed.

Lemma num_sameValueZero_trans (a b c : number) :
  Num.sameValueZero a b = true -> Num.sameValueZero b c = true ->
  Num.sameValueZero a c = true.
Proof.
  destruct a as [|x|x], b as [|y|y], c as [|z|z]; cbn; try congruence.
  - destruct x, y, z; cbn; congruence.
  - rewrite !Qeq_bool_iff. intros -> ->. reflexivity.
Qed.

Lemma sameValueZero_refl (x : value) : sameValueZero x x = true.
Proof.
  destruct x as [| |b|n|s]; cbn; try reflexivity.
  - now destruct b.
  - apply num_sameValueZero_refl.
  - apply String.eqb_refl.
Qed.

Lemma sameValueZero_sym (x y : value) : sameValueZero x y = sameValueZero y x.
Proof.
  destruct x as [| |a|a|a], y as [| |b|b|b]; cbn; try reflexivity.
  - now destruct a, b.
  - apply num_sameValueZero_sym.
  - apply String.eqb_sym.
Qed.

Lemma sameValueZero_trans (x y z : value) :
  sameValueZero x y = true -> sameValueZero y z = true ->
  sameValueZero x z = true.
Proof.
  destruct x as [| |a|a|a], y as [| |b|b|b], z as [| |c|c|c]; cbn;
    try congruence.
  - destruct a, b, c; cbn; congruence.
  - apply num_sameValueZero_trans.
  - rewrite !String.eqb_eq. congruence.
Qed.

Lemma setHas_app (ids ids' : list value) (x : value) :
  setHas (ids ++ ids') x = setHas ids x || setHas ids' x.
Proof. apply existsb_app. Qed.

Lemma setHas_push (ids : list value) (y x : value) :
  setHas (push ids y) x = setHas ids x || sameValueZero x y.
Proof. unfold push. rewrite setHas_app. cbn. now rewrite orb_false_r. Qed.

Lemma setHas_In (ids : list value) (x : value) :
  In x ids -> setHas ids x = true.
Proof.
  intros H. apply existsb_exists. exists x. split; [assumption|].
  apply sameValueZero_refl.
Qed.

(** Membership respects the equality of the set. *)
Lemma setHas_same (ids : list value) (x y : value) :
  sameValueZero x y = true -> setHas ids x = true -> setHas ids y = true.
Proof.
  intros E H. apply existsb_exists in H as (k & Hk & Exk).
  apply existsb_exists. exists k. split; [assumption|].
  apply sameValueZero_trans with x; [|assumption].
  now rewrite sameValueZero_sym.
Qed.

Lemma Dog_all_buckets (d : Dog.t) :
  Dog.all d
  = dogBucket overdue d ++ dogBucket needsAttention d ++ dogBucket upcoming d
    ++ dogBucket current d ++ dogBucket unknown d.
Proof. reflexivity. Qed.

Lemma dogBucket_push (s : Status) (d : Dog.t) (n : Vaccine) :
  dogBucket s (pushToDog d n) = dogBucket s d ++ filter (hasStatus s) [n].
Proof.
  unfold pushToDog, hasStatus, push. cbn [filter].
  destruct (status n), s; cbn; auto using app_nil_r.
Qed.

Lemma In_Dog_all (d : Dog.t) (r : Vaccine) :
  In r (Dog.all d) <-> exists s, In r (dogBucket s d).
Proof.
  rewrite Dog_all_buckets. rewrite !in_app_iff. split.
  - intros [H|[H|[H|[H|H]]]]; eauto.
  - intros [[] H]; tauto.
Qed.

Lemma knownIdsOf_push (d : Dog.t) (n : Vaccine) (x : value) :
  setHas (knownIdsOf (pushToDog d n)) x
  = setHas (knownIdsOf d) x || sameValueZero x (vaccineId n).
Proof.
  unfold knownIdsOf. rewrite !Dog_all_buckets, !dogBucket_push.
  unfold hasStatus. cbn [filter].
  destruct (status n); cbn [Status_eqb];
    rewrite ?app_nil_r, ?map_app; cbn [map];
    rewrite ?setHas_app; cbn [setHas existsb];
    destruct (sameValueZero x (vaccineId n));
    rewrite ?orb_false_r, ?orb_true_r; cbn; rewrite ?orb_true_r; reflexivity.
Qed.

Lemma forOf_app {A S} (body : S -> A -> Clocked S) (xs ys : list A) :
  forall (s : S) (t : nat),
    forOf body (xs ++ ys) s t
    = forOf body ys (fst (forOf body xs s t)) (snd (forOf body xs s t)).
Proof.
  induction xs as [|x xs IH]; intros s t; [reflexivity|].
  cbn [forOf app]. rewrite !bind_run. apply IH.
Qed.

Lemma enrichStep_known clock (st : Dog.t * list value) (v : Raw.t) (t : nat) :
  setHas (snd st) (Raw.id v) = true -> enrichStep clock st v t = (st, t).
Proof.
  destruct st as [dog known]. cbn [snd]. intros H.
  unfold enrichStep. now rewrite H.
Qed.

Lemma enrichStep_new clock (st : Dog.t * list value) (v : Raw.t) (t : nat) :
  setHas (snd st) (Raw.id v) = false ->
  let c := classifyByDueWindow clock (Raw.scheduled_for v) t in
  enrichStep clock st v t
  = ((pushToDog (fst st) (normalize v (fst c)), push (snd st) (Raw.id v)),
     snd c).
Proof.
  destruct st as [dog known]. cbn [snd fst]. intros H.
  unfold enrichStep. rewrite H, bind_run. reflexivity.
Qed.

Lemma Reached_init (dog : Dog.t) : Reached dog (dog, knownIdsOf dog).
Proof.
  constructor; cbn [fst snd]; auto.
  intro s. exists []. rewrite app_nil_r. split; [reflexivity|]. intros _ [].
Qed.

Lemma Reached_step clock (dog0 : Dog.t) (st : Dog.t * list value)
  (v : Raw.t) (t : nat) :
  Reached dog0 st -> Reached dog0 (fst (enrichStep clock st v t)).
Proof.
  intros [Hids Hkept Ha].
  destruct (setHas (snd st) (Raw.id v)) eqn:E.
  - rewrite enrichStep_known by assumption. now constructor.
  - rewrite enrichStep_new by assumption. cbn [fst snd].
    set (n := normalize v (fst (classifyByDueWindow clock (Raw.scheduled_for v) t))).
    constructor; cbn [fst snd].
    + intro x. rewrite setHas_push, knownIdsOf_push, Hids. reflexivity.
    + intros x Hx. rewrite setHas_push, (Hkept x Hx). reflexivity.
    + intro s. destruct (Ha s) as (extra & Hb & Hextra).
      exists (extra ++ filter (hasStatus s) [n]). split.
      * rewrite dogBucket_push, Hb. now rewrite app_assoc.
      * intros r Hr. apply in_app_or in Hr as [Hr|Hr]; [now apply Hextra|].
        apply filter_In in Hr as [[<-|[]] _].
        destruct (setHas (knownIdsOf dog0) (vaccineId n)) eqn:K;
          [|reflexivity].
        apply Hkept in K. cbn in K. congruence.
Qed.

Lemma Reached_forOf clock (dog0 : Dog.t) (feed : list Raw.t) :
  forall (st : Dog.t * list value) (t : nat),
    Reached dog0 st ->
    Reached dog0 (fst (forOf (enrichStep clock) feed st t)).
Proof.
  induction feed as [|v rest IH]; intros st t H; [exact H|].
  cbn [forOf]. rewrite bind_run. apply IH. now apply Reached_step.
Qed.

(** An identifier of [knownIds] stays in it to the end of the loop. *)
Lemma known_forOf clock (feed : list Raw.t) (x : value) :
  forall (st : Dog.t * list value) (t : nat),
    setHas (snd st) x = true ->
    setHas (snd (fst (forOf (enrichStep clock) feed st t))) x = true.
Proof.
  induction feed as [|v rest IH]; intros st t H; [exact H|].
  cbn [forOf]. rewrite bind_run. apply IH.
  destruct (setHas (snd st) (Raw.id v)) eqn:E.
  - now rewrite enrichStep_known.
  - rewrite enrichStep_new by assumption. cbn [fst snd].
    now rewrite setHas_push, H.
Qed.

(** At the end of the loop the identifier of every record of the feed is in
    [knownIds]. *)
Lemma feed_known_after clock (feed : list Raw.t) :
  forall (st : Dog.t * list value) (t : nat) (v : Raw.t),
    In v feed ->
    setHas (snd (fst (forOf (enrichStep clock) feed st t))) (Raw.id v) = true.
Proof.
  induction feed as [|w rest IH]; intros st t v Hin; [destruct Hin|].
  destruct Hin as [<-|H].
  - cbn [forOf]. rewrite bind_run. apply known_forOf.
    destruct (setHas (snd st) (Raw.id w)) eqn:E.
    + now rewrite enrichStep_known.
    + rewrite enrichStep_new by assumption. cbn [fst snd].
      now rewrite setHas_push, sameValueZero_refl, orb_true_r.
  - cbn [forOf]. rewrite bind_run. now apply IH.
Qed.

(** A feed whose identifiers are all known leaves the dog as it is and reads
    no clock. *)
Lemma forOf_all_known clock (feed : list Raw.t) (st : Dog.t * list value)
  (t : nat) :
  (forall v, In v feed -> setHas (snd st) (Raw.id v) = true) ->
  forOf (enrichStep clock) feed st t = (st, t).
Proof.
  induction feed as [|v rest IH]; intros H; [reflexivity|].
  cbn [forOf]. rewrite bind_run, enrichStep_known by (apply H; now left).
  cbn [fst snd]. apply IH. intros w Hw. apply H. now right.
Qed.

Lemma count_push (x : value) (d : Dog.t) (n : Vaccine) :
  length (filter (withId x) (Dog.all (pushToDog d n)))
  = (length (filter (withId x) (Dog.all d))
     + (if withId x n then 1 else 0))%nat.
Proof.
  rewrite !Dog_all_buckets, !dogBucket_push. unfold hasStatus.
  cbn [filter]. destruct (status n); cbn [Status_eqb];
    rewrite ?app_nil_r, !filter_app, !length_app; cbn [filter];
    destruct (withId x n); cbn [length]; lia.
Qed.

(** How many records of the dog carry an identifier at the end of the loop:
    one more than at the start when the identifier is new and the feed has
    it, as many otherwise. *)
Lemma count_forOf clock (x : value) (feed : list Raw.t) :
  forall (st : Dog.t * list value) (t : nat),
    length (filter (withId x)
              (Dog.all (fst (fst (forOf (enrichStep clock) feed st t)))))
    = (length (filter (withId x) (Dog.all (fst st)))
       + (if setHas (snd st) x then 0
          else if setHas (map Raw.id feed) x then 1 else 0))%nat.
Proof.
  induction feed as [|v rest IH]; intros st t.
  - cbn. destruct (setHas (snd st) x); lia.
  - cbn [forOf]. rewrite bind_run, IH. cbn [map setHas existsb].
    fold (setHas (map Raw.id rest) x).
    destruct (setHas (snd st) (Raw.id v)) eqn:E.
    + rewrite enrichStep_known by assumption. cbn [fst snd].
      destruct (setHas (snd st) x) eqn:Kx; [reflexivity|].
      destruct (sameValueZero x (Raw.id v)) eqn:S; [|reflexivity].
      rewrite sameValueZero_sym in S.
      rewrite (@setHas_same _ _ _ S E) in Kx. discriminate.
    + rewrite enrichStep_new by assumption. cbn [fst snd].
      rewrite count_push, setHas_push. unfold withId at 2.
      cbn [normalize vaccineId].
      destruct (setHas (snd st) x) eqn:Kx.
      * destruct (sameValueZero x (Raw.id v)) eqn:S; cbn; [|lia].
        rewrite sameValueZero_sym in S.
        assert (setHas (snd st) (Raw.id v) = true) as F
          by (apply (@setHas_same (snd st) x (Raw.id v));
              [now rewrite sameValueZero_sym|assumption]).
        congruence.
      * destruct (sameValueZero x (Raw.id v)); cbn; [lia|].
        destruct (setHas (map Raw.id rest) x); lia.
Qed.

(** C6. Reconciliation is idempotent: enriching the dog a second time from
    the same feed, with the set of known identifiers rebuilt from the dog,
    returns the dog of the first pass unchanged and classifies nothing.  A
    pass adds one record for an identifier that is new and on the feed, and
    none for any other, however often the feed repeats it. *)
Theorem reconciliation_idempotent clock (dog : Dog.t) (feed : list Raw.t)
  (t : nat) :
  let once := enrichDog clock dog feed t in
  enrichDog clock (fst once) feed (snd once) = once /\
  forall x,
    length (filter (withId x) (Dog.all (fst once)))
    = (length (filter (withId x) (Dog.all dog))
       + (if setHas (knownIdsOf dog) x then 0
          else if setHas (map Raw.id feed) x then 1 else 0))%nat.
Proof.
  unfold enrichDog. rewrite !bind_run. cbn [ret fst snd]. split.
  - set (run := forOf (enrichStep clock) feed (dog, knownIdsOf dog) t).
    assert (R : Reached dog (fst run))
      by (apply Reached_forOf, Reached_init).
    rewrite forOf_all_known; [reflexivity|].
    intros v Hv. cbn [snd]. rewrite <- (known_ids R).
    now apply feed_known_after.
  - intro x. now rewrite count_forOf.
Qed.

Lemma filter_none {A} (f : A -> bool) (l : list A) :
  (forall x, In x l -> f x = false) -> filter f l = [].
Proof.
  induction l as [|x l IH]; intros H; [reflexivity|].
  cbn. rewrite (H x) by now left. apply IH. intros y Hy. apply H. now right.
Qed.

(** C2. A record of the dog's own feed whose identifier the dog already
    holds from the org-wide feed is discarded whatever its fields: the
    enrichment gives what it gives without that record, and the records of
    the enriched dog that carry the identifier are, array by array, those
    the dog had, with the fields and the status they had. *)
Theorem feed_a_record_retained clock (dog : Dog.t) (before after : list Raw.t)
  (v : Raw.t) (t : nat) :
  setHas (knownIdsOf dog) (Raw.id v) = true ->
  enrichDog clock dog (before ++ v :: after) t
  = enrichDog clock dog (before ++ after) t /\
  forall s,
    filter (withId (Raw.id v))
      (dogBucket s (fst (enrichDog clock dog (before ++ v :: after) t)))
    = filter (withId (Raw.id v)) (dogBucket s dog).
Proof.
  intros K. split.
  - unfold enrichDog. rewrite !bind_run, !forOf_app. cbn [forOf].
    rewrite bind_run, enrichStep_known; [reflexivity|].
    now apply known_forOf.
  - intro s. unfold enrichDog. rewrite bind_run. cbn [ret fst].
    pose proof (@Reached_forOf clock dog (before ++ v :: after) _ t
                  (Reached_init dog)) as R.
    destruct (feed_a_kept R s) as (extra & -> & Hextra).
    rewrite filter_app, (@filter_none _ _ extra); [apply app_nil_r|].
    intros r Hr. unfold withId.
    destruct (sameValueZero (Raw.id v) (vaccineId r)) eqn:E; [|reflexivity].
    pose proof (Hextra r Hr) as N.
    rewrite (@setHas_same _ _ _ E K) in N. discriminate.
Qed.

Lemma feed_a_record_retained_witness :
  setHas (knownIdsOf oneRecordDog) (Raw.id feedBDuplicate) = true /\
  filter (withId (Raw.id feedBDuplicate))
    (dogBucket current
       (fst (enrichDog tickingClock oneRecordDog
               ([dueNowRaw] ++ feedBDuplicate :: [dueLaterRaw]) 0%nat)))
  = [feedARecord].
Proof.
  split; [vm_compute; reflexivity|].
  rewrite (proj2 (@feed_a_record_retained tickingClock oneRecordDog
                    [dueNowRaw] [dueLaterRaw] feedBDuplicate 0%nat eq_refl)
             current).
  vm_compute. reflexivity.
Defined.

Example enrich_discards_duplicate :
  map (fun r => (vaccineId r, product r, status r))
    (Dog.all (fst (enrichDog tickingClock oneRecordDog
                     [dueNowRaw; feedBDuplicate] 0%nat)))
  = [(VNum (Num.ofZ 1), VStr "Rabvac 3 Rabies", needsAttention);
     (VNum (Num.ofZ 9), VStr "Rabvac 3 Rabies", current)].
Proof. vm_compute. reflexivity. Qed.

(** ** The record picked as next due *)

Lemma lt_timeOrInfinity (a b : Vaccine) :
  resolved a -> resolved b ->
  (Num.lt (timeOrInfinity a) (timeOrInfinity b) = true
   <-> earlier (instantOf a) (instantOf b)).
Proof.
  unfold resolved, timeOrInfinity, instantOf.
  destruct (scheduledFor a) as [[|x]|], (scheduledFor b) as [[|y]|];
    intros Ha Hb; try congruence; cbn; try tauto;
    try (split; [discriminate|contradiction]).
  rewrite Qltb_lt, <- Zlt_Qlt. tauto.
Qed.

Lemma earlier_trans (a b c : option Z) :
  earlier a b -> earlier b c -> earlier a c.
Proof. destruct a, b, c; cbn; try tauto. lia. Qed.

Lemma earlier_not_later (a b c : option Z) :
  earlier a b -> ~ earlier c b -> earlier a c.
Proof. destruct a, b, c; cbn; try tauto. lia. Qed.

(** The reduction keeps, of the records met so far, the first of those with
    the least instant. *)
Lemma fold_sooner_first_least (xs : list Vaccine) :
  forall (l1 : list Vaccine) (acc : Vaccine) (l2 : list Vaccine),
    (forall r, In r (l1 ++ acc :: l2 ++ xs) -> resolved r) ->
    (forall r, In r l1 -> earlier (instantOf acc) (instantOf r)) ->
    (forall r, In r l2 -> ~ earlier (instantOf r) (instantOf acc)) ->
    exists l1' l2',
      l1 ++ acc :: l2 ++ xs = l1' ++ fold_left sooner xs acc :: l2' /\
      (forall r, In r l1' ->
         earlier (instantOf (fold_left sooner xs acc)) (instantOf r)) /\
      (forall r, In r l2' ->
         ~ earlier (instantOf r) (instantOf (fold_left sooner xs acc))).
Proof.
  induction xs as [|b xs IH]; intros l1 acc l2 Hres H1 H2.
  - exists l1, l2. rewrite app_nil_r. auto.
  - assert (Ra : resolved acc) by (apply Hres; rewrite in_app_iff; cbn; auto).
    assert (Rb : resolved b).
    { apply Hres. rewrite in_app_iff. right. right.
      rewrite in_app_iff. right. now left. }
    cbn [fold_left]. unfold sooner at 2 4 6.
    destruct (Num.lt (timeOrInfinity b) (timeOrInfinity acc)) eqn:E.
    + apply (lt_timeOrInfinity Rb Ra) in E.
      destruct (IH (l1 ++ acc :: l2) b []) as (l1' & l2' & Heq & G1 & G2).
      * intros r Hr. apply Hres. cbn [app] in Hr.
        rewrite <- app_assoc in Hr. exact Hr.
      * intros r Hr. apply in_app_or in Hr as [Hr|[<-|Hr]].
        -- eapply earlier_trans; eauto.
        -- assumption.
        -- eapply earlier_not_later; eauto.
      * intros r [].
      * exists l1', l2'. split; [|auto].
        rewrite <- Heq. cbn [app]. now rewrite <- app_assoc.
    + assert (N : ~ earlier (instantOf b) (instantOf acc)).
      { intro F. apply (lt_timeOrInfinity Rb Ra) in F. congruence. }
      destruct (IH l1 acc (l2 ++ [b])) as (l1' & l2' & Heq & G1 & G2).
      * intros r Hr. apply Hres.
        rewrite <- app_assoc in Hr. exact Hr.
      * exact H1.
      * intros r Hr. apply in_app_or in Hr as [Hr|[<-|[]]]; auto.
      * exists l1', l2'. split; [|auto].
        rewrite <- Heq. now rewrite <- app_assoc.
Qed.

(** On records with no date or a valid date the reduction does what the
    rollup is meant to do: of a non-empty array it returns the record with
    the least instant, a record with no date counting as +infinity, and of
    several records with that instant the first. *)
Lemma soonest_first_least (x : Vaccine) (xs : list Vaccine) :
  (forall r, In r (x :: xs) -> resolved r) ->
  exists (s : Vaccine) (l1 l2 : list Vaccine),
    reduce sooner (x :: xs) = Some s /\
    x :: xs = l1 ++ s :: l2 /\
    (forall r, In r l1 -> earlier (instantOf s) (instantOf r)) /\
    (forall r, In r l2 -> ~ earlier (instantOf r) (instantOf s)).
Proof.
  intros Hres.
  destruct (@fold_sooner_first_least xs [] x []) as (l1 & l2 & Heq & G1 & G2).
  - exact Hres.
  - intros r [].
  - intros r [].
  - exists (fold_left sooner xs x), l1, l2. cbn [reduce]. auto.
Qed.

(** C3. The reduction compares time values with [<], and the time value of
    an invalid date is [NaN]: a record whose scheduled-for is a number out
    of the range of a [Date] is classified current and, met first among the
    records of its family, is kept as next due over a dated record; the text
    of its date then raises a [RangeError], where the full-history variant
    words it "in NaN days". *)
Theorem soonest_keeps_leading_invalid_date :
  let dog :=
    dogOf (fst (bucketScheduledVaccines steadyClock
                  [microsecondsRaw; fortyDaysRaw] 0%nat)) in
  map (fun r => (vaccineId r, scheduledFor r, status r)) (Dog.all dog)
  = [(VNum (Num.ofZ 1), Some InvalidDate, current);
     (VNum (Num.ofZ 2), Some (ValidDate 1703456000000), current)] /\
  vaccinesForType (Dog.all dog) rabies = Ok (Dog.all dog) /\
  option_map vaccineId (reduce sooner (Dog.all dog))
  = Some (VNum (Num.ofZ 1)) /\
  coreTypeStatus (Dog.all dog) rabies "Rabies" = Throw RangeError /\
  (forall localDate,
     option_map (History.duePartOf localDate) (reduce sooner (Dog.all dog))
     = Some (key current, "Next dose: in NaN days – unknown date"%string)).
Proof. repeat split. Qed.

(** ** Day counts of the rollup *)

Lemma append_assoc (a b c : string) :
  ((a ++ b) ++ c = a ++ (b ++ c))%string.
Proof. induction a as [|x a IH]; cbn; [reflexivity|now rewrite IH]. Qed.

Lemma truncate_Z (z : Z) : Num.truncate (inject_Z z) = z.
Proof.
  unfold Num.truncate.
  destruct (Qle_bool 0 (inject_Z z)); [apply Qfloor_Z|apply Qceiling_Z].
Qed.

(** The decimal of a positive number starts with a digit that is not 0. *)
Lemma to_uint_head (p : positive) :
  exists (c : ascii) (rest : string),
    NilZero.string_of_uint (Pos.to_uint p) = String c rest /\ c <> "0"%char.
Proof.
  pose proof (DecimalPos.Unsigned.to_uint_nonnil p) as Hnil.
  pose proof (DecimalPos.Unsigned.to_uint_nonzero p) as Hzero.
  assert (Hnorm : Decimal.unorm (Pos.to_uint p) = Pos.to_uint p).
  { rewrite <- (DecimalPos.Unsigned.to_of (Pos.to_uint p)).
    now rewrite DecimalPos.Unsigned.of_to. }
  destruct (Pos.to_uint p) as [|d|d|d|d|d|d|d|d|d|d] eqn:E;
    [now contradiction Hnil| |..];
    try (cbn; eexists; eexists; split; [reflexivity|discriminate]).
  exfalso. unfold Decimal.unorm in Hnorm.
  destruct (Decimal.nzhead (Decimal.D0 d)) eqn:N; try discriminate Hnorm.
  - apply Hzero. symmetry. exact Hnorm.
  - now apply DecimalFacts.nzhead_nonzero in N.
Qed.








(* ------------------------------------------------------------------ *)
(** * Further properties of the code *)

(** ** The decoder and the classifier *)

Lemma windowOf_not_unknown (d : number) : windowOf d <> unknown.
Proof.
  unfold windowOf.
  destruct (Num.lt d (Num.ofZ 0)); [discriminate|].
  destruct (Num.le d TWO_WEEKS_BEFORE_DUE); [discriminate|].
  destruct (Num.le d DAYS_BEFORE_DUE && Num.gt d TWO_WEEKS_BEFORE_DUE);
    discriminate.
Qed.

Lemma unixStringToDate_None (str : value) :
  unixStringToDate str = None
  <-> toBoolean str = false \/ Num.isFinite (toNumber str) = false.
Proof.
  unfold unixStringToDate.
  destruct (toBoolean str), (Num.isFinite (toNumber str)); cbn;
    split; try tauto; try discriminate; intros [H|H]; discriminate.
Qed.

(** X1. The status is unknown exactly when the decoder gives no date, that
    is when the scheduled-for is falsy or its conversion is not finite;
    the day offset and the date are null in exactly that case, and the clock
    is read exactly when a date was decoded. *)
Theorem unknown_iff_not_decoded clock (str : value) (t : nat) :
  let r := classifyByDueWindow clock str t in
  (Due.status (fst r) = unknown
   <-> toBoolean str = false \/ Num.isFinite (toNumber str) = false) /\
  (Due.status (fst r) = unknown <-> Due.diffDays (fst r) = None) /\
  (Due.status (fst r) = unknown <-> Due.date (fst r) = None) /\
  (Due.status (fst r) = unknown <-> snd r = t) /\
  (Due.status (fst r) <> unknown <-> snd r = S t).
Proof.
  cbv zeta. rewrite <- unixStringToDate_None.
  unfold classifyByDueWindow.
  destruct (unixStringToDate str) as [date|]; cbn.
  - pose proof (windowOf_not_unknown
                  (Num.div (Num.sub (getTime date) (Num.ofZ (clock t)))
                     msPerDay)) as N.
    repeat split; intros; try congruence; try discriminate; try lia.
  - repeat split; intros; try congruence; try lia.
Qed.

(** X2. A scheduled-for whose number is finite but, in milliseconds, beyond
    the range of a [Date] (8.64e15 on either side of the epoch) is decoded
    to an invalid date: the record is classified current, with a day offset
    that is [NaN]. *)
Theorem out_of_range_is_current clock (str : value) (q : Q) (t : nat) :
  toBoolean str = true ->
  toNumber str = Fin q ->
  maxTime < Qabs (q * 1000) ->
  classifyByDueWindow clock str t
  = (Due.mk current (Some NaN) (Some InvalidDate), S t).
Proof.
  intros Hb Hn Hq.
  assert (D : unixStringToDate str = Some InvalidDate).
  { unfold unixStringToDate. rewrite Hb, Hn. cbn [negb Num.isFinite].
    f_equal. cbn [Num.mul Num.ofZ]. unfold Num.ofQ.
    change (inject_Z 1000) with 1000.
    destruct (Qle_bool Num.overflow_bound (Qabs (q * 1000))); [reflexivity|].
    cbn [newDate]. apply Qltb_lt in Hq. now rewrite Hq. }
  now rewrite (classifyByDueWindow_parsed clock str t D).
Qed.

Lemma out_of_range_is_current_witness :
  classifyByDueWindow steadyClock (VStr "1700000000000000") 0%nat
  = (Due.mk current (Some NaN) (Some InvalidDate), 1%nat).
Proof.
  apply (@out_of_range_is_current steadyClock (VStr "1700000000000000")
           (inject_Z 1700000000000000) 0%nat).
  - reflexivity.
  - vm_compute. reflexivity.
  - reflexivity.
Defined.

Lemma windowOf_antitone (q1 q2 : Q) :
  q2 <= q1 ->
  (urgency (windowOf (Fin q1)) <= urgency (windowOf (Fin q2)))%nat.
Proof.
  intros H. unfold windowOf, TWO_WEEKS_BEFORE_DUE, DAYS_BEFORE_DUE, Num.gt.
  cbn [Num.lt Num.le Num.ofZ]. unfold Num.Qltb.
  change (inject_Z 0) with 0. change (inject_Z 14) with 14.
  change (inject_Z 30) with 30.
  destruct (Qle_bool 0 q1) eqn:A1; destruct (Qle_bool q1 14) eqn:B1;
    destruct (Qle_bool q1 30) eqn:C1;
    destruct (Qle_bool 0 q2) eqn:A2; destruct (Qle_bool q2 14) eqn:B2;
    destruct (Qle_bool q2 30) eqn:C2; cbn; try lia; exfalso;
    repeat match goal with
      | K : Qle_bool _ _ = true |- _ => apply Qle_bool_iff in K
      | K : Qle_bool _ _ = false |- _ => apply Qle_bool_false in K
      end; Lqa.lra.
Qed.

Lemma dayOffset_Fin (ms now : Z) :
  Num.div (Num.sub (getTime (ValidDate ms)) (getTime (ValidDate now))) msPerDay
  = Fin ((inject_Z ms - inject_Z now) / inject_Z 86400000).
Proof. reflexivity. Qed.

(** X3. A dated record never becomes less pressing as time passes: for a
    scheduled-for that decodes to a valid date, a classification made at a
    later clock reading gives a status at least as pressing (current, then
    upcoming, then needsAttention, then overdue) as one made earlier. *)
Theorem status_never_relaxes clock clock' (str : value) (ms : Z) (t t' : nat) :
  unixStringToDate str = Some (ValidDate ms) ->
  (clock t <= clock' t')%Z ->
  (urgency (Due.status (fst (classifyByDueWindow clock str t)))
   <= urgency (Due.status (fst (classifyByDueWindow clock' str t'))))%nat.
Proof.
  intros D H.
  rewrite !(classifyByDueWindow_parsed _ str _ D). cbn [fst].
  unfold classifyAt. cbn [Due.status].
  rewrite (dayOffset_Fin ms (clock t)), (dayOffset_Fin ms (clock' t')).
  apply windowOf_antitone.
  apply Qmult_le_compat_r; [|discriminate].
  rewrite Zle_Qle in H. Lqa.lra.
Qed.

Lemma status_never_relaxes_witness :
  (urgency (Due.status
              (fst (classifyByDueWindow tickingClock (VStr "1700000000") 0%nat)))
   <= urgency (Due.status
                 (fst (classifyByDueWindow tickingClock (VStr "1700000000") 1%nat))))%nat.
Proof.
  apply (@status_never_relaxes tickingClock tickingClock (VStr "1700000000")
           1700000000000%Z 0%nat 1%nat).
  - vm_compute. reflexivity.
  - vm_compute. discriminate.
Defined.

(** ** Numbers written in decimal *)

Lemma reverse_app (s acc : string) :
  Str.reverse s acc = (Str.reverse s EmptyString ++ acc)%string.
Proof.
  revert acc. induction s as [|c s IH]; intro acc; [reflexivity|].
  cbn [Str.reverse]. rewrite (IH (String c acc)), (IH (String c EmptyString)).
  now rewrite append_assoc.
Qed.

Lemma reverse_reverse (s acc : string) :
  Str.reverse (Str.reverse s acc) EmptyString
  = (Str.reverse acc EmptyString ++ s)%string.
Proof.
  revert acc. induction s as [|c s IH]; intro acc.
  - cbn. clear. induction (Str.reverse acc "") as [|c r IH]; cbn; congruence.
  - cbn [Str.reverse]. rewrite IH. cbn [Str.reverse].
    rewrite (reverse_app acc (String c EmptyString)).
    now rewrite append_assoc.
Qed.

Lemma noWhiteSpace_reverse (s acc : string) :
  noWhiteSpace s = true -> noWhiteSpace acc = true ->
  noWhiteSpace (Str.reverse s acc) = true.
Proof.
  revert acc. induction s as [|c s IH]; intros acc Hs Ha; [exact Ha|].
  cbn in Hs. apply andb_prop in Hs as [Hc Hs]. cbn [Str.reverse].
  apply IH; [exact Hs|]. cbn. now rewrite Hc.
Qed.

Lemma trimStart_noWhiteSpace (s : string) :
  noWhiteSpace s = true -> Str.trimStart s = s.
Proof.
  destruct s as [|c s]; [reflexivity|]. cbn.
  intros H. apply andb_prop in H as [Hc _].
  apply negb_true_iff in Hc. now rewrite Hc.
Qed.

Lemma trim_noWhiteSpace (s : string) :
  noWhiteSpace s = true -> Str.trim s = s.
Proof.
  intros H. unfold Str.trim.
  rewrite (trimStart_noWhiteSpace s H).
  rewrite trimStart_noWhiteSpace by now apply noWhiteSpace_reverse.
  now rewrite reverse_reverse.
Qed.

Lemma noWhiteSpace_uint (d : Decimal.uint) :
  noWhiteSpace (NilEmpty.string_of_uint d) = true.
Proof. induction d; cbn; auto. Qed.

(** Reading the digits of a decimal after a positive accumulator. *)
Lemma readDigits_uint (d : Decimal.uint) :
  forall (p : positive) (n : nat),
  exists m,
    Str.readDigits 10 (NilEmpty.string_of_uint d) (Zpos p) (S n)
    = (Zpos (Pos.of_uint_acc d p), S m, EmptyString).
Proof.
  induction d as [|d IHd|d IHd|d IHd|d IHd|d IHd|d IHd|d IHd|d IHd|d IHd|d IHd];
    intros p n;
    try (cbn [NilEmpty.string_of_uint Str.readDigits Pos.of_uint_acc];
         match goal with
         | |- context [Str.digitOf ?c] =>
             let v := eval vm_compute in (Str.digitOf c) in
             change (Str.digitOf c) with v
         end;
         cbn [Z.ltb Z.compare Pos.compare Pos.compare_cont];
         match goal with
         | |- context [Str.readDigits 10 _ ?a _] =>
             match a with
             | (Zpos p * 10 + _)%Z =>
                 match goal with
                 | |- context [Pos.of_uint_acc _ ?p'] =>
                     replace a with (Zpos p') by lia
                 end
             end
         end; apply IHd).
  cbn. now exists n.
Qed.

(** The decimal of a positive number is read back as the number. *)
Lemma readDigits_positive (p : positive) :
  exists (c : ascii) (rest : string) (m : nat),
    NilEmpty.string_of_uint (Pos.to_uint p) = String c rest /\
    Str.isWhiteSpace c = false /\
    c <> "+"%char /\ c <> "-"%char /\ c <> "0"%char /\ c <> "I"%char /\
    c <> "."%char /\
    Str.readDigits 10 (String c rest) 0 0%nat = (Zpos p, S m, EmptyString).
Proof.
  pose proof (DecimalPos.Unsigned.of_to p) as E.
  pose proof (DecimalPos.Unsigned.to_uint_nonnil p) as Hnil.
  pose proof (DecimalPos.Unsigned.to_uint_nonzero p) as Hzero.
  assert (Hnorm : Decimal.unorm (Pos.to_uint p) = Pos.to_uint p).
  { rewrite <- (DecimalPos.Unsigned.to_of (Pos.to_uint p)).
    now rewrite DecimalPos.Unsigned.of_to. }
  destruct (Pos.to_uint p) as [|d|d|d|d|d|d|d|d|d|d];
    [now contradiction Hnil| |..].
  { exfalso. unfold Decimal.unorm in Hnorm.
    destruct (Decimal.nzhead (Decimal.D0 d)) eqn:N; try discriminate Hnorm.
    - apply Hzero. symmetry. exact Hnorm.
    - now apply DecimalFacts.nzhead_nonzero in N. }
  all: cbn [Pos.of_uint] in E; injection E as E;
    cbn [NilEmpty.string_of_uint];
    match goal with
    | |- context [String ?c (NilEmpty.string_of_uint ?l)] =>
        destruct (readDigits_uint l
                    (Z.to_pos (match Str.digitOf c with Some k => k | None => 1 end))
                    0%nat) as [m Hm];
        exists c, (NilEmpty.string_of_uint l), m
    end;
    repeat split; try discriminate;
    cbn [Str.readDigits];
    match goal with
    | |- context [Str.digitOf ?c] =>
        let v := eval vm_compute in (Str.digitOf c) in
        change (Str.digitOf c) with v in *
    end;
    cbn in Hm |- *; rewrite Hm, E; reflexivity.
Qed.

Lemma string_of_uint_nonnil (d : Decimal.uint) :
  d <> Decimal.Nil ->
  NilZero.string_of_uint d = NilEmpty.string_of_uint d.
Proof. destruct d; [contradiction|reflexivity..]. Qed.

Lemma readDecimal_positive (negative : bool) (p : positive) :
  Str.readDecimal negative (NilEmpty.string_of_uint (Pos.to_uint p))
  = Num.ofQ (inject_Z (if negative then Zneg p else Zpos p)).
Proof.
  destruct (readDigits_positive p)
    as (c & rest & m & Es & _ & _ & _ & _ & HI & Hdot & Hread).
  rewrite Es. unfold Str.readDecimal. cbn [String.eqb].
  apply Ascii.eqb_neq in HI. rewrite HI.
  unfold Str.readUnsignedDecimal. rewrite Hread. cbn.
  destruct negative; cbn; unfold Str.scale10; cbn;
    now rewrite Pos.mul_1_r.
Qed.

(** The head of a numeric string that is no sign and no zero sends
    StringToNumber to the decimal reader. *)
Lemma stringToNumber_plain (c : ascii) (rest : string) :
  Str.isWhiteSpace c = false ->
  c <> "+"%char -> c <> "-"%char -> c <> "0"%char ->
  noWhiteSpace rest = true ->
  Str.stringToNumber (String c rest) = Str.readDecimal false (String c rest).
Proof.
  intros Hw Hp Hm Hz Hr. unfold Str.stringToNumber.
  rewrite trim_noWhiteSpace by (cbn; now rewrite Hw, Hr).
  destruct c as [[] [] [] [] [] [] [] []]; try reflexivity;
    solve [now contradiction Hp | now contradiction Hm | now contradiction Hz].
Qed.

Lemma ofQ_in_range (z : Z) :
  (Z.abs z < 2 ^ 1024 - 2 ^ 970)%Z -> Num.ofQ (inject_Z z) = Num.ofZ z.
Proof.
  intros H. unfold Num.ofQ, Num.ofZ.
  replace (Qle_bool Num.overflow_bound (Qabs (inject_Z z))) with false;
    [reflexivity|].
  symmetry. apply Qle_bool_false.
  change (Qabs (inject_Z z)) with (inject_Z (Z.abs z)).
  unfold Num.overflow_bound. now rewrite <- Zlt_Qlt.
Qed.

Lemma toString_ofZ (z : Z) :
  Num.toString (Num.ofZ z) = NilZero.string_of_int (Z.to_int z).
Proof. unfold Num.toString, Num.ofZ. now rewrite truncate_Z. Qed.

(** The decimal text of a whole number that binary64 holds exactly (up to
    2^53 in magnitude) is read back by StringToNumber as that number. *)
Lemma stringToNumber_decimal (z : Z) :
  (Z.abs z <= 2 ^ 53)%Z ->
  Str.stringToNumber (NilZero.string_of_int (Z.to_int z)) = Num.ofZ z.
Proof.
  intros H53.
  assert (H : (Z.abs z < 2 ^ 1024 - 2 ^ 970)%Z).
  { eapply Z.le_lt_trans; [exact H53|]. reflexivity. }
  destruct z as [|p|p].
  - vm_compute. reflexivity.
  - cbn [Z.to_int NilZero.string_of_int].
    rewrite string_of_uint_nonnil
      by apply DecimalPos.Unsigned.to_uint_nonnil.
    pose proof (readDecimal_positive false p) as R.
    pose proof (noWhiteSpace_uint (Pos.to_uint p)) as W.
    destruct (readDigits_positive p)
      as (c & rest & m & Es & Hw & Hp & Hm & Hz & _).
    rewrite Es in *. cbn in W. rewrite Hw in W. cbn in W.
    rewrite stringToNumber_plain, R by assumption.
    now apply ofQ_in_range.
  - cbn [Z.to_int NilZero.string_of_int].
    rewrite string_of_uint_nonnil
      by apply DecimalPos.Unsigned.to_uint_nonnil.
    pose proof (noWhiteSpace_uint (Pos.to_uint p)) as W.
    unfold Str.stringToNumber.
    rewrite trim_noWhiteSpace by exact W.
    cbn.
    rewrite (readDecimal_positive true p).
    now apply ofQ_in_range.
Qed.

Lemma toString_nonempty (z : Z) : Num.toString (Num.ofZ z) <> EmptyString.
Proof.
  unfold Num.toString, Num.ofZ. rewrite truncate_Z.
  destruct z as [|p|p]; [discriminate| |discriminate].
  cbn [Z.to_int NilZero.string_of_int].
  destruct (to_uint_head p) as (c & rest & E & _). now rewrite E.
Qed.

(** X5. The decoder is exact on whole seconds: the decimal text of a whole
    number of seconds whose instant is in the range of a [Date] decodes to
    the valid date of that many seconds, in milliseconds. *)
Theorem unixStringToDate_whole_seconds (z : Z) :
  (Z.abs (z * 1000) <= 8640000000000000)%Z ->
  unixStringToDate (VStr (Num.toString (Num.ofZ z)))
  = Some (ValidDate (z * 1000)).
Proof.
  intros H.
  assert (B : (8640000000000000 < 2 ^ 1024 - 2 ^ 970)%Z) by reflexivity.
  unfold unixStringToDate. cbn [toBoolean toNumber].
  destruct (String.eqb_spec (Num.toString (Num.ofZ z)) "") as [E|_];
    [now apply toString_nonempty in E|].
  rewrite toString_ofZ, stringToNumber_decimal by lia.
  cbn [negb Num.isFinite Num.ofZ Num.mul].
  change (inject_Z z * inject_Z 1000) with (inject_Z (z * 1000)).
  rewrite ofQ_in_range by lia. unfold Num.ofZ. cbn [newDate].
  replace (Num.Qltb maxTime (Qabs (inject_Z (z * 1000)))) with false.
  - now rewrite truncate_Z.
  - symmetry. unfold Num.Qltb. apply negb_false_iff, Qle_bool_iff.
    change (Qabs (inject_Z (z * 1000))) with (inject_Z (Z.abs (z * 1000))).
    unfold maxTime. now rewrite <- Zle_Qle.
Qed.

Lemma unixStringToDate_whole_seconds_witness :
  unixStringToDate (VStr (Num.toString (Num.ofZ 1700000000)))
  = Some (ValidDate (1700000000 * 1000)).
Proof.
  apply (unixStringToDate_whole_seconds 1700000000). discriminate.
Defined.

(** ** Bucketing, further *)

Lemma decodes_status clock (v : Raw.t) (t : nat) :
  hasStatus unknown
    (normalize v (fst (classifyByDueWindow clock (Raw.scheduled_for v) t)))
  = negb (decodes v) /\
  snd (classifyByDueWindow clock (Raw.scheduled_for v) t)
  = (t + (if decodes v then 1 else 0))%nat.
Proof.
  unfold decodes, hasStatus, classifyByDueWindow.
  destruct (unixStringToDate (Raw.scheduled_for v)) as [date|]; cbn.
  - split; [|lia].
    pose proof (windowOf_not_unknown
                  (Num.div (Num.sub (getTime date) (Num.ofZ (clock t)))
                     msPerDay)) as N.
    destruct (windowOf _); try reflexivity. congruence.
  - split; [reflexivity|lia].
Qed.

Lemma normalizeAll_unknown clock (vaccines : list Raw.t) :
  forall t,
    map vaccineId
      (filter (hasStatus unknown) (fst (normalizeAll clock vaccines t)))
    = map Raw.id (filter (fun v => negb (decodes v)) vaccines) /\
    snd (normalizeAll clock vaccines t)
    = (t + length (filter decodes vaccines))%nat.
Proof.
  induction vaccines as [|v rest IH]; intro t; [cbn; split; [reflexivity|lia]|].
  cbn [normalizeAll]. rewrite !bind_run. cbn [ret fst snd filter].
  destruct (decodes_status clock v t) as [Hs Ht].
  destruct (IH (snd (classifyByDueWindow clock (Raw.scheduled_for v) t)))
    as [IHs IHt].
  rewrite Hs, IHt. destruct (decodes v); cbn [negb map length];
    rewrite IHs, Ht; (split; [reflexivity|lia]).
Qed.

(** X6. Bucketing in [scripts/checkVaccines.js] keeps every record of the
    feed: the five arrays together hold as many records as the feed, with
    its identifiers; each array holds records of its own status only; the
    array [unknown] holds, in feed order, exactly the records whose
    scheduled-for does not decode; and the clock is read once for each
    record that decodes. *)
Theorem bucketing_keeps_every_record clock (vaccines : list Raw.t) (t : nat) :
  let b := fst (bucketScheduledVaccines clock vaccines t) in
  Permutation (map vaccineId (Buckets.all b)) (map Raw.id vaccines) /\
  length (Buckets.all b) = length vaccines /\
  (forall s r, In r (bucketOf s b) -> status r = s) /\
  map vaccineId (Buckets.unknown b)
  = map Raw.id (filter (fun v => negb (decodes v)) vaccines) /\
  snd (bucketScheduledVaccines clock vaccines t)
  = (t + length (filter decodes vaccines))%nat.
Proof.
  intros b.
  destruct (bucketScheduledVaccines_partition clock vaccines t)
    as (A & P & I).
  fold b in A, P.
  assert (PI : Permutation (map vaccineId (Buckets.all b))
                 (map Raw.id vaccines)).
  { rewrite <- I. now apply Permutation_map. }
  split; [exact PI|]. split.
  { apply Permutation_length in PI. now rewrite !length_map in PI. }
  split.
  { intros s r Hr. rewrite A in Hr. apply filter_In in Hr as [_ Hr].
    now apply Status_eqb_eq. }
  split.
  { change (Buckets.unknown b) with (bucketOf unknown b). rewrite A.
    apply normalizeAll_unknown. }
  unfold bucketScheduledVaccines.
  destruct (forOf_bucketStep clock vaccines Buckets.empty t unknown) as [_ Ht].
  rewrite Ht. apply normalizeAll_unknown.
Qed.

(** ** The family classifier, further *)

Lemma toLowerCase_empty (s : string) :
  Str.toLowerCase s = EmptyString <-> s = EmptyString.
Proof. destruct s; cbn; split; congruence. Qed.

Lemma classify_unclassifiable (product : value) :
  classifiable product = false ->
  classifyVaccineType product = Throw TypeError.
Proof.
  unfold classifyVaccineType, classifiable.
  destruct product as [| |[]|[|b|q]|s]; cbn; try congruence.
  - destruct (Num.isZero q); cbn; congruence.
  - destruct (String.eqb s ""); cbn; congruence.
Qed.

Lemma classify_classifiable (product : value) :
  classifiable product = true ->
  classifyVaccineType product = Ok (familyOf product).
Proof.
  unfold familyOf, classifyVaccineType, classifiable.
  destruct product as [| |[]|[|b|q]|s]; cbn; try congruence;
    try reflexivity.
  - destruct (Num.isZero q); cbn; [reflexivity|discriminate].
  - intros _. destruct (String.eqb s "");
      repeat match goal with
        | |- context [if ?b then _ else _] => destruct b
        end; reflexivity.
Qed.

(** X7. The family classifier raises exactly on a truthy product that is
    not a string (a number other than 0 and [NaN], or [true]), and what it
    raises is a [TypeError]; a falsy product, of any type, is read as the
    empty name and gives other; a string gives a family, which does not
    depend on the case of its ASCII letters. *)
Theorem classifyVaccineType_raises_iff (product : value) :
  ((exists e, classifyVaccineType product = Throw e)
   <-> toBoolean product = true /\ forall s, product <> VStr s) /\
  (forall e, classifyVaccineType product = Throw e -> e = TypeError) /\
  (toBoolean product = false -> classifyVaccineType product = Ok other) /\
  (forall s, product = VStr s ->
     exists f, classifyVaccineType product = Ok f) /\
  (forall s s',
     product = VStr s -> Str.toLowerCase s = Str.toLowerCase s' ->
     classifyVaccineType (VStr s') = classifyVaccineType product).
Proof.
  split; [|split; [|split; [|split]]].
  - split.
    + intros [e H]. destruct (classifiable product) eqn:C.
      * rewrite (classify_classifiable product C) in H. discriminate.
      * unfold classifiable in C. apply orb_false_iff in C as [C1 C2].
        apply negb_false_iff in C1. split; [exact C1|].
        intros s ->. discriminate.
    + intros [T N]. exists TypeError. apply classify_unclassifiable.
      unfold classifiable. rewrite T. cbn [negb orb].
      destruct product as [| |b|n|s]; try reflexivity.
      now contradiction (N s).
  - intros e H. destruct (classifiable product) eqn:C.
    + rewrite (classify_classifiable product C) in H. discriminate.
    + rewrite (classify_unclassifiable product C) in H. congruence.
  - intros F. unfold classifyVaccineType. rewrite F. reflexivity.
  - intros s ->. exists (familyOf (VStr s)).
    apply classify_classifiable. unfold classifiable. apply orb_true_r.
  - intros s s' -> E. unfold classifyVaccineType. cbn [toBoolean].
    destruct (String.eqb_spec s ""), (String.eqb_spec s' ""); subst; cbn [negb].
    + reflexivity.
    + symmetry in E. apply (proj1 (toLowerCase_empty s')) in E.
      contradiction.
    + apply (proj1 (toLowerCase_empty s)) in E. contradiction.
    + now rewrite E.
Qed.

Lemma classifyVaccineType_raises_iff_witness :
  classifyVaccineType (VStr "RABVAC 3") = classifyVaccineType (VStr "Rabvac 3").
Proof.
  apply (proj2 (proj2 (proj2 (proj2
           (classifyVaccineType_raises_iff (VStr "Rabvac 3")))))
           "Rabvac 3"%string "RABVAC 3"%string eq_refl).
  reflexivity.
Defined.

(** ** The per-family status, further *)

Lemma vaccinesForType_Ok (allVaccines : list Vaccine) (type : Family) :
  (forall r, In r allVaccines -> classifiable (product r) = true) ->
  vaccinesForType allVaccines type = Ok (filter (ofFamily type) allVaccines).
Proof.
  unfold vaccinesForType.
  induction allVaccines as [|r rest IH]; intros H; [reflexivity|].
  cbn [filterR filter]. rewrite classify_classifiable by (apply H; now left).
  cbn [bindR]. rewrite IH by (intros x Hx; apply H; now right).
  reflexivity.
Qed.

Lemma vaccinesForType_Throw (allVaccines : list Vaccine) (type : Family) :
  (exists r, In r allVaccines /\ classifiable (product r) = false) ->
  vaccinesForType allVaccines type = Throw TypeError.
Proof.
  unfold vaccinesForType.
  induction allVaccines as [|x rest IH]; intros (r & Hin & Hr);
    [destruct Hin|].
  cbn [filterR].
  destruct (classifiable (product x)) eqn:Cx.
  - rewrite classify_classifiable by assumption. cbn [bindR].
    destruct Hin as [->|Hin]; [congruence|].
    rewrite IH by (exists r; auto). reflexivity.
  - now rewrite classify_unclassifiable.
Qed.

(** X8. One record whose product is a truthy non-string, in any bucket and
    of any family, makes [buildSlackPayloadForDog] raise a [TypeError]: the
    filter of the first core family classifies every record of the dog. *)
Theorem payload_raises_on_unclassifiable (numberToString : number -> string)
  (dog : Dog.t) :
  (exists r, In r (Dog.all dog) /\ classifiable (product r) = false) ->
  buildSlackPayloadForDog numberToString dog = Throw TypeError.
Proof.
  intros H.
  unfold buildSlackPayloadForDog, vaccineBlocks, coreTypes, coreTypeStatus.
  cbn [mapR]. now rewrite (@vaccinesForType_Throw (Dog.all dog) rabies H).
Qed.

Lemma payload_raises_on_unclassifiable_witness :
  buildSlackPayloadForDog Num.toString
    (Dog.mk (VStr "dog-1") (VStr "Rico") VNull [] [] [] [feedARecord]
       (Some [numericProductRecord]))
  = Throw TypeError.
Proof.
  apply payload_raises_on_unclassifiable.
  exists numericProductRecord. split; [|reflexivity].
  cbn. right. now left.
Defined.

Lemma statusOf_key (soonest : Vaccine) (dateStr : string) :
  fst (statusOf soonest dateStr) = key (status soonest).
Proof. unfold statusOf. now destruct (status soonest). Qed.

(** X9. When every product of the dog can be classified and every date is
    null or valid, the per-family status is computed without raising: a
    family with no record gets the key [none]; otherwise the key is the
    status of the record picked, which is the first of the family's records
    with the least instant, a record without a date counting as
    +infinity. *)
Theorem coreTypeStatus_resolved (allVaccines : list Vaccine) (type : Family)
  (label : string) :
  (forall r, In r allVaccines -> classifiable (product r) = true) ->
  (forall r, In r allVaccines -> resolved r) ->
  let forType := filter (ofFamily type) allVaccines in
  (forType = [] ->
   coreTypeStatus allVaccines type label
   = Ok (None, none,
         ("_no " ++ Str.toLowerCase label ++ " vaccination record")%string)) /\
  (forType <> [] ->
   exists (s : Vaccine) (l1 l2 : list Vaccine) (text : string),
     coreTypeStatus allVaccines type label = Ok (Some s, key (status s), text) /\
     forType = l1 ++ s :: l2 /\
     (forall r, In r l1 -> earlier (instantOf s) (instantOf r)) /\
     (forall r, In r l2 -> ~ earlier (instantOf r) (instantOf s))).
Proof.
  intros Hc Hr forType. unfold coreTypeStatus.
  rewrite vaccinesForType_Ok by assumption. cbn [bindR]. fold forType.
  assert (Hf : forall r, In r forType -> resolved r).
  { intros r Hin. apply Hr. now apply filter_In in Hin as [Hin _]. }
  destruct forType as [|x xs]; split; try congruence.
  - reflexivity.
  - intros _.
    destruct (soonest_first_least Hf) as (s & l1 & l2 & Es & El & G1 & G2).
    rewrite Es.
    assert (Rs : resolved s).
    { apply Hf. rewrite El. rewrite in_app_iff. right. now left. }
    unfold dateStrOf. unfold resolved in Rs.
    destruct (scheduledFor s) as [[|ms]|] eqn:D; [congruence| |];
      cbn [bindR];
      match goal with
      | |- context [statusOf s ?d] =>
          pose proof (statusOf_key s d) as K;
          destruct (statusOf s d) as [k text]; cbn [fst] in K; subst k;
          exists s, l1, l2, text; auto
      end.
Qed.

Lemma coreTypeStatus_resolved_witness :
  exists text,
    coreTypeStatus [feedARecord] rabies "Rabies"
    = Ok (Some feedARecord, key current, text).
Proof.
  assert (C : forall r, In r [feedARecord] -> classifiable (product r) = true)
    by (intros r [<-|[]]; reflexivity).
  assert (R : forall r, In r [feedARecord] -> resolved r)
    by (intros r [<-|[]]; discriminate).
  destruct (proj2 (@coreTypeStatus_resolved [feedARecord] rabies "Rabies" C R))
    as (s & l1 & l2 & text & E & El & _).
  - discriminate.
  - exists text. rewrite E.
    destruct l1 as [|a l1]; cbn in El.
    + now injection El as <- _.
    + injection El as _ El. now destruct l1.
Defined.

(** ** Enrichment, further *)

Lemma Extended_refl (feed : list Raw.t) (dog : Dog.t) : Extended feed dog dog.
Proof.
  constructor; try reflexivity.
  intro s. exists []. rewrite app_nil_r. split; [reflexivity|]. intros _ [].
Qed.

Lemma Extended_push (feed : list Raw.t) (dog0 dog : Dog.t) (v : Raw.t)
  (c : Due.t) :
  In v feed -> Extended feed dog0 dog ->
  Extended feed dog0 (pushToDog dog (normalize v c)).
Proof.
  intros Hv [Ha Hn Hp Hb].
  constructor.
  - rewrite <- Ha. unfold pushToDog. now destruct (status (normalize v c)).
  - rewrite <- Hn. unfold pushToDog. now destruct (status (normalize v c)).
  - rewrite <- Hp. unfold pushToDog. now destruct (status (normalize v c)).
  - intro s. destruct (Hb s) as (extra & E & Hextra).
    exists (extra ++ filter (hasStatus s) [normalize v c]). split.
    + rewrite dogBucket_push, E. now rewrite app_assoc.
    + intros r Hr. apply in_app_or in Hr as [Hr|Hr]; [now apply Hextra|].
      apply filter_In in Hr as [[<-|[]] Hs]. split.
      * now apply Status_eqb_eq.
      * now exists v, c.
Qed.

Lemma Extended_forOf clock (feed : list Raw.t) (dog0 : Dog.t)
  (rest : list Raw.t) :
  forall (st : Dog.t * list value) (t : nat),
    incl rest feed ->
    Extended feed dog0 (fst st) ->
    Extended feed dog0 (fst (fst (forOf (enrichStep clock) rest st t))) /\
    (t <= snd (forOf (enrichStep clock) rest st t) <= t + length rest)%nat.
Proof.
  induction rest as [|v rest IH]; intros st t Hincl He.
  - cbn. split; [assumption|lia].
  - cbn [forOf]. rewrite bind_run.
    assert (Hrest : incl rest feed) by (intros x Hx; apply Hincl; now right).
    destruct (setHas (snd st) (Raw.id v)) eqn:K.
    + rewrite enrichStep_known by assumption. cbn [fst snd].
      destruct (IH st t Hrest He) as [IH1 IH2]. split; [assumption|].
      cbn [length]. lia.
    + rewrite enrichStep_new by assumption. cbn [fst snd].
      destruct (decodes_status clock v t) as [_ Ht].
      match goal with
      | |- context [forOf _ rest ?st' ?t'] =>
          destruct (IH st' t' Hrest) as [IH1 IH2]
      end.
      * cbn [fst]. apply Extended_push; [apply Hincl; now left|assumption].
      * split; [assumption|]. rewrite Ht in IH2 |- *. cbn [length].
        destruct (decodes v); lia.
Qed.

(** X10. Enrichment only appends: the dog keeps its identifier, name and
    photo; each array keeps its records, in order, followed by records made
    from the feed and put in the array of their own status; every
    identifier of the feed is carried by some record of the enriched dog;
    the clock is read at most once for each record of the feed; and a dog
    whose records were each in the array of their status stays so. *)
Theorem enrichDog_only_appends clock (dog : Dog.t) (feed : list Raw.t)
  (t : nat) :
  let dog' := fst (enrichDog clock dog feed t) in
  Extended feed dog dog' /\
  (forall v, In v feed ->
     exists r, In r (Dog.all dog') /\
               sameValueZero (Raw.id v) (vaccineId r) = true) /\
  (t <= snd (enrichDog clock dog feed t) <= t + length feed)%nat /\
  (wellBucketed dog -> wellBucketed dog').
Proof.
  unfold enrichDog. rewrite !bind_run. cbn [ret fst snd].
  destruct (@Extended_forOf clock feed dog feed (dog, knownIdsOf dog) t
              (incl_refl feed) (Extended_refl feed dog)) as [E T].
  split; [exact E|]. split; [|split; [exact T|]].
  - intros v Hv.
    pose proof (@Reached_forOf clock dog feed _ t (Reached_init dog)) as R.
    pose proof (feed_known_after clock feed (dog, knownIdsOf dog) t v Hv) as K.
    rewrite (known_ids R) in K. unfold knownIdsOf, setHas in K.
    apply existsb_exists in K as (k & Hk & Ek).
    apply in_map_iff in Hk as (r & <- & Hr). now exists r.
  - intros W s r Hr. destruct (only_appended E s) as (extra & Eb & Hextra).
    rewrite Eb in Hr. apply in_app_or in Hr as [Hr|Hr].
    + now apply W.
    + now apply Hextra.
Qed.

Lemma enrichDog_only_appends_witness :
  wellBucketed oneRecordDog /\
  wellBucketed
    (fst (enrichDog tickingClock oneRecordDog [dueNowRaw; feedBDuplicate] 0%nat)).
Proof.
  assert (W : wellBucketed oneRecordDog).
  { intros s r. destruct s; cbn; intros H; try contradiction.
    destruct H as [<-|[]]. reflexivity. }
  split; [exact W|].
  apply (proj2 (proj2 (proj2
           (enrichDog_only_appends tickingClock oneRecordDog
              [dueNowRaw; feedBDuplicate] 0%nat)))).
  exact W.
Defined.

(** ** Grouping by dog *)

Lemma dogBucket_pushByStatus (s' s : Status) (d : Dog.t) (v : Vaccine) :
  dogBucket s' (pushByStatus d s v)
  = dogBucket s' d ++ (if Status_eqb s s' then [v] else []).
Proof. destruct s, s'; cbn; auto using app_nil_r. Qed.

Lemma pushByStatus_identity (d : Dog.t) (s : Status) (v : Vaccine) :
  Dog.animalId (pushByStatus d s v) = Dog.animalId d /\
  Dog.name (pushByStatus d s v) = Dog.name d /\
  Dog.photoUrl (pushByStatus d s v) = Dog.photoUrl d.
Proof. now destruct s. Qed.

Lemma forEachR_app {A S} (f : S -> A -> result S) (l1 l2 : list A) :
  forall s, forEachR f (l1 ++ l2) s = bindR (forEachR f l1 s) (forEachR f l2).
Proof.
  induction l1 as [|x l1 IH]; intro s; cbn; [reflexivity|].
  destruct (f s x); cbn; [apply IH|reflexivity].
Qed.

Lemma forEachR_tagged (numberToString : number -> string)
  (animalsById : Obj.t Entry.t) (s : Status) (l : list Vaccine) :
  forall dogs,
    forEachR (fun dogs it =>
                addToDogBucket numberToString animalsById (fst it) dogs (snd it))
      (tagged s l) dogs
    = forEachR (addToDogBucket numberToString animalsById s) l dogs.
Proof.
  induction l as [|v l IH]; intro dogs; cbn; [reflexivity|].
  destruct (addToDogBucket numberToString animalsById s dogs v); cbn;
    [apply IH|reflexivity].
Qed.

(** The five loops of [groupVaccinesByDog] are one loop over the records
    with the status each loop passes. *)
Lemma groupVaccinesByDog_as_items (numberToString : number -> string)
  (buckets : Buckets.t) (animalsById : Obj.t Entry.t) :
  groupVaccinesByDog numberToString buckets animalsById
  = forEachR (fun dogs it =>
                addToDogBucket numberToString animalsById (fst it) dogs (snd it))
      (groupItems buckets) Obj.empty.
Proof.
  unfold groupVaccinesByDog, groupItems.
  repeat (rewrite forEachR_app, forEachR_tagged;
          match goal with
          | |- bindR ?m _ = bindR ?m _ =>
              destruct m; cbn [bindR]; [|reflexivity]
          end).
  now rewrite forEachR_tagged.
Qed.

(** A key of [Object.prototype] always reads as a truthy value. *)
Lemma readAnimal_builtin (animalsById : Obj.t Entry.t) (k : string) :
  Obj.onPrototype k = true -> isTruthy (readAnimal animalsById k) = true.
Proof.
  intros P. unfold readAnimal.
  destruct (animalsById k); [reflexivity|].
  assert (I : isTruthy (inherited k) = true)
    by (unfold inherited; now rewrite P).
  destruct (animalsById "__proto__"%string); [|exact I].
  destruct (String.eqb_spec k "name") as [->|_]; [discriminate P|].
  destruct (String.eqb_spec k "photoUrl") as [->|_]; [discriminate P|].
  exact I.
Qed.

(** A truthy value has the two fields read from it, possibly undefined. *)
Lemma truthy_fields (x : Found) :
  isTruthy x = true ->
  exists name photoUrl, nameOf x = Ok name /\ photoUrlOf x = Ok photoUrl.
Proof.
  destruct x as [e|[| |b|n|s]|n|]; cbn; intros H; try discriminate; eauto.
Qed.

Lemma groupedAt_other (numberToString : number -> string)
  (animalsById : Obj.t Entry.t) (k : string)
  (items : list (Status * Vaccine)) (s : Status) (v : Vaccine)
  (o : option Dog.t) :
  belongs numberToString k v = false ->
  groupedAt numberToString animalsById k items o ->
  groupedAt numberToString animalsById k (items ++ [(s, v)]) o.
Proof.
  intros B G. unfold groupedAt in *. rewrite filter_app. cbn [filter snd].
  now rewrite B, app_nil_r.
Qed.

(** One record more: the loop body raises on a record that names a property
    of [Object.prototype], and otherwise keeps [dogs] as described. *)
Lemma addToDogBucket_step (numberToString : number -> string)
  (animalsById : Obj.t Entry.t) (items : list (Status * Vaccine))
  (s : Status) (dogs : Obj.t Dog.t) (v : Vaccine) :
  groupedAll numberToString animalsById items dogs ->
  if namesBuiltin numberToString v
  then addToDogBucket numberToString animalsById s dogs v = Throw TypeError
  else exists dogs',
         addToDogBucket numberToString animalsById s dogs v = Ok dogs' /\
         groupedAll numberToString animalsById (items ++ [(s, v)]) dogs'.
Proof.
  intros G. unfold namesBuiltin, addToDogBucket.
  destruct (toBoolean (animalId v)) eqn:T; cbn [andb negb].
  2:{ exists dogs. split; [reflexivity|]. intro k. specialize (G k).
      destruct (Obj.onPrototype k); [exact G|].
      apply groupedAt_other; [|exact G]. unfold belongs. now rewrite T. }
  set (kv := toPropertyKey numberToString (animalId v)).
  assert (Bv : belongs numberToString kv v = true).
  { unfold belongs. fold kv. now rewrite T, String.eqb_refl. }
  assert (Bo : forall k, k <> kv -> belongs numberToString k v = false).
  { intros k Nk. unfold belongs. fold kv. rewrite T. cbn [andb].
    apply String.eqb_neq. congruence. }
  pose proof (G kv) as Gk.
  destruct (Obj.onPrototype kv) eqn:P.
  - rewrite (readAnimal_builtin animalsById kv P). cbn [negb].
    unfold ensureDog. fold kv. now rewrite Gk, P.
  - destruct (isTruthy (readAnimal animalsById kv)) eqn:R; cbn [negb].
    + destruct (truthy_fields _ R) as (n & p & Hn & Hp).
      unfold ensureDog. fold kv. rewrite P, Hn, Hp. cbn [bindR].
      unfold groupedAt in Gk. rewrite R in Gk.
      destruct (dogs kv) as [dog|] eqn:D; cbn [bindR];
        (eexists; split; [reflexivity|]); intro k; specialize (G k);
        unfold Obj.set; destruct (String.eqb_spec k kv) as [->|Nk];
        try (destruct (Obj.onPrototype k); [exact G|];
             now apply groupedAt_other; [apply Bo|]).
      * rewrite P. unfold groupedAt. rewrite filter_app. cbn [filter snd].
        rewrite Bv, R.
        destruct (filter (fun it => belongs numberToString kv (snd it)) items)
          as [|[s0 first] rest]; [discriminate Gk|].
        destruct Gk as (dog' & [= <-] & Hid & Hna & Hph & Hb).
        cbn [app]. eexists. split; [reflexivity|].
        destruct (pushByStatus_identity dog s v) as (-> & -> & ->).
        repeat split; try assumption.
        intro s'. rewrite dogBucket_pushByStatus, Hb. cbn [filter fst].
        destruct (Status_eqb s0 s'); cbn [map snd app];
          rewrite filter_app, map_app; cbn [filter fst map snd];
          destruct s, s'; cbn; rewrite ?app_nil_r; reflexivity.
      * rewrite P. unfold groupedAt. rewrite filter_app. cbn [filter snd].
        rewrite Bv, R.
        destruct (filter (fun it => belongs numberToString kv (snd it)) items)
          as [|[s0 first] rest].
        2:{ destruct Gk as (dog' & Ed & _). discriminate Ed. }
        cbn [app]. eexists. split; [reflexivity|].
        destruct (pushByStatus_identity
                    (Dog.mk (animalId v) n p [] [] [] [] (Some [])) s v)
          as (-> & -> & ->).
        cbn [Dog.animalId Dog.name Dog.photoUrl]. repeat split;
          try assumption.
        intro s'. rewrite dogBucket_pushByStatus. cbn [filter fst map snd].
        destruct s, s'; reflexivity.
    + exists dogs. split; [reflexivity|]. intro k. specialize (G k).
      destruct (String.eqb_spec k kv) as [->|Nk].
      * rewrite P in *. unfold groupedAt in *. rewrite filter_app.
        cbn [filter snd]. rewrite Bv. rewrite R in *.
        destruct (filter (fun it => belongs numberToString kv (snd it)) items)
          as [|[s0 first] rest]; exact G.
      * destruct (Obj.onPrototype k); [exact G|].
        now apply groupedAt_other; [apply Bo|].
Qed.

Lemma forEachR_grouped (numberToString : number -> string)
  (animalsById : Obj.t Entry.t) (items : list (Status * Vaccine)) :
  forall (done : list (Status * Vaccine)) (dogs : Obj.t Dog.t),
    groupedAll numberToString animalsById done dogs ->
    if existsb (fun it => namesBuiltin numberToString (snd it)) items
    then forEachR (fun dogs it =>
                     addToDogBucket numberToString animalsById (fst it) dogs
                       (snd it)) items dogs
         = Throw TypeError
    else exists dogs',
           forEachR (fun dogs it =>
                       addToDogBucket numberToString animalsById (fst it) dogs
                         (snd it)) items dogs
           = Ok dogs' /\
           groupedAll numberToString animalsById (done ++ items) dogs'.
Proof.
  induction items as [|[s v] items IH]; intros done dogs G;
    cbn [existsb forEachR fst snd].
  - exists dogs. split; [reflexivity|]. now rewrite app_nil_r.
  - pose proof (addToDogBucket_step s v G) as St.
    destruct (namesBuiltin numberToString v); cbn [orb].
    + now rewrite St.
    + destruct St as (dogs' & -> & G'). cbn [bindR].
      specialize (IH _ _ G'). now rewrite <- app_assoc in IH.
Qed.

Lemma existsb_tagged (f : Vaccine -> bool) (s : Status) (l : list Vaccine) :
  existsb (fun it => f (snd it)) (tagged s l) = existsb f l.
Proof. unfold tagged. induction l as [|v l IH]; cbn; now rewrite ?IH. Qed.

Lemma existsb_groupItems (f : Vaccine -> bool) (b : Buckets.t) :
  existsb (fun it => f (snd it)) (groupItems b) = existsb f (Buckets.all b).
Proof.
  unfold groupItems, Buckets.all. now rewrite !existsb_app, !existsb_tagged.
Qed.

(** The outcome of [groupVaccinesByDog]. *)
Lemma groupVaccinesByDog_items (numberToString : number -> string)
  (animalsById : Obj.t Entry.t) (buckets : Buckets.t) :
  if existsb (namesBuiltin numberToString) (Buckets.all buckets)
  then groupVaccinesByDog numberToString buckets animalsById = Throw TypeError
  else exists dogs,
         groupVaccinesByDog numberToString buckets animalsById = Ok dogs /\
         groupedAll numberToString animalsById (groupItems buckets) dogs.
Proof.
  rewrite groupVaccinesByDog_as_items, <- existsb_groupItems.
  apply (@forEachR_grouped numberToString animalsById (groupItems buckets)
           [] Obj.empty).
  intro k. now destruct (Obj.onPrototype k).
Qed.

Lemma filter_tagged (f : Vaccine -> bool) (s s' : Status) (l : list Vaccine) :
  map snd (filter (fun it => Status_eqb (fst it) s')
             (filter (fun it => f (snd it)) (tagged s l)))
  = if Status_eqb s s' then filter f l else [].
Proof.
  unfold tagged.
  destruct (Status_eqb s s') eqn:E; induction l as [|v l IH]; cbn;
    try reflexivity; destruct (f v); cbn; rewrite ?E; cbn; now rewrite ?IH.
Qed.

Lemma filter_snd_tagged (f : Vaccine -> bool) (s : Status) (l : list Vaccine) :
  map snd (filter (fun it => f (snd it)) (tagged s l)) = filter f l.
Proof.
  unfold tagged. induction l as [|v l IH]; cbn; [reflexivity|].
  destruct (f v); cbn; now rewrite IH.
Qed.

Lemma filter_groupItems (f : Vaccine -> bool) (b : Buckets.t) :
  map snd (filter (fun it => f (snd it)) (groupItems b))
  = filter f (Buckets.all b).
Proof.
  unfold groupItems, Buckets.all.
  now rewrite !filter_app, !map_app, !filter_snd_tagged.
Qed.

Lemma bucket_groupItems (f : Vaccine -> bool) (b : Buckets.t) (s : Status) :
  map snd (filter (fun it => Status_eqb (fst it) s)
             (filter (fun it => f (snd it)) (groupItems b)))
  = filter f (bucketOf s b).
Proof.
  unfold groupItems. rewrite !filter_app, !map_app, !filter_tagged.
  destruct s; cbn; now rewrite ?app_nil_r.
Qed.

(** When the grouping returns, no record names a property of
    [Object.prototype], and [dogs] is as described at every key. *)
Lemma groupVaccinesByDog_Ok (numberToString : number -> string)
  (animalsById : Obj.t Entry.t) (buckets : Buckets.t) (dogs : Obj.t Dog.t) :
  groupVaccinesByDog numberToString buckets animalsById = Ok dogs ->
  (forall r, In r (Buckets.all buckets) ->
             namesBuiltin numberToString r = false) /\
  groupedAll numberToString animalsById (groupItems buckets) dogs.
Proof.
  intros H.
  pose proof (groupVaccinesByDog_items numberToString animalsById buckets)
    as G.
  destruct (existsb (namesBuiltin numberToString) (Buckets.all buckets))
    eqn:E; [congruence|].
  destruct G as (dogs' & Ed & G). rewrite H in Ed. injection Ed as <-.
  split; [|exact G]. intros r Hr.
  destruct (namesBuiltin numberToString r) eqn:N; [|reflexivity].
  assert (X : existsb (namesBuiltin numberToString) (Buckets.all buckets)
              = true) by (apply existsb_exists; eauto).
  congruence.
Qed.

(** X11. Grouping by dog.  [groupVaccinesByDog] raises, a [TypeError],
    exactly when some record has a truthy [animalId] that names a property
    of [Object.prototype] ("toString", "constructor", "__proto__", ...):
    [animalsById[id]] and [dogs[id]] are then inherited and truthy, no dog is
    made, and the [push] is on [undefined].  When it returns, key by key: the
    animal written [k] gets a dog exactly when [animalsById[k]] is truthy
    and some record has a truthy [animalId] of key [k]; the dog has the
    identifier of the first such record (in the order overdue,
    needsAttention, upcoming, current, unknown), the name and photo of the
    animal's entry (both undefined when [animalsById[k]] is not an own
    entry but a field of an entry put in the place of the prototype), and in
    each array the animal's records of the same array of the buckets, in
    order.  Records of other animals, of animals for which [animalsById[k]]
    is falsy and records with a falsy [animalId] are in no dog. *)
Theorem groupVaccinesByDog_by_key (numberToString : number -> string)
  (buckets : Buckets.t) (animalsById : Obj.t Entry.t) :
  let grouped := groupVaccinesByDog numberToString buckets animalsById in
  (grouped = Throw TypeError
   <-> exists r,
         In r (Buckets.all buckets) /\ toBoolean (animalId r) = true /\
         Obj.onPrototype (toPropertyKey numberToString (animalId r)) = true) /\
  (forall e, grouped = Throw e -> e = TypeError) /\
  forall (dogs : Obj.t Dog.t) (k : string),
    grouped = Ok dogs ->
    let mine := filter (belongs numberToString k) (Buckets.all buckets) in
    (mine = [] \/ isTruthy (readAnimal animalsById k) = false ->
     dogs k = None) /\
    (animalsById k = None -> animalsById "__proto__"%string = None ->
     dogs k = None) /\
    (forall first rest,
       mine = first :: rest -> isTruthy (readAnimal animalsById k) = true ->
       exists dog,
         dogs k = Some dog /\
         Dog.animalId dog = animalId first /\
         (forall e, animalsById k = Some e ->
            Dog.name dog = Entry.name e /\
            Dog.photoUrl dog = Entry.photoUrl e) /\
         (animalsById k = None ->
            Dog.name dog = VUndefined /\ Dog.photoUrl dog = VUndefined) /\
         forall s,
           dogBucket s dog
           = filter (belongs numberToString k) (bucketOf s buckets)).
Proof.
  intros grouped.
  pose proof (groupVaccinesByDog_items numberToString animalsById buckets)
    as G.
  fold grouped in G.
  assert (X : existsb (namesBuiltin numberToString) (Buckets.all buckets)
              = true
              <-> exists r,
                    In r (Buckets.all buckets) /\
                    toBoolean (animalId r) = true /\
                    Obj.onPrototype (toPropertyKey numberToString (animalId r))
                    = true).
  { rewrite existsb_exists. unfold namesBuiltin.
    split; intros (r & Hr & H); exists r; (split; [exact Hr|]).
    - now apply andb_prop.
    - now apply andb_true_intro. }
  split; [|split].
  - rewrite <- X.
    destruct (existsb (namesBuiltin numberToString) (Buckets.all buckets)).
    + now split.
    + destruct G as (dogs & -> & _). split; discriminate.
  - intros e H.
    destruct (existsb (namesBuiltin numberToString) (Buckets.all buckets)).
    + congruence.
    + destruct G as (dogs & Ed & _). congruence.
  - clear G X. intros dogs k H mine.
    apply groupVaccinesByDog_Ok in H as [N G].
    specialize (G k).
    pose proof (filter_groupItems (belongs numberToString k) buckets) as F.
    fold mine in F.
    pose proof (bucket_groupItems (belongs numberToString k) buckets) as B.
    assert (M : Obj.onPrototype k = true -> mine = []).
    { intros P. destruct mine as [|first rest] eqn:Em; [reflexivity|].
      assert (Hf : In first mine) by (rewrite Em; now left).
      apply filter_In in Hf as [Hf Bf].
      specialize (N first Hf). unfold namesBuiltin in N.
      unfold belongs in Bf. apply andb_prop in Bf as [T K].
      apply String.eqb_eq in K. rewrite T, K, P in N. discriminate. }
    destruct (Obj.onPrototype k) eqn:P.
    { specialize (M eq_refl). split; [|split].
      - intros _. exact G.
      - intros _ _. exact G.
      - intros first rest Hm. rewrite M in Hm. discriminate. }
    clear M. unfold groupedAt in G.
    destruct (filter (fun it => belongs numberToString k (snd it))
                (groupItems buckets)) as [|[s0 x] its] eqn:Ef.
    { cbn in F. split; [|split].
      - intros _. exact G.
      - intros _ _. exact G.
      - intros first rest Hm. rewrite Hm in F. discriminate. }
    split; [|split].
    + intros [Hm|R]; [rewrite Hm in F; discriminate|].
      now rewrite R in G.
    + intros Hk Hp.
      assert (R : isTruthy (readAnimal animalsById k) = false).
      { unfold readAnimal, inherited. now rewrite Hk, Hp, P. }
      now rewrite R in G.
    + intros first rest Hm R. rewrite R in G.
      destruct G as (dog & Ed & Hid & Hn & Hp & Hb).
      rewrite Hm in F. cbn in F. injection F as -> _.
      exists dog. split; [exact Ed|]. split; [exact Hid|].
      split; [|split].
      * intros e He. unfold readAnimal in Hn, Hp. rewrite He in Hn, Hp.
        cbn in Hn, Hp. split; congruence.
      * intros He. unfold readAnimal, inherited in Hn, Hp, R.
        rewrite He, P in Hn, Hp, R.
        destruct (animalsById "__proto__"%string) as [e|];
          [|discriminate R].
        destruct (String.eqb k "name");
          [|destruct (String.eqb k "photoUrl"); [|discriminate R]];
          cbn in R, Hn, Hp;
          match type of R with
          | toBoolean ?v = true => destruct v; cbn in R, Hn, Hp;
                                   try discriminate R; split; congruence
          end.
      * intro s. rewrite Hb. apply B.
Qed.

Lemma groupVaccinesByDog_by_key_witness :
  exists dogs dog,
    groupVaccinesByDog Num.toString
      (fst (bucketScheduledVaccines steadyClock [dueNowRaw; dueLaterRaw] 0%nat))
      (Obj.set Obj.empty "dog-1" (Entry.mk (VStr "Rico") VNull))
    = Ok dogs /\
    dogs "dog-1"%string = Some dog /\
    Dog.name dog = VStr "Rico" /\
    map vaccineId (dogBucket needsAttention dog) = [VNum (Num.ofZ 1)].
Proof.
  eexists.
  assert (E : groupVaccinesByDog Num.toString
                (fst (bucketScheduledVaccines steadyClock
                        [dueNowRaw; dueLaterRaw] 0%nat))
                (Obj.set Obj.empty "dog-1" (Entry.mk (VStr "Rico") VNull))
              = Ok _) by (vm_compute; reflexivity).
  destruct (proj2 (proj2 (proj2 (proj2
              (groupVaccinesByDog_by_key Num.toString
                 (fst (bucketScheduledVaccines steadyClock
                         [dueNowRaw; dueLaterRaw] 0%nat))
                 (Obj.set Obj.empty "dog-1" (Entry.mk (VStr "Rico") VNull))))
              _ "dog-1"%string E)) _ _ eq_refl eq_refl)
    as (dog & Ed & _ & Hn & _ & Hb).
  exists dog. split; [exact E|]. split; [exact Ed|].
  split; [exact (proj1 (Hn _ eq_refl))|].
  rewrite (Hb needsAttention). reflexivity.
Defined.

(** A record whose [animalId] is "toString" stops the grouping, whatever
    [animalsById] holds; the dog of "dog-1" is lost with it. *)
Example grouping_raises_on_builtin_key :
  groupVaccinesByDog Num.toString
    (fst (bucketScheduledVaccines steadyClock [dueNowRaw; toStringRaw] 0%nat))
    (Obj.set Obj.empty "dog-1" (Entry.mk (VStr "Rico") VNull))
  = Throw TypeError.
Proof. vm_compute. reflexivity. Qed.

(** After an entry was assigned under "__proto__", a record whose [animalId]
    is "name" finds the name of that entry, a truthy string: it gets a dog,
    without name or photo. *)
Example grouping_reads_replaced_prototype :
  option_map (fun dog => (Dog.name dog, Dog.photoUrl dog,
                          map vaccineId (Dog.needsAttention dog)))
    (match groupVaccinesByDog Num.toString
             (fst (bucketScheduledVaccines steadyClock [nameRaw] 0%nat))
             (Obj.set Obj.empty "__proto__" (Entry.mk (VStr "Rico") VNull))
     with
     | Ok dogs => dogs "name"%string
     | Throw _ => None
     end)
  = Some (VUndefined, VUndefined, [VNum (Num.ofZ 3)]).
Proof. vm_compute. reflexivity. Qed.

(** ** The animals fetched *)

Lemma addAnimalIds_In (bucket : list Vaccine) :
  forall (ids : list value) (x : value),
    In x (addAnimalIds ids bucket) ->
    In x ids \/
    exists r, In r bucket /\ animalId r = x /\ toBoolean x = true.
Proof.
  unfold addAnimalIds.
  induction bucket as [|v bucket IH]; intros ids x H; [now left|].
  cbn [fold_left] in H. apply IH in H as [H|(r & Hr & E & T)].
  - destruct (toBoolean (animalId v)) eqn:Tv; [|now left].
    unfold setAdd, push in H.
    destruct (setHas ids (animalId v)); [now left|].
    apply in_app_or in H as [H|[<-|[]]]; [now left|].
    right. exists v. repeat split; [now left|assumption].
  - right. exists r. repeat split; [now right|assumption..].
Qed.

Lemma entryOf_Some (numberToString : number -> string) (id : value)
  (animal : Animal.t) (e : Entry.t) :
  entryOf numberToString id animal = Ok (Some e) ->
  Animal.Type_ animal = VStr "Dog" /\
  (exists s, Animal.Status animal = VStr s /\ isAdoptableStatus s = true) /\
  toBoolean (Entry.name e) = true.
Proof.
  unfold entryOf, isString, isAdoptableStatus.
  destruct (Animal.Type_ animal) as [| | | |ty]; try discriminate.
  destruct (String.eqb_spec ty "Dog") as [->|]; [|discriminate].
  cbn [negb].
  destruct (toBoolean (Animal.Status animal)) eqn:Ts.
  - destruct (Animal.Status animal) as [| | | |s]; try discriminate.
    destruct (Str.includes (Str.toLowerCase s) "available"
              || Str.includes (Str.toLowerCase s) "adoptable") eqn:A;
      [|discriminate].
    cbn [negb]. intros [= <-]. split; [reflexivity|].
    split; [now exists s|]. cbn [Entry.name].
    destruct (toBoolean (Animal.Name animal)) eqn:Tn; [assumption|reflexivity].
  - cbn. discriminate.
Qed.

Lemma fetchStep_inv (numberToString : number -> string)
  (fetchAnimalById : nat -> string -> option Animal.t)
  (P : string -> Entry.t -> Prop) (Q : value -> Prop) :
  (forall id n animal e,
     Q id -> fetchAnimalById n (toPropertyKey numberToString id) = Some animal ->
     entryOf numberToString id animal = Ok (Some e) ->
     P (toPropertyKey numberToString id) e) ->
  forall (ids : list value) (st : Obj.t Entry.t * nat),
    (forall id, In id ids -> Q id) ->
    (forall k e, fst st k = Some e -> P k e) ->
    forall k e,
      fst (fold_left (fetchStep numberToString fetchAnimalById) ids st) k
      = Some e ->
      P k e.
Proof.
  intros HP. induction ids as [|id ids IH]; intros st HQ Hst; [exact Hst|].
  cbn [fold_left]. apply IH; [intros x Hx; apply HQ; now right|].
  destruct st as [animalsById calls]. unfold fetchStep.
  destruct (fetchAnimalById calls (toPropertyKey numberToString id))
    as [animal|] eqn:Ef; [|exact Hst].
  destruct (entryOf numberToString id animal) as [[entry|]|err] eqn:Ee;
    try exact Hst.
  cbn [fst]. intros k e. unfold Obj.set.
  destruct (String.eqb_spec k (toPropertyKey numberToString id)) as [->|_].
  - intros [= <-]. eapply HP; eauto. apply HQ. now left.
  - apply Hst.
Qed.

(** An entry of [animalsById] comes from a record of a dated array. *)
Lemma animalsById_dated_record (numberToString : number -> string)
  (fetchAnimalById : nat -> string -> option Animal.t)
  (buckets : Buckets.t) (calls : nat) (k : string) (e : Entry.t) :
  fst (fetchAnimalsForBuckets numberToString fetchAnimalById buckets calls) k
  = Some e ->
  exists r, In r (datedBuckets buckets) /\ belongs numberToString k r = true.
Proof.
  unfold fetchAnimalsForBuckets.
  apply (@fetchStep_inv numberToString fetchAnimalById
           (fun k e =>
              exists r, In r (datedBuckets buckets) /\
                        belongs numberToString k r = true)
           (fun id =>
              exists r, In r (datedBuckets buckets) /\
                        animalId r = id /\ toBoolean id = true)).
  - intros id n animal e' (r & Hr & <- & T) _ _.
    exists r. split; [exact Hr|]. unfold belongs.
    now rewrite T, String.eqb_refl.
  - intros id Hid. unfold datedBuckets.
    repeat (apply addAnimalIds_In in Hid as [Hid|(r & Hr & E & T)];
            [|exists r; rewrite !in_app_iff; tauto]).
    destruct Hid.
  - intros k' e' H. discriminate.
Qed.

(** X12. [animalsById] holds adoptable dogs with a dated record only: an
    entry under the key [k] comes from a record of one of the arrays
    overdue, needsAttention, upcoming, current whose truthy [animalId] is
    written [k], and from an answer of the animal service for [k] whose
    [Type] is the string 'Dog' and whose [Status] is a string that
    contains, in any case, "available" or "adoptable"; its name is truthy.
    The array [unknown] contributes no identifier. *)
Theorem fetched_animals_are_adoptable_dogs
  (numberToString : number -> string)
  (fetchAnimalById : nat -> string -> option Animal.t)
  (buckets : Buckets.t) (calls : nat) (k : string) (e : Entry.t) :
  fst (fetchAnimalsForBuckets numberToString fetchAnimalById buckets calls) k
  = Some e ->
  (exists r, In r (datedBuckets buckets) /\
             belongs numberToString k r = true) /\
  (exists n animal s,
     fetchAnimalById n k = Some animal /\
     Animal.Type_ animal = VStr "Dog" /\
     Animal.Status animal = VStr s /\
     isAdoptableStatus s = true) /\
  toBoolean (Entry.name e) = true.
Proof.
  unfold fetchAnimalsForBuckets.
  apply (@fetchStep_inv numberToString fetchAnimalById
           (fun k e =>
              (exists r, In r (datedBuckets buckets) /\
                         belongs numberToString k r = true) /\
              (exists n animal s,
                 fetchAnimalById n k = Some animal /\
                 Animal.Type_ animal = VStr "Dog" /\
                 Animal.Status animal = VStr s /\
                 isAdoptableStatus s = true) /\
              toBoolean (Entry.name e) = true)
           (fun id =>
              exists r, In r (datedBuckets buckets) /\
                        animalId r = id /\ toBoolean id = true)).
  - intros id n animal e' (r & Hr & <- & T) Ef Ee.
    destruct (entryOf_Some _ _ _ Ee) as (Ty & (s & Es & A) & Tn).
    split; [|split; [|exact Tn]].
    + exists r. split; [exact Hr|]. unfold belongs.
      now rewrite T, String.eqb_refl.
    + now exists n, animal, s.
  - intros id Hid. unfold datedBuckets.
    repeat (apply addAnimalIds_In in Hid as [Hid|(r & Hr & E & T)];
            [|exists r; rewrite !in_app_iff; tauto]).
    destruct Hid.
  - intros k' e' H. discriminate.
Qed.

Lemma fetched_animals_are_adoptable_dogs_witness :
  let b := fst (bucketScheduledVaccines steadyClock [dueNowRaw] 0%nat) in
  exists r, In r (datedBuckets b) /\ belongs Num.toString "dog-1" r = true.
Proof.
  cbv zeta.
  apply (@fetched_animals_are_adoptable_dogs Num.toString oneDogService
           (fst (bucketScheduledVaccines steadyClock [dueNowRaw] 0%nat))
           0%nat "dog-1"
           (Entry.mk (VStr "Rico") (VStr "https://photos.example/rico.jpg"))).
  vm_compute. reflexivity.
Defined.

(** X13. An animal none of whose records is in a dated array gets no dog
    from [main]: its identifier is never fetched, so its records, which can
    only be in [unknown], are dropped by the grouping and it is sent no
    message.  (An entry fetched for "__proto__" would let "name" read as
    truthy, but the record that had it fetched then stops the grouping.) *)
Theorem undated_only_animal_gets_no_dog
  (numberToString : number -> string)
  (fetchAnimalById : nat -> string -> option Animal.t)
  (buckets : Buckets.t) (calls : nat) (k : string) :
  (forall r, In r (datedBuckets buckets) ->
             belongs numberToString k r = false) ->
  let animalsById :=
    fst (fetchAnimalsForBuckets numberToString fetchAnimalById buckets calls) in
  animalsById k = None /\
  forall dogs,
    groupVaccinesByDog numberToString buckets animalsById = Ok dogs ->
    dogs k = None.
Proof.
  intros H animalsById.
  assert (N : animalsById k = None).
  { destruct (animalsById k) as [e|] eqn:E; [|reflexivity].
    apply animalsById_dated_record in E as (r & Hr & B).
    rewrite (H r Hr) in B. discriminate. }
  split; [exact N|].
  intros dogs Hd. apply groupVaccinesByDog_Ok in Hd as [Nb G].
  specialize (G k). destruct (Obj.onPrototype k) eqn:P; [exact G|].
  unfold groupedAt in G.
  destruct (filter (fun it => belongs numberToString k (snd it))
              (groupItems buckets)) as [|[s0 first] rest]; [exact G|].
  assert (Np : animalsById "__proto__"%string = None).
  { destruct (animalsById "__proto__"%string) as [e|] eqn:E; [|reflexivity].
    apply animalsById_dated_record in E as (r & Hr & B).
    assert (Hall : In r (Buckets.all buckets)).
    { unfold datedBuckets in Hr. unfold Buckets.all.
      rewrite !in_app_iff in *. tauto. }
    specialize (Nb r Hall). unfold namesBuiltin in Nb.
    unfold belongs in B. apply andb_prop in B as [T K].
    apply String.eqb_eq in K. rewrite T, K in Nb. discriminate. }
  replace (isTruthy (readAnimal animalsById k)) with false in G;
    [exact G|].
  unfold readAnimal, inherited. now rewrite N, Np, P.
Qed.

Lemma undated_only_animal_gets_no_dog_witness :
  let b := fst (bucketScheduledVaccines steadyClock [undatedRaw] 0%nat) in
  map vaccineId (filter (belongs Num.toString "dog-1") (Buckets.unknown b))
  = [Raw.id undatedRaw] /\
  exists dogs,
    groupVaccinesByDog Num.toString b
      (fst (fetchAnimalsForBuckets Num.toString oneDogService b 0%nat))
    = Ok dogs /\
    dogs "dog-1"%string = None.
Proof.
  cbv zeta. split; [reflexivity|].
  eexists. split; [vm_compute; reflexivity|].
  apply (proj2 (@undated_only_animal_gets_no_dog Num.toString oneDogService
                  (fst (bucketScheduledVaccines steadyClock [undatedRaw] 0%nat))
                  0%nat "dog-1" (fun r (F : False) => match F with end))).
  vm_compute. reflexivity.
Defined.

(** ** Paging *)

Lemma firstn_next (A : Type) (l : list A) (a b : nat) :
  firstn a l ++ firstn b (skipn a l) = firstn (a + b) l.
Proof.
  revert l. induction a as [|a IH]; intro l; [reflexivity|].
  destruct l as [|x l]; cbn; [now rewrite firstn_nil|]. now rewrite IH.
Qed.

Lemma fetchFrom_pages (respond : nat -> option Body) (db : list Raw.t) :
  pagesOf db respond ->
  forall turns offset,
    (offset <= length db)%nat ->
    (length db - offset < limit * turns)%nat ->
    fetchFrom respond turns offset (firstn offset db) = Done db.
Proof.
  intros H. induction turns as [|turns IH]; intros offset Ho Hf; [lia|].
  cbn [fetchFrom]. destruct (H offset) as (h & -> & Hh). cbn [batchOf].
  assert (L : length (firstn limit (skipn offset db))
              = Nat.min limit (length db - offset))
    by now rewrite length_firstn, length_skipn.
  destruct (firstn limit (skipn offset db)) as [|x page] eqn:P.
  - f_equal. apply firstn_all2. cbn [length] in L. unfold limit in L. lia.
  - rewrite <- P, firstn_next.
    destruct (saysNoMore (BObject (Some (firstn limit (skipn offset db))) h)
              || (length (firstn limit (skipn offset db)) <? limit)%nat)
      eqn:Stop.
    + f_equal. apply firstn_all2. apply orb_prop in Stop as [S|S].
      * cbn in S. destruct h as [| |[]| |]; try discriminate.
        now apply Hh.
      * apply Nat.ltb_lt in S. rewrite P, L in S. lia.
    + apply orb_false_elim in Stop as [_ S]. apply Nat.ltb_ge in S.
      rewrite P, L in S. apply IH; unfold limit in *; lia.
Qed.

(** X14. Against a service that pages a fixed list of records as asked, 200
    at a time, and says [has_more: false] only on the last page,
    [fetchAllScheduledVaccines] ends and returns the whole list, each
    record once and in order, within one turn more than there are full
    pages. *)
Theorem paging_collects_everything (respond : nat -> option Body)
  (db : list Raw.t) (turns : nat) :
  pagesOf db respond ->
  (length db / limit < turns)%nat ->
  fetchAllScheduledVaccines respond turns = Done db.
Proof.
  intros H Ht. unfold fetchAllScheduledVaccines.
  change (@nil Raw.t) with (firstn 0 db).
  apply fetchFrom_pages; [assumption|lia|].
  rewrite Nat.sub_0_r.
  assert (D : (length db < limit * S (length db / limit))%nat)
    by (apply Nat.mul_succ_div_gt; discriminate).
  revert Ht D. generalize (length db / limit)%nat. unfold limit. lia.
Qed.

Lemma paging_collects_everything_witness :
  fetchAllScheduledVaccines threeRecordService 1
  = Done [dueNowRaw; dueLaterRaw; undatedRaw].
Proof.
  apply (@paging_collects_everything threeRecordService
           [dueNowRaw; dueLaterRaw; undatedRaw] 1%nat).
  - intro offset. eexists. split; [reflexivity|].
    intros [= E]. apply Nat.ltb_ge in E. exact E.
  - vm_compute. reflexivity.
Defined.

(** ** Last given *)

Lemma insertDesc_perm (x : Z) (l : list Z) :
  Permutation (FullHistory.insertDesc x l) (x :: l).
Proof.
  induction l as [|y l IH]; cbn; [reflexivity|].
  destruct (y <? x)%Z; [reflexivity|].
  rewrite IH. apply perm_swap.
Qed.

Lemma insertDesc_sorted (x : Z) (l : list Z) :
  StronglySorted Z.ge l -> StronglySorted Z.ge (FullHistory.insertDesc x l).
Proof.
  induction 1 as [|y l Hs IH Hy]; cbn.
  - repeat constructor.
  - destruct (Z.ltb_spec y x).
    + constructor; [now constructor|].
      constructor; [lia|].
      eapply Forall_impl; [|exact Hy]. cbn. intros a Ha. lia.
    + constructor; [exact IH|].
      eapply Permutation_Forall; [symmetry; apply insertDesc_perm|].
      constructor; [lia|exact Hy].
Qed.

Lemma sortDesc_spec (times : list Z) :
  Permutation (FullHistory.sortDesc times) times /\
  StronglySorted Z.ge (FullHistory.sortDesc times).
Proof.
  unfold FullHistory.sortDesc.
  assert (G : forall acc,
             StronglySorted Z.ge acc ->
             Permutation
               (fold_left (fun sorted x => FullHistory.insertDesc x sorted)
                  times acc) (acc ++ times) /\
             StronglySorted Z.ge
               (fold_left (fun sorted x => FullHistory.insertDesc x sorted)
                  times acc)).
  { induction times as [|x times IH]; intros acc Hacc.
    - cbn. now rewrite app_nil_r.
    - cbn [fold_left].
      destruct (IH (FullHistory.insertDesc x acc)
                  (insertDesc_sorted x Hacc)) as [P S].
      split; [|exact S]. rewrite P, insertDesc_perm.
      apply Permutation_middle. }
  apply (G []). constructor.
Qed.

Lemma completedTimes_In (history : list Raw.t) (ms : Z) :
  In ms (FullHistory.completedTimes history)
  <-> exists v, In v history /\ FullHistory.completedTime v = Some ms.
Proof.
  induction history as [|v rest IH]; cbn.
  - split; [tauto|now intros (v & [] & _)].
  - destruct (FullHistory.completedTime v) as [x|] eqn:E; cbn; rewrite IH.
    + split.
      * intros [->|(w & Hw & Ew)]; eauto.
      * intros (w & [<-|Hw] & Ew); [left; congruence|eauto].
    + split.
      * intros (w & Hw & Ew); eauto.
      * intros (w & [<-|Hw] & Ew); [congruence|eauto].
Qed.

(** X15. Last given is the latest completed dose: among the records of the
    family it is the greatest time value of a completed-at that is truthy
    and decodes to a valid date, and there is none exactly when no record
    has such a completed-at; records without one, or with one that is
    unreadable or out of range, are passed over. *)
Theorem lastGiven_is_latest (historyForType : list Raw.t) :
  (FullHistory.lastGiven historyForType = None
   <-> forall v, In v historyForType -> FullHistory.completedTime v = None) /\
  (forall ms,
     FullHistory.lastGiven historyForType = Some ms ->
     (exists v, In v historyForType /\
                FullHistory.completedTime v = Some ms) /\
     (forall v x, In v historyForType ->
                  FullHistory.completedTime v = Some x -> (x <= ms)%Z)).
Proof.
  unfold FullHistory.lastGiven.
  destruct (sortDesc_spec (FullHistory.completedTimes historyForType))
    as [P S].
  destruct (FullHistory.sortDesc (FullHistory.completedTimes historyForType))
    as [|top sorted]; cbn [hd_error]; split.
  - split; [|reflexivity]. intros _ v Hv.
    destruct (FullHistory.completedTime v) as [x|] eqn:E; [|reflexivity].
    exfalso. apply Permutation_nil in P.
    assert (Hin : In x (FullHistory.completedTimes historyForType))
      by (apply completedTimes_In; eauto).
    rewrite P in Hin. destruct Hin.
  - discriminate.
  - split; [discriminate|]. intros H. exfalso.
    assert (Hin : In top (FullHistory.completedTimes historyForType))
      by (eapply Permutation_in; [exact P|now left]).
    apply completedTimes_In in Hin as (v & Hv & E).
    rewrite (H v Hv) in E. discriminate.
  - intros ms [= <-]. split.
    + apply completedTimes_In. eapply Permutation_in; [exact P|now left].
    + intros v x Hv E.
      assert (Hin : In x (top :: sorted)).
      { eapply Permutation_in; [symmetry; exact P|].
        apply completedTimes_In. eauto. }
      destruct Hin as [<-|Hin]; [lia|].
      apply StronglySorted_inv in S as [_ F].
      rewrite Forall_forall in F. specialize (F x Hin). lia.
Qed.

Lemma lastGiven_is_latest_witness :
  FullHistory.lastGiven rabiesHistory = Some 1650000000000%Z /\
  forall v x, In v rabiesHistory ->
              FullHistory.completedTime v = Some x -> (x <= 1650000000000)%Z.
Proof.
  split; [vm_compute; reflexivity|].
  apply (proj2 (lastGiven_is_latest rabiesHistory) 1650000000000%Z).
  vm_compute. reflexivity.
Defined.

(** ** The rollup of a whole history *)

Lemma historyForType_Ok (allVaccines : list Raw.t) (type : Family) :
  (forall v, In v allVaccines -> classifiable (Raw.product v) = true) ->
  FullHistory.historyForType allVaccines type
  = Ok (filter (rawOfFamily type) allVaccines).
Proof.
  unfold FullHistory.historyForType.
  induction allVaccines as [|v rest IH]; intros H; [reflexivity|].
  cbn [filterR filter]. rewrite classify_classifiable by (apply H; now left).
  cbn [bindR]. rewrite IH by (intros x Hx; apply H; now right).
  reflexivity.
Qed.

Lemma normalizeAll_In clock (vaccines : list Raw.t) :
  forall t,
    (forall r, In r (fst (normalizeAll clock vaccines t)) ->
               exists v c, In v vaccines /\ r = normalize v c) /\
    (forall v, In v vaccines ->
               exists c, In (normalize v c) (fst (normalizeAll clock vaccines t))).
Proof.
  induction vaccines as [|v rest IH]; intro t.
  - split; intros x [].
  - cbn [normalizeAll]. rewrite !bind_run. cbn [ret fst].
    destruct (IH (snd (classifyByDueWindow clock (Raw.scheduled_for v) t)))
      as [IH1 IH2].
    split.
    + intros r [<-|Hr].
      * eexists v, _. split; [now left|reflexivity].
      * destruct (IH1 r Hr) as (w & c & Hw & E).
        exists w, c. split; [now right|exact E].
    + intros w [<-|Hw].
      * eexists. now left.
      * destruct (IH2 w Hw) as (c & Hc). exists c. now right.
Qed.

Lemma fold_sooner_In (xs : list Vaccine) :
  forall x, In (fold_left sooner xs x) (x :: xs).
Proof.
  induction xs as [|b xs IH]; intro x; [now left|].
  cbn [fold_left]. destruct (IH (sooner x b)) as [E|Hin].
  - rewrite <- E. unfold sooner.
    destruct (Num.lt (timeOrInfinity b) (timeOrInfinity x)); cbn; auto.
  - right. now right.
Qed.

Lemma duePartOf_key (localDate : Z -> string) (soonest : Vaccine) :
  fst (History.duePartOf localDate soonest) = key (status soonest).
Proof. unfold History.duePartOf. now destruct (status soonest). Qed.

Lemma dogOfHistory_records (localDate : Z -> string) clock
  (id name photoUrl : value) (allVaccines : list Raw.t) (t : nat) :
  let dog := fst (FullHistory.dogOfHistory clock id name photoUrl
                    allVaccines t) in
  (forall r, In r (Dog.all dog) ->
             exists v c, In v (filter hasScheduledFor allVaccines) /\
                         r = normalize v c) /\
  (forall v, In v (filter hasScheduledFor allVaccines) ->
             exists c, In (normalize v c) (Dog.all dog)).
Proof.
  unfold FullHistory.dogOfHistory. rewrite bind_run. cbn [ret fst].
  fold hasScheduledFor.
  destruct (bucketScheduledVaccines_partition clock
              (filter hasScheduledFor allVaccines) t) as (_ & P & _).
  destruct (normalizeAll_In clock (filter hasScheduledFor allVaccines) t)
    as [N1 N2].
  split.
  - intros r Hr. apply N1. eapply Permutation_in; [exact P|exact Hr].
  - intros v Hv. destruct (N2 v Hv) as (c & Hc). exists c.
    eapply Permutation_in; [symmetry; exact P|exact Hc].
Qed.

(** X16. The status shown for a family by the full-history variant, for a
    history whose products can all be classified: it never raises; with no
    record of the family on file the key is [none]; with records of the
    family of which none has a truthy scheduled-for the key is [current]
    and the text ends "No upcoming dose scheduled."; otherwise the key is
    the status of one of the dog's records, made from a record of the
    family with a truthy scheduled-for. *)
Theorem history_rollup_status (localDate : Z -> string) clock
  (id name photoUrl : value) (allVaccines : list Raw.t) (type : Family)
  (label : string) (t : nat) :
  (forall v, In v allVaccines -> classifiable (Raw.product v) = true) ->
  let dog := fst (FullHistory.dogOfHistory clock id name photoUrl
                    allVaccines t) in
  let history := filter (rawOfFamily type) allVaccines in
  let scheduled := filter hasScheduledFor history in
  let shown :=
    FullHistory.coreTypeStatus localDate (Dog.all dog) allVaccines type label in
  (history = [] ->
   shown = Ok (none,
               ("_No " ++ Str.toLowerCase label ++ " vaccine on file_")%string)) /\
  (history <> [] -> scheduled = [] ->
   shown = Ok (key current,
               (FullHistory.lastGivenPart localDate history
                ++ "No upcoming dose scheduled.")%string)) /\
  (scheduled <> [] ->
   exists soonest duePart v c,
     shown = Ok (key (status soonest),
                 (FullHistory.lastGivenPart localDate history ++ duePart)%string) /\
     In soonest (Dog.all dog) /\
     In v scheduled /\ soonest = normalize v c).
Proof.
  intros Hc dog history scheduled shown.
  destruct (dogOfHistory_records localDate clock id name photoUrl
              allVaccines t) as [D1 D2].
  fold dog in D1, D2.
  assert (Hd : forall r, In r (Dog.all dog) ->
                         classifiable (product r) = true).
  { intros r Hr. destruct (D1 r Hr) as (v & c & Hv & ->).
    apply Hc. now apply filter_In in Hv as [Hv _]. }
  assert (E : shown
              = match reduce sooner (filter (ofFamily type) (Dog.all dog)) with
                | Some soonest =>
                    let (statusKey, duePart) :=
                      History.duePartOf localDate soonest in
                    Ok (statusKey,
                        (FullHistory.lastGivenPart localDate history
                         ++ duePart)%string)
                | None =>
                    match history with
                    | _ :: _ =>
                        Ok (key current,
                            (FullHistory.lastGivenPart localDate history
                             ++ "No upcoming dose scheduled.")%string)
                    | [] =>
                        Ok (none,
                            ("_No " ++ Str.toLowerCase label
                             ++ " vaccine on file_")%string)
                    end
                end).
  { subst shown. unfold FullHistory.coreTypeStatus.
    rewrite historyForType_Ok by assumption. cbn [bindR].
    rewrite vaccinesForType_Ok by assumption. reflexivity. }
  assert (S0 : scheduled = [] -> filter (ofFamily type) (Dog.all dog) = []).
  { intros Hs. apply filter_none. intros r Hr.
    destruct (D1 r Hr) as (v & c & Hv & ->).
    destruct (ofFamily type (normalize v c)) eqn:F; [|reflexivity].
    exfalso. apply filter_In in Hv as [Hv Ht].
    assert (Hin : In v scheduled).
    { subst scheduled history. apply filter_In. split; [|exact Ht].
      apply filter_In. split; [exact Hv|exact F]. }
    rewrite Hs in Hin. destruct Hin. }
  split; [|split].
  - intros Hh. rewrite E, S0; [now rewrite Hh|].
    subst scheduled. now rewrite Hh.
  - intros Hh Hs. rewrite E, S0 by assumption. cbn [reduce].
    destruct history; [contradiction|reflexivity].
  - intros Hs. rewrite E.
    destruct (filter (ofFamily type) (Dog.all dog)) as [|x xs] eqn:F.
    + exfalso. destruct scheduled as [|v rest] eqn:Es; [contradiction|].
      assert (Hv : In v (filter hasScheduledFor allVaccines)
                   /\ rawOfFamily type v = true).
      { assert (Hin : In v scheduled) by (rewrite Es; now left).
        subst scheduled history.
        apply filter_In in Hin as [Hin Ht]. apply filter_In in Hin as [Hin Hf].
        split; [|exact Hf]. apply filter_In. now split. }
      destruct Hv as [Hv Hf]. destruct (D2 v Hv) as (c & Hin).
      assert (In (normalize v c) (filter (ofFamily type) (Dog.all dog)))
        by (apply filter_In; split; [exact Hin|exact Hf]).
      rewrite F in H. destruct H.
    + cbn [reduce].
      pose proof (fold_sooner_In xs x) as Hin. rewrite <- F in Hin.
      apply filter_In in Hin as [Hin Hf].
      pose proof (duePartOf_key localDate (fold_left sooner xs x)) as K.
      destruct (History.duePartOf localDate (fold_left sooner xs x))
        as [k duePart].
      cbn [fst] in K. subst k.
      destruct (D1 _ Hin) as (v & c & Hv & En).
      exists (fold_left sooner xs x), duePart, v, c.
      split; [reflexivity|]. split; [exact Hin|]. split; [|exact En].
      subst scheduled history. apply filter_In in Hv as [Hv Ht].
      apply filter_In. split; [|exact Ht].
      apply filter_In. split; [exact Hv|].
      rewrite En in Hf. exact Hf.
Qed.

Lemma history_rollup_status_witness :
  FullHistory.coreTypeStatus (fun _ => "1/1/2022"%string)
    (Dog.all (fst (FullHistory.dogOfHistory steadyClock (VStr "dog-1")
                     (VStr "Rico") VNull rabiesHistory 0%nat)))
    rabiesHistory bordetella "Bordetella"
  = Ok (none, "_No bordetella vaccine on file_"%string).
Proof.
  apply (@history_rollup_status (fun _ => "1/1/2022"%string) steadyClock
           (VStr "dog-1") (VStr "Rico") VNull rabiesHistory bordetella
           "Bordetella" 0%nat).
  - intros v [<-|[<-|[<-|[]]]]; reflexivity.
  - reflexivity.
Defined.

(** ** The identifier for the vaccine service *)

Lemma find_first (A : Type) (p : A -> bool) (l : list A) (c : A) :
  In c l -> p c = true ->
  exists x before after,
    find p l = Some x /\ p x = true /\ l = before ++ x :: after /\
    forall b, In b before -> p b = false.
Proof.
  induction l as [|x rest IH]; intros Hc Hp; [destruct Hc|].
  cbn [find]. destruct (p x) eqn:Ex.
  - exists x, [], rest. repeat split; auto. intros b [].
  - destruct Hc as [->|Hc]; [congruence|].
    destruct (IH Hc Hp) as (id & before & after & Ef & El & Ec & Hb).
    exists id, (x :: before), after. repeat split; auto.
    + cbn. now rewrite Ec.
    + intros b [<-|Hin]; auto.
Qed.

(** X17. [getVaccineInternalIdFromAnimal] returns digits only: its result
    is one of the candidates, the trimmed texts of the seven identifier
    fields and of every string or number field of the animal, and is
    numeric; it is null exactly when no candidate is numeric; and when some
    candidate has eight digits or more the result is the first of those,
    even if a shorter numeric candidate comes before it. *)
Theorem vaccine_id_is_numeric (numberToString : number -> string)
  (animal : list (string * value)) :
  let candidates := candidatesOf numberToString animal in
  let found := getVaccineInternalIdFromAnimal numberToString animal in
  (found = None <-> forall c, In c candidates -> isNumeric c = false) /\
  (forall id, found = Some id -> In id candidates /\ isNumeric id = true) /\
  (forall c, In c candidates -> isLongNumeric c = true ->
     exists id before after,
       found = Some id /\ isLongNumeric id = true /\
       candidates = before ++ id :: after /\
       forall b, In b before -> isLongNumeric b = false).
Proof.
  intros candidates found. subst found.
  unfold getVaccineInternalIdFromAnimal. fold candidates.
  assert (L : forall c, isLongNumeric c = true -> isNumeric c = true).
  { intros c H. unfold isLongNumeric in H. now apply andb_prop in H. }
  split; [|split].
  - destruct (find isLongNumeric candidates) as [x|] eqn:F.
    + split; [discriminate|]. intros H. apply find_some in F as [Hin Hx].
      specialize (H x Hin). rewrite (L x Hx) in H. discriminate.
    + destruct (find isNumeric candidates) as [y|] eqn:G.
      * split; [discriminate|]. intros H. apply find_some in G as [Hin Hy].
        specialize (H y Hin). congruence.
      * split; [|reflexivity]. intros _ c Hc.
        now apply (find_none _ _ G).
  - intros id H.
    destruct (find isLongNumeric candidates) as [x|] eqn:F.
    + injection H as <-. apply find_some in F as [Hin Hx]. auto.
    + destruct (find isNumeric candidates) as [y|] eqn:G; [|discriminate].
      injection H as <-. now apply find_some in G.
  - intros c Hc Hl.
    destruct (find_first isLongNumeric candidates c Hc Hl)
      as (id & before & after & Ef & El & Ec & Hb).
    rewrite Ef. now exists id, before, after.
Qed.

Lemma vaccine_id_is_numeric_witness :
  getVaccineInternalIdFromAnimal Num.toString agedAnimal = Some "24"%string /\
  isNumeric "24" = true.
Proof.
  split; [vm_compute; reflexivity|].
  apply (proj1 (proj2 (vaccine_id_is_numeric Num.toString agedAnimal)) "24"%string).
  vm_compute. reflexivity.
Defined.

(** ** The dogs [main] works on *)

(** X18. In [main] every record of a dog sits in the array of its own
    status, before and after the enrichment from the dog's own feed: the
    arrays of a dog grouped from the buckets of the org-wide feed hold
    records whose [status] field names the array, and the enrichment keeps
    it so. *)
Theorem main_dogs_well_bucketed (numberToString : number -> string) clock
  (scheduledVaccines : list Raw.t) (t : nat) (animalsById : Obj.t Entry.t)
  (dogs : Obj.t Dog.t) (k : string) (dog : Dog.t) :
  groupVaccinesByDog numberToString
    (fst (bucketScheduledVaccines clock scheduledVaccines t)) animalsById
  = Ok dogs ->
  dogs k = Some dog ->
  wellBucketed dog /\
  forall (perAnimalVaccines : list Raw.t) (t' : nat),
    wellBucketed (fst (enrichDog clock dog perAnimalVaccines t')).
Proof.
  intros Hg H.
  set (buckets := fst (bucketScheduledVaccines clock scheduledVaccines t)) in *.
  assert (W : wellBucketed dog).
  { intros s r Hr.
    apply groupVaccinesByDog_Ok in Hg as [_ G]. specialize (G k).
    rewrite H in G.
    destruct (Obj.onPrototype k); [discriminate G|].
    unfold groupedAt in G.
    pose proof (bucket_groupItems (belongs numberToString k) buckets s) as B.
    destruct (filter _ (groupItems buckets)) as [|[s0 x] its];
      [discriminate|].
    destruct (isTruthy (readAnimal animalsById k)); [|discriminate G].
    destruct G as (dog' & [= <-] & _ & _ & _ & Hb).
    rewrite Hb, B in Hr. apply filter_In in Hr as [Hr _].
    destruct (bucketScheduledVaccines_partition clock scheduledVaccines t)
      as (A & _).
    fold buckets in A. rewrite A in Hr. apply filter_In in Hr as [_ Hr].
    now apply Status_eqb_eq. }
  split; [exact W|].
  intros feed t' s r Hr.
  unfold enrichDog in Hr. rewrite bind_run in Hr. cbn [ret fst] in Hr.
  destruct (@Extended_forOf clock feed dog feed (dog, knownIdsOf dog) t'
              (incl_refl feed) (Extended_refl feed dog)) as [E _].
  destruct (only_appended E s) as (extra & Eb & Hextra).
  rewrite Eb in Hr. apply in_app_or in Hr as [Hr|Hr].
  - now apply W.
  - now apply Hextra.
Qed.

Lemma main_dogs_well_bucketed_witness :
  exists dogs dog,
    groupVaccinesByDog Num.toString
      (fst (bucketScheduledVaccines steadyClock [dueNowRaw; dueLaterRaw] 0%nat))
      (Obj.set Obj.empty "dog-1" (Entry.mk (VStr "Rico") VNull))
    = Ok dogs /\
    dogs "dog-1"%string = Some dog /\
    wellBucketed (fst (enrichDog steadyClock dog [undatedRaw] 2%nat)).
Proof.
  eexists.
  assert (E : groupVaccinesByDog Num.toString
                (fst (bucketScheduledVaccines steadyClock
                        [dueNowRaw; dueLaterRaw] 0%nat))
                (Obj.set Obj.empty "dog-1" (Entry.mk (VStr "Rico") VNull))
              = Ok _) by (vm_compute; reflexivity).
  eexists. split; [exact E|].
  match type of E with
  | _ = Ok ?d =>
      assert (D : d "dog-1"%string = Some _) by (vm_compute; reflexivity)
  end.
  split; [exact D|].
  exact (proj2 (@main_dogs_well_bucketed Num.toString steadyClock
                  [dueNowRaw; dueLaterRaw] 0%nat
                  (Obj.set Obj.empty "dog-1" (Entry.mk (VStr "Rico") VNull))
                  _ "dog-1" _ E D) [undatedRaw] 2%nat).
Defined.

(** ** Records of no core family *)

Lemma filter_filter_family (type : Family) (l : list Vaccine) :
  type <> other ->
  filter (ofFamily type) (filter coreOnly l) = filter (ofFamily type) l.
Proof.
  intros Ht. induction l as [|r l IH]; [reflexivity|].
  cbn [filter]. destruct (coreOnly r) eqn:C; cbn [filter]; rewrite IH;
    [reflexivity|].
  replace (ofFamily type r) with false; [reflexivity|].
  unfold coreOnly, ofFamily in *.
  destruct (familyOf (product r)), type; cbn in *; congruence.
Qed.

Lemma Dog_all_withoutOther (dog : Dog.t) :
  Dog.all (withoutOther dog) = filter coreOnly (Dog.all dog).
Proof.
  unfold Dog.all, withoutOther. cbn. rewrite !filter_app.
  now destruct (Dog.unknown dog).
Qed.

Lemma summaryLine_counts (dog dog' : Dog.t) :
  (forall s, s <> unknown ->
             length (dogBucket s dog') = length (dogBucket s dog)) ->
  summaryLine dog' = summaryLine dog.
Proof.
  intros H. unfold summaryLine.
  pose proof (H overdue) as O. pose proof (H needsAttention) as N.
  pose proof (H upcoming) as U. pose proof (H current) as C.
  cbn [dogBucket] in O, N, U, C.
  now rewrite O, N, U, C by discriminate.
Qed.

(** X19. In [scripts/checkVaccines.js] the records of no core family show in
    the counts of the summary only: provided every product of the dog can
    be classified, the dog with every record of family other taken out gets
    the same per-family blocks; its message raises when the dog's does, and
    otherwise has the same text and the same blocks but for the summary
    block (the third); and the two messages are the same when the four
    counted arrays are as long, as when the records taken out were all in
    [unknown]. *)
Theorem other_family_never_shown (numberToString : number -> string)
  (dog : Dog.t) :
  (forall r, In r (Dog.all dog) -> classifiable (product r) = true) ->
  vaccineBlocks (Dog.all (withoutOther dog)) = vaccineBlocks (Dog.all dog) /\
  (forall e,
     buildSlackPayloadForDog numberToString dog = Throw e ->
     buildSlackPayloadForDog numberToString (withoutOther dog) = Throw e) /\
  (forall p,
     buildSlackPayloadForDog numberToString dog = Ok p ->
     exists p',
       buildSlackPayloadForDog numberToString (withoutOther dog) = Ok p' /\
       Payload.text p' = Payload.text p /\
       length (Payload.blocks p') = length (Payload.blocks p) /\
       forall i, i <> 2%nat ->
         nth_error (Payload.blocks p') i = nth_error (Payload.blocks p) i) /\
  ((forall s, s <> unknown ->
      length (dogBucket s (withoutOther dog)) = length (dogBucket s dog)) ->
   buildSlackPayloadForDog numberToString (withoutOther dog)
   = buildSlackPayloadForDog numberToString dog).
Proof.
  intros H.
  assert (H' : forall r, In r (Dog.all (withoutOther dog)) ->
                         classifiable (product r) = true).
  { intros r Hr. rewrite Dog_all_withoutOther in Hr.
    apply filter_In in Hr as [Hr _]. now apply H. }
  assert (E : forall type label,
             type <> other ->
             coreTypeStatus (Dog.all (withoutOther dog)) type label
             = coreTypeStatus (Dog.all dog) type label).
  { intros type label Ht. unfold coreTypeStatus.
    rewrite !vaccinesForType_Ok by assumption.
    now rewrite Dog_all_withoutOther, filter_filter_family. }
  assert (V : vaccineBlocks (Dog.all (withoutOther dog))
              = vaccineBlocks (Dog.all dog)).
  { unfold vaccineBlocks, coreTypes. cbn [mapR].
    now rewrite !E by discriminate. }
  split; [exact V|].
  unfold buildSlackPayloadForDog. rewrite V.
  change (Dog.name (withoutOther dog)) with (Dog.name dog).
  change (Dog.photoUrl (withoutOther dog)) with (Dog.photoUrl dog).
  split; [|split].
  - intros e. now destruct (vaccineBlocks (Dog.all dog)).
  - intros p. destruct (vaccineBlocks (Dog.all dog)) as [perType|e];
      cbn [bindR]; [|discriminate].
    intros [= <-]. eexists. split; [reflexivity|].
    cbn [Payload.text Payload.blocks]. split; [reflexivity|].
    split; [reflexivity|].
    intros [|[|[|i]]] Hi; try reflexivity. now contradiction Hi.
  - intros L. now rewrite (summaryLine_counts dog (withoutOther dog) L).
Qed.

Lemma other_family_never_shown_witness :
  vaccineBlocks (Dog.all (withoutOther mixedDog))
  = vaccineBlocks (Dog.all mixedDog).
Proof.
  apply (other_family_never_shown Num.toString mixedDog).
  intros r Hr. cbn in Hr. destruct Hr as [<-|[<-|[]]]; reflexivity.
Defined.

(** The summary counts the record of no core family: taking it out changes
    the summary block. *)
Example other_family_counted_in_summary :
  match buildSlackPayloadForDog Num.toString mixedDog,
        buildSlackPayloadForDog Num.toString (withoutOther mixedDog) with
  | Ok p, Ok p' =>
      nth_error (Payload.blocks p) 2
      = Some (SectionBlock
                "*Rico* – 0 overdue, 1 within the month, 1 current" None) /\
      nth_error (Payload.blocks p') 2
      = Some (SectionBlock
                "*Rico* – 0 overdue, 0 within the month, 1 current" None)
  | _, _ => False
  end.
Proof. vm_compute. split; reflexivity. Qed.

(** ** The one-message variant against the main script *)

Lemma sameDated_step clock (lb : Legacy.Buckets.t) (b : Buckets.t)
  (v : Raw.t) (t : nat) :
  sameDated lb b ->
  sameDated (fst (Legacy.bucketStep clock lb v t))
            (fst (bucketStep clock b v t)) /\
  snd (Legacy.bucketStep clock lb v t) = snd (bucketStep clock b v t).
Proof.
  intros (O & N & U & C).
  unfold Legacy.bucketStep, bucketStep. rewrite !bind_run.
  cbn [ret fst snd]. split; [|reflexivity].
  destruct (Due.status (fst (classifyByDueWindow clock (Raw.scheduled_for v) t)));
    unfold sameDated, push; cbn;
    rewrite ?map_app, ?O, ?N, ?U, ?C; repeat split; reflexivity.
Qed.

Lemma sameDated_forOf clock (vaccines : list Raw.t) :
  forall (lb : Legacy.Buckets.t) (b : Buckets.t) (t : nat),
    sameDated lb b ->
    sameDated (fst (forOf (Legacy.bucketStep clock) vaccines lb t))
              (fst (forOf (bucketStep clock) vaccines b t)) /\
    snd (forOf (Legacy.bucketStep clock) vaccines lb t)
    = snd (forOf (bucketStep clock) vaccines b t).
Proof.
  induction vaccines as [|v rest IH]; intros lb b t H.
  - cbn. now split.
  - cbn [forOf]. rewrite !bind_run.
    destruct (sameDated_step clock v t H) as [Hs Ht].
    rewrite Ht. now apply IH.
Qed.

(** X20. The one-message variant buckets the dated records as
    [scripts/checkVaccines.js] does and drops the others: from the same feed
    and clock its four arrays hold, in the same order, the records of the
    arrays overdue, needsAttention, upcoming and current of the main script
    without their [status] field; the clock is read as often; and the
    arrays together hold as many records as the feed has records whose
    scheduled-for decodes. *)
Theorem legacy_buckets_are_dated_buckets clock (vaccines : list Raw.t)
  (t : nat) :
  let lb := Legacy.bucketScheduledVaccines clock vaccines t in
  let b := bucketScheduledVaccines clock vaccines t in
  sameDated (fst lb) (fst b) /\
  snd lb = snd b /\
  length (Legacy.Buckets.all (fst lb)) = length (filter decodes vaccines).
Proof.
  intros lb b.
  assert (E : sameDated Legacy.Buckets.empty Buckets.empty)
    by (repeat split; reflexivity).
  destruct (sameDated_forOf clock vaccines t E) as [S T].
  fold (Legacy.bucketScheduledVaccines clock vaccines) in S, T.
  fold (bucketScheduledVaccines clock vaccines) in S, T.
  fold lb b in S, T.
  split; [exact S|]. split; [exact T|].
  destruct S as (O & N & U & C).
  unfold Legacy.Buckets.all. rewrite O, N, U, C.
  rewrite !length_app, !length_map.
  destruct (bucketScheduledVaccines_partition clock vaccines t)
    as (A & P & I).
  fold b in A, P.
  apply Permutation_length in P.
  apply (f_equal (@length _)) in I. rewrite !length_map in I.
  destruct (normalizeAll_unknown clock vaccines t) as [K _].
  rewrite <- (A unknown) in K.
  apply (f_equal (@length _)) in K. rewrite !length_map in K.
  cbn [bucketOf] in K.
  unfold Buckets.all in P. rewrite !length_app in P.
  pose proof (filter_length decodes vaccines) as L.
  lia.
Qed.
